(** * uPic Images Auto Uploader: the relay core, embedded and verified

    The plugin hands pasted or dropped images to the external [uPic]
    command-line tool and rewrites the local markdown reference into the
    returned URL.  This development embeds the parts of the TypeScript
    sources that carry the relay logic:

    - [JS]       strings as sequences of UTF-16 code units with the
                 built-ins the sources call ([trim], [split], [includes],
                 [replace], [parseInt], ...);
    - [Regex]    the regular expressions the sources build, with a
                 backtracking matcher and global replacement;
    - [Dedup]    the [processingFiles] set of [processImageFile];
    - [Patcher]  the image link, the patterns around it and the path
                 variants of [generatePathVariants];
    - [Eff]      a free monad for the calls that leave the plugin
                 ([Date.now], [child_process.exec], [fs], notices);
    - [Uploader] [UPicUploader]: availability cache, path testing,
                 discovery and [uploadFile];
    - [Staging]  [createTempFile];
    - [UploaderRest] [uploadFiles], [isImageFile], [performPeriodicCheck];
    - [PatternText]  the texts the pattern templates build and the syntax
                 check of the [RegExp] constructor;
    - [PatcherRest]  both revisions of [replaceImageLinkInDocument] with
                 that constructor in place, and
                 [replaceAllImageLinksInDocument];
    - [Commands] [uploadSelectedImage];
    - [Settings] [SettingsManager.validateSettings].

    Definitions come first; every statement about them follows in the
    second half of the file. *)

From Stdlib Require Import ZArith NArith List Ascii String Bool Lia DecimalString.
From stdpp Require Import gmap.

Local Open Scope N_scope.

(** ** JavaScript strings *)

Module JS.

(** A JavaScript string is a finite sequence of 16-bit code units.  The
    code units are kept as [N]; every operation below works unit by unit,
    as the built-ins do without the [u] flag. *)
Abbreviation str := (list N).

(** String literals of the sources (all of them ASCII). *)
Definition js (s : string) : str :=
  map N_of_ascii (list_ascii_of_string s).

(** WhiteSpace and LineTerminator code points: what [trim] strips and what
    [\s] matches. *)
Definition isWhiteSpace (c : N) : bool :=
  (c =? 9) || (c =? 10) || (c =? 11) || (c =? 12) || (c =? 13) || (c =? 32)
  || (c =? 160) || (c =? 5760) || ((8192 <=? c) && (c <=? 8202))
  || (c =? 8232) || (c =? 8233) || (c =? 8239) || (c =? 8287)
  || (c =? 12288) || (c =? 65279).

Fixpoint trimStart (s : str) : str :=
  match s with
  | c :: s' => if isWhiteSpace c then trimStart s' else s
  | [] => []
  end.

Definition trimEnd (s : str) : str := rev (trimStart (rev s)).

Definition trim (s : str) : str := trimEnd (trimStart s).

(** [s.startsWith(p)] *)
Fixpoint startsWith (s p : str) {struct p} : bool :=
  match p, s with
  | [], _ => true
  | a :: p', b :: s' => (a =? b) && startsWith s' p'
  | _ :: _, [] => false
  end.

(** [s.endsWith(p)] *)
Definition endsWith (s p : str) : bool := startsWith (rev s) (rev p).

(** [s.includes(p)] *)
Fixpoint includes (s p : str) : bool :=
  startsWith s p
  || match s with
     | [] => false
     | _ :: s' => includes s' p
     end.

(** [s.split(sep)] for a one-character separator; never the empty list. *)
Fixpoint split (s : str) (sep : N) : list str :=
  match s with
  | [] => [[]]
  | c :: s' =>
      if c =? sep then [] :: split s' sep
      else match split s' sep with
           | l :: ls => (c :: l) :: ls
           | [] => [[c]]
           end
  end.

(** [parts.join(sep)] *)
Fixpoint join (parts : list str) (sep : str) : str :=
  match parts with
  | [] => []
  | [p] => p
  | p :: ps => p ++ sep ++ join ps sep
  end.

(** [s.lastIndexOf(c)] for a one-character needle, [-1] when absent. *)
Fixpoint lastIndexOf_from (i : Z) (s : str) (c : N) (found : Z) : Z :=
  match s with
  | [] => found
  | x :: s' => lastIndexOf_from (i + 1) s' c (if x =? c then i else found)
  end.

Definition lastIndexOf (s : str) (c : N) : Z := lastIndexOf_from 0 s c (-1).

(** [s.substring(a, b)]: both ends clamped to [0, length], swapped when out
    of order. *)
Definition clampIndex (s : str) (i : Z) : nat :=
  Nat.min (Z.to_nat i) (length s).

Definition substring (s : str) (a b : Z) : str :=
  let a' := clampIndex s a in
  let b' := clampIndex s b in
  take (Nat.max a' b' - Nat.min a' b') (drop (Nat.min a' b') s).

(** [s.substring(a)] *)
Definition substringFrom (s : str) (a : Z) : str :=
  substring s a (Z.of_nat (length s)).

(** [s.slice(a)] for a non-negative start and [s.slice(a, -b)]. *)
Definition sliceFrom (s : str) (a : nat) : str := drop a s.

Definition sliceBetween (s : str) (a b : nat) : str :=
  take (length s - b - a) (drop a s).

(** Template interpolation of an integral number, [`${n}`]. *)
Definition showZ (z : Z) : str :=
  js (NilEmpty.string_of_int (Z.to_int z)).

(** [parseInt(s)] without a radix: leading white space, a sign, an
    optional [0x] prefix, then the longest run of digits; [None] is [NaN].
    The sources only compare the result with [0]. *)
Definition digitValue (radix : N) (c : N) : option N :=
  let v :=
    if (48 <=? c) && (c <=? 57) then Some (c - 48)
    else if (97 <=? c) && (c <=? 122) then Some (c - 87)
    else if (65 <=? c) && (c <=? 90) then Some (c - 55)
    else None in
  match v with
  | Some d => if d <? radix then Some d else None
  | None => None
  end.

Fixpoint parseDigits (radix : N) (s : str) (acc : option N) : option N :=
  match s with
  | [] => acc
  | c :: s' =>
      match digitValue radix c with
      | Some d =>
          parseDigits radix s'
            (Some (match acc with Some a => a * radix + d | None => d end))
      | None => acc
      end
  end.

Definition parseInt (s : str) : option Z :=
  let s1 := trimStart s in
  let '(negative, s2) :=
    match s1 with
    | 45 :: r => (true, r)
    | 43 :: r => (false, r)
    | _ => (false, s1)
    end in
  let '(radix, s3) :=
    match s2 with
    | 48 :: 120 :: r => (16, r)
    | 48 :: 88 :: r => (16, r)
    | _ => (10, s2)
    end in
  match parseDigits radix s3 None with
  | Some n => Some (if negative : bool then (- Z.of_N n)%Z else Z.of_N n)
  | None => None
  end.

(** GetSubstitution: expansion of [$$], [$&], [$`], [$'] and [$n] / [$nn]
    in the replacement text of [String.prototype.replace].  The patterns of
    the sources have no named groups, so [$<] stays literal. *)
Definition isDigit (c : N) : bool := (48 <=? c) && (c <=? 57).

Definition capture (captures : list str) (n : N) : option str :=
  if (1 <=? n) && (n <=? N.of_nat (length captures))
  then captures !! (N.to_nat n - 1)%nat
  else None.

Fixpoint GetSubstitution (matched whole : str) (position : nat)
    (captures : list str) (template : str) : str :=
  let go := GetSubstitution matched whole position captures in
  match template with
  | [] => []
  | 36 :: t1 =>
      match t1 with
      | 36 :: t2 => 36 :: go t2
      | 96 :: t2 => take position whole ++ go t2
      | 38 :: t2 => matched ++ go t2
      | 39 :: t2 => drop (position + length matched) whole ++ go t2
      | d1 :: t2 =>
          if isDigit d1 then
            let one :=
              match capture captures (d1 - 48) with
              | Some c => c ++ go t2
              | None => 36 :: d1 :: go t2
              end in
            match t2 with
            | d2 :: t3 =>
                if isDigit d2 then
                  let nn := (d1 - 48) * 10 + (d2 - 48) in
                  if N.of_nat (length captures) <? nn then one
                  else match capture captures nn with
                       | Some c => c ++ go t3
                       | None => 36 :: d1 :: d2 :: go t3
                       end
                else one
            | [] => one
            end
          else 36 :: go t1
      | [] => [36]
      end
  | c :: t1 => c :: go t1
  end.

(** Position of the first occurrence of [p] in [s]. *)
Fixpoint indexOf_from (i : nat) (s p : str) : option nat :=
  if startsWith s p then Some i
  else match s with
       | [] => None
       | _ :: s' => indexOf_from (S i) s' p
       end.

(** [s.replace(p, repl)] with a string pattern: the first occurrence
    only, no captures. *)
Definition replaceString (s p repl : str) : str :=
  match indexOf_from 0 s p with
  | Some i =>
      take i s ++ GetSubstitution p s i [] repl ++ drop (i + length p) s
  | None => s
  end.

End JS.

(** ** Regular expressions *)

Module Regex.
Import JS.

(** One-character atoms of the patterns in the sources. *)
Inductive cls : Type :=
| Only (c : N)            (* a literal character *)
| NoneOf (cs : list N)    (* a negated class such as [^\]] *)
| NotSpace.               (* [^\s] *)

Definition cls_ok (k : cls) (c : N) : bool :=
  match k with
  | Only a => c =? a
  | NoneOf cs => negb (existsb (N.eqb c) cs)
  | NotSpace => negb (isWhiteSpace c)
  end.

(** The fragment of the pattern language the sources use: literal text,
    greedy quantifiers on one-character atoms, capturing groups, [\b] and
    the end anchor [$]. *)
Inductive regex : Type :=
| Lit (s : str)
| One (k : cls)
| Star (k : cls)
| Plus (k : cls)
| Opt (k : cls)
| WordB
| Eos
| Group (r : regex)
| Seq (r1 r2 : regex).

(** [\w] *)
Definition isWordChar (c : N) : bool :=
  ((48 <=? c) && (c <=? 57)) || ((65 <=? c) && (c <=? 90))
  || ((97 <=? c) && (c <=? 122)) || (c =? 95).

Definition isWord (c : option N) : bool :=
  match c with
  | Some x => isWordChar x
  | None => false
  end.

Fixpoint stripPrefix (p s : str) : option str :=
  match p, s with
  | [], _ => Some s
  | a :: p', b :: s' => if a =? b then stripPrefix p' s' else None
  | _ :: _, [] => None
  end.

Section Matcher.
Context {A : Type}.

(** A continuation receives the character before the current position,
    the rest of the input and the captures so far. *)
Definition cont : Type := option N -> str -> list str -> option A.

(** Greedy iteration of a one-character atom: the longest walk first,
    then shorter ones when the continuation fails. *)
Fixpoint star (k : cls) (prev : option N) (s : str)
    (caps : list str) (kont : cont) : option A :=
  match s with
  | c :: s' =>
      if cls_ok k c then
        match star k (Some c) s' caps kont with
        | Some a => Some a
        | None => kont prev s caps
        end
      else kont prev s caps
  | [] => kont prev s caps
  end.

Fixpoint walk (r : regex) (prev : option N) (s : str)
    (caps : list str) (kont : cont) : option A :=
  match r with
  | Lit l =>
      match stripPrefix l s with
      | Some s' => kont (match last l with Some c => Some c | None => prev end) s' caps
      | None => None
      end
  | One k =>
      match s with
      | c :: s' => if cls_ok k c then kont (Some c) s' caps else None
      | [] => None
      end
  | Star k => star k prev s caps kont
  | Plus k =>
      match s with
      | c :: s' => if cls_ok k c then star k (Some c) s' caps kont else None
      | [] => None
      end
  | Opt k =>
      match s with
      | c :: s' =>
          if cls_ok k c then
            match kont (Some c) s' caps with
            | Some a => Some a
            | None => kont prev s caps
            end
          else kont prev s caps
      | [] => kont prev s caps
      end
  | WordB =>
      if xorb (isWord prev) (isWord (head s)) then kont prev s caps else None
  | Eos =>
      match s with
      | [] => kont prev s caps
      | _ :: _ => None
      end
  | Group r' =>
      let i := length caps in
      walk r' prev s (caps ++ [[]])
        (fun prev' s' caps' =>
           kont prev' s' (<[i := take (length s - length s') s]> caps'))
  | Seq r1 r2 =>
      walk r1 prev s caps (fun prev' s' caps' => walk r2 prev' s' caps' kont)
  end.
End Matcher.

(** A match attempt anchored at the current position: the number of code
    units consumed and the captured groups. *)
Definition exec_at (r : regex) (prev : option N) (s : str)
    : option (nat * list str) :=
  walk r prev s [] (fun _ s' caps => Some ((length s - length s')%nat, caps)).

(** [re.test(s)]: is there a match at some position? *)
Fixpoint test_from (r : regex) (prev : option N) (s : str) : bool :=
  match exec_at r prev s with
  | Some _ => true
  | None =>
      match s with
      | [] => false
      | c :: s' => test_from r (Some c) s'
      end
  end.

Definition test (r : regex) (s : str) : bool := test_from r None s.

(** [s.replace(re, repl)] with the [g] flag.  [before] is the consumed
    input, last character first; [skip] counts the code units of the
    current match still to be passed over.  An empty match is replaced
    and the scan moves on by one code unit. *)
Fixpoint replaceAll_from (r : regex) (repl whole : str) (skip : nat)
    (before s : str) : str :=
  match skip with
  | S n =>
      match s with
      | c :: s' => replaceAll_from r repl whole n (c :: before) s'
      | [] => []
      end
  | O =>
      match exec_at r (head before) s with
      | Some (len, caps) =>
          let sub :=
            GetSubstitution (take len s) whole (length before) caps repl in
          match s with
          | c :: s' =>
              match len with
              | O => sub ++ c :: replaceAll_from r repl whole 0 (c :: before) s'
              | S n => sub ++ replaceAll_from r repl whole n (c :: before) s'
              end
          | [] => sub
          end
      | None =>
          match s with
          | c :: s' => c :: replaceAll_from r repl whole 0 (c :: before) s'
          | [] => []
          end
      end
  end.

Definition replaceAll (r : regex) (s repl : str) : str :=
  replaceAll_from r repl s 0 [] s.

(** [s.replace(re, repl)] without the [g] flag: the leftmost match only. *)
Fixpoint replaceFirst_from (r : regex) (repl whole : str)
    (before s : str) : str :=
  match exec_at r (head before) s with
  | Some (len, caps) =>
      GetSubstitution (take len s) whole (length before) caps repl
      ++ drop len s
  | None =>
      match s with
      | c :: s' => c :: replaceFirst_from r repl whole (c :: before) s'
      | [] => []
      end
  end.

Definition replaceFirst (r : regex) (s repl : str) : str :=
  replaceFirst_from r repl s [] s.

(** [s.match(re)] with the [g] flag: every matched substring, in order
    (the empty list stands for [null]). *)
Fixpoint matchAll_from (r : regex) (skip : nat) (prev : option N)
    (s : str) : list str :=
  match skip with
  | S n =>
      match s with
      | c :: s' => matchAll_from r n (Some c) s'
      | [] => []
      end
  | O =>
      match exec_at r prev s with
      | Some (len, _) =>
          take len s ::
          match s with
          | c :: s' => matchAll_from r (len - 1) (Some c) s'
          | [] => []
          end
      | None =>
          match s with
          | c :: s' => matchAll_from r 0 (Some c) s'
          | [] => []
          end
      end
  end.

Definition matchAll (r : regex) (s : str) : list str :=
  matchAll_from r 0 None s.

(** The characters [escapeRegExp] protects:
    [. * + ? ^ $ { } ( ) | [ ] \]. *)
Definition isSyntaxChar (c : N) : bool :=
  existsb (N.eqb c) [46; 42; 43; 63; 94; 36; 123; 125; 40; 41; 124; 91; 93; 92].

(** [string.replace(/[.*+?^${}()|[\]\\]/g, '\\$&')] *)
Fixpoint escapeRegExp (s : str) : str :=
  match s with
  | [] => []
  | c :: s' =>
      if isSyntaxChar c then 92 :: c :: escapeRegExp s'
      else c :: escapeRegExp s'
  end.

(** The text a walk of pattern source stands for when it holds only
    ordinary characters and identity escapes. *)
Fixpoint literalOf (src : str) : str :=
  match src with
  | 92 :: c :: rest => c :: literalOf rest
  | c :: rest => c :: literalOf rest
  | [] => []
  end.

(** A piece of pattern source interpolated after escaping:
    [${escapeRegExp(x)}] inside a [new RegExp(...)] template. *)
Definition escaped (x : str) : regex := Lit (literalOf (escapeRegExp x)).

End Regex.

(** ** Host objects *)

(** A DOM [File]: the fields the plugin reads and the bytes behind
    [arrayBuffer()]. *)
Record File : Type := mkFile {
  file_name : JS.str;
  file_size : Z;
  file_lastModified : Z;
  file_bytes : list Byte.byte
}.

(** The editor of the active view: its text, and the arguments of the
    [setValue] calls made on it, oldest first. *)
Record Editor : Type := mkEditor {
  editor_text : JS.str;
  editor_setValue_calls : list JS.str
}.

Definition getValue (editor : Editor) : JS.str := editor_text editor.

Definition setValue (editor : Editor) (text : JS.str) : Editor :=
  {| editor_text := text;
     editor_setValue_calls := editor_setValue_calls editor ++ [text] |}.

(** ** Task de-duplication in [processImageFile] *)

Module Dedup.
Import JS.

(** [`${file.name}-${file.size}-${file.lastModified}`] *)
Definition fileId (file : File) : str :=
  file_name file ++ js "-" ++ showZ (file_size file) ++ js "-"
  ++ showZ (file_lastModified file).

(** How control leaves the synchronous head of [processImageFile]. *)
Inductive entry : Type :=
| NotDesktop          (* [return] after the platform notice *)
| AlreadyProcessing   (* [return] from the duplicate check *)
| Begun.              (* marked as processing; suspended at the first [await] *)

(** The [try] block up to its first [await]: platform check, duplicate
    check, [processingFiles.add(fileId)]. *)
Definition tryHead (isDesktop : bool) (file : File)
    (processingFiles : gset str) : entry * gset str :=
  if negb isDesktop then (NotDesktop, processingFiles)
  else
    let fileId := fileId file in
    if decide (fileId ∈ processingFiles) then (AlreadyProcessing, processingFiles)
    else (Begun, {[fileId]} ∪ processingFiles).

(** The [finally] block: [processingFiles.delete(fileId)]. *)
Definition finallyBlock (file : File) (processingFiles : gset str) : gset str :=
  processingFiles ∖ {[fileId file]}.

(** A call to [processImageFile] runs without interruption until its first
    [await].  Both [return] statements sit inside the [try], so leaving
    through either of them runs the [finally] block at once; a call that
    got past them is suspended and runs it when it settles. *)
Definition processImageFile_call (isDesktop : bool) (file : File)
    (processingFiles : gset str) : entry * gset str :=
  match tryHead isDesktop file processingFiles with
  | (Begun, pf) => (Begun, pf)
  | (e, pf) => (e, finallyBlock file pf)
  end.

(** How the awaited part of a begun call ends.  Copying, staging, upload
    and patching sit inside the same [try]; a rejection is caught by the
    [catch] clause. *)
Inductive ending : Type :=
| Uploaded        (* upload succeeded, link patched or not *)
| UploadFailed    (* the uploader returned a failure result *)
| Threw.          (* staging, upload or patching threw *)

(** Settling of a begun call: in each case control reaches [finally]. *)
Definition processImageFile_settle (how : ending) (file : File)
    (processingFiles : gset str) : gset str :=
  match how with
  | Uploaded => finallyBlock file processingFiles
  | UploadFailed => finallyBlock file processingFiles
  | Threw => finallyBlock file processingFiles
  end.

(** The plugin between turns of the event loop: the [processingFiles] set
    and the calls that have begun and not yet settled. *)
Record plugin : Type := mkPlugin {
  processingFiles : gset str;
  inFlight : list File
}.

Inductive turn : Type :=
| Call (file : File)                  (* a handler calls [processImageFile] *)
| Settle (how : ending) (file : File).  (* a begun call for [file] settles *)

Definition sameFile (f g : File) : bool :=
  bool_decide (fileId f = fileId g).

Fixpoint removeFirst (file : File) (l : list File) : list File :=
  match l with
  | [] => []
  | g :: l' => if sameFile file g then l' else g :: removeFirst file l'
  end.

Definition step (isDesktop : bool) (p : plugin) (t : turn) : plugin :=
  match t with
  | Call file =>
      match processImageFile_call isDesktop file (processingFiles p) with
      | (Begun, pf) => {| processingFiles := pf; inFlight := file :: inFlight p |}
      | (_, pf) => {| processingFiles := pf; inFlight := inFlight p |}
      end
  | Settle how file =>
      if existsb (sameFile file) (inFlight p) then
        {| processingFiles := processImageFile_settle how file (processingFiles p);
           inFlight := removeFirst file (inFlight p) |}
      else p
  end.

Definition steps (isDesktop : bool) (p : plugin) (ts : list turn) : plugin :=
  fold_left (step isDesktop) ts p.

(** Number of begun, unsettled calls that carry the fingerprint of [file]. *)
Definition inFlightCount (file : File) (p : plugin) : nat :=
  length (filter (fun g => sameFile file g = true) (inFlight p)).

End Dedup.

(** ** Rewriting the reference in the document *)

Module Patcher.
Import JS Regex.

(** [`![${alt}](${target})`] *)
Definition imageLink (alt target : str) : str :=
  js "![" ++ alt ++ js "](" ++ target ++ js ")".

(** An image link with any alt text, up to the opening parenthesis of its
    target.  In the sources: [!\[] , the group [[^\]]*] , [\]\(]. *)
Definition anyAltOpen : regex :=
  Seq (Lit (js "![")) (Seq (Group (Star (NoneOf [93]))) (Lit (js "]("))).

(** The opening above, [${escapedPath}] and [\)]. *)
Definition anyAltExactPath (path : str) : regex :=
  Seq anyAltOpen (Seq (escaped path) (Lit (js ")"))).

(** What the loose template would stand for with its last parenthesis
    escaped: the opening above, [[^\)]*] , [${escapedFileName}],
    [[^\)]*] and [\)].  The text the sources build is
    [PatternText.looseText], which leaves that parenthesis bare. *)
Definition anyAltPathContaining (fileName : str) : regex :=
  Seq anyAltOpen
    (Seq (Star (NoneOf [41]))
       (Seq (escaped fileName) (Seq (Star (NoneOf [41])) (Lit (js ")"))))).

(** The same with the file name between two [\b]; its text is
    [PatternText.looseWordText]. *)
Definition anyAltPathContainingWord (fileName : str) : regex :=
  Seq anyAltOpen
    (Seq (Star (NoneOf [41]))
       (Seq WordB
          (Seq (escaped fileName)
             (Seq WordB (Seq (Star (NoneOf [41])) (Lit (js ")"))))))).

(** *** The path variants of the second revision *)

Module V2.

(** [Set.prototype.add], the set kept in insertion order. *)
Definition setAdd (variants : list str) (x : str) : list str :=
  if bool_decide (x ∈ variants) then variants else variants ++ [x].

Definition commonFolders : list str :=
  [js "attachments"; js "assets"; js "images"; js "files"].

(** [i = 1 .. pathParts.length - 1]: [pathParts.slice(i).join('/')] and the
    same with a leading [./]. *)
Definition partialPaths (pathParts : list str) : list str :=
  flat_map
    (fun i =>
       let partialPath := join (drop i pathParts) (js "/") in
       [partialPath; js "./" ++ partialPath])
    (seq 1 (length pathParts - 1)).

Definition generatePathVariants (fileName filePath : str) : list str :=
  fold_left setAdd
    ([fileName; filePath; js "./" ++ fileName; js "./" ++ filePath]
     ++ flat_map
          (fun folder =>
             [folder ++ js "/" ++ fileName; js "./" ++ folder ++ js "/" ++ fileName])
          commonFolders
     ++ (if includes filePath (js "/") then partialPaths (split filePath 47)
         else []))
    [].

(** [fileName.replace(/\.[^/.]+$/, '')] *)
Definition lastExtension : regex :=
  Seq (Lit (js ".")) (Seq (Plus (NoneOf [47; 46])) Eos).

Definition fileNameWithoutExt (fileName : str) : str :=
  replaceFirst lastExtension fileName [].

End V2.

End Patcher.

(** ** Calls that leave the plugin *)

Module Eff.
Import JS.

(** What a [catch] clause can receive: an [Error] with its message, or
    some other thrown value. *)
Inductive thrown : Type :=
| ErrorObject (message : str)
| OtherValue.

(** How the promise of [execAsync] settles. *)
Inductive execOutcome : Type :=
| Resolved (stdout stderr : str)
| Rejected (error : thrown).

(** The calls into Node, the browser and Obsidian, each with the type of
    its answer.  [console.log] and friends are left out: they return
    nothing and the sources never read them back. *)
Inductive call : Type -> Type :=
| DateNow : call Z
| ExecAsync (command : str) (timeout : Z) : call execOutcome
| ExistsSync (path : str) : call bool
| StatSync (path : str) : call (thrown + bool)   (* [stats.isFile()], or the throw *)
| AccessSync (path : str) : call (option thrown) (* [F_OK | X_OK]; [Some] is the throw *)
| FsAccess (path : str) : call bool              (* [fs.promises.access]: did it resolve? *)
| ArrayBuffer (file : File) : call (thrown + list Byte.byte)
                                                 (* [file.arrayBuffer()]: the bytes, or the rejection *)
| WriteFile (path : str) (data : list Byte.byte) : call (option thrown)
| NewNotice (message : str) : call unit.

(** Programs: a result, or a call and what to do with its answer. *)
Inductive prog (A : Type) : Type :=
| Ret (a : A)
| Do {X : Type} (c : call X) (k : X -> prog A).

Arguments Ret {A} a.
Arguments Do {A X} c k.

Fixpoint bind {A B : Type} (m : prog A) (f : A -> prog B) : prog B :=
  match m with
  | Ret a => f a
  | Do c k => Do c (fun x => bind (k x) f)
  end.

Definition perform {X : Type} (c : call X) : prog X := Do c Ret.

(** What [promisify(exec)] rejects with when the [timeout] option runs
    out: [exec] kills the child and its exit handler builds the error
    from the command line and what the child wrote to [stderr],
    [`Command failed: ${cmd}\n${stderr}`]; [killed] and [signal] sit
    beside the message and the sources never read them. *)
Definition timedOut (command stderr : str) : execOutcome :=
  Rejected (ErrorObject (js "Command failed: " ++ command ++ [10] ++ stderr)).

(** One observed call with its answer. *)
Inductive observed : Type :=
| Obs {X : Type} (c : call X) (x : X).

Section Run.
Context {W : Type}.

(** The world answers every call and moves on. *)
Variable handle : forall X : Type, call X -> W -> X * W.

Fixpoint run {A : Type} (m : prog A) (w : W) : A * W * list observed :=
  match m with
  | Ret a => (a, w, [])
  | Do c k =>
      let '(x, w1) := handle _ c w in
      let '(a, w2, trace) := run (k x) w1 in
      (a, w2, Obs c x :: trace)
  end.
End Run.

(** [true] for an observed [execAsync] call. *)
Definition isExec (o : observed) : bool :=
  match o with
  | Obs (ExecAsync _ _) _ => true
  | _ => false
  end.

(** The command line of an observed [execAsync] call. *)
Definition execCommand (o : observed) : option str :=
  match o with
  | Obs (ExecAsync command _) _ => Some command
  | _ => None
  end.

(** [true] for [fs.existsSync], [fs.statSync] and [fs.accessSync]. *)
Definition isFileCheck (o : observed) : bool :=
  match o with
  | Obs (ExistsSync _) _ => true
  | Obs (StatSync _) _ => true
  | Obs (AccessSync _) _ => true
  | _ => false
  end.

End Eff.

(** ** UPicUploader *)

Module Uploader.
Import JS Regex Eff.

(** What the process and the platform provide without a call: constants
    of the run, and the two library functions taken as given. *)
Record Host : Type := mkHost {
  isDesktop : bool;                (* [Platform.isDesktop] *)
  platform : str;                  (* [process.platform] *)
  homedir : str;                   (* [os.homedir()] *)
  username : str;                  (* [os.userInfo().username] *)
  tmpdir : str;                    (* [os.tmpdir()] *)
  envPATH : option str;            (* [process.env.PATH] *)
  pathJoin : str -> str -> str;    (* [path.join] of two segments *)
  toLowerCase : str -> str         (* [String.prototype.toLowerCase] *)
}.

Record PluginSettings : Type := mkSettings {
  upicPath : str;
  showNotifications : bool;
  uploadTimeout : Z
}.

Record UploadResult : Type := mkResult {
  success : bool;
  url : option str;
  error : option str;
  originalPath : str
}.

(** One value of [availabilityCache]. *)
Record cached : Type := mkCached {
  available : bool;
  timestamp : Z
}.

(** The fields of a [UPicUploader] instance. *)
Record UPicUploader : Type := mkUploader {
  settings : PluginSettings;
  detectedUpicPath : option str;
  lastCheckTime : Z;
  availabilityCache : gmap str cached
}.

(** [private cacheTimeout: number = 600000] *)
Definition cacheTimeout : Z := 600000.

(** Methods read and write the instance and make calls. *)
Definition M (A : Type) : Type := UPicUploader -> prog (A * UPicUploader).

Definition ret {A : Type} (a : A) : M A := fun st => Ret (a, st).

Definition mbind {A B : Type} (m : M A) (f : A -> M B) : M B :=
  fun st => bind (m st) (fun r => f (fst r) (snd r)).

Definition lift {A : Type} (p : prog A) : M A :=
  fun st => bind p (fun a => Ret (a, st)).

Definition get : M UPicUploader := fun st => Ret (st, st).

Declare Scope upic_scope.
Notation "'let*' x ':=' m 'in' k" := (mbind m (fun x => k))
  (at level 10, x name, m at level 100, k at level 200) : upic_scope.
Local Open Scope upic_scope.

(** JavaScript truthiness of [string | null]. *)
Definition truthy (o : option str) : bool :=
  match o with
  | Some (_ :: _) => true
  | _ => false
  end.

Definition nonEmpty (s : str) : bool :=
  match s with
  | [] => false
  | _ :: _ => true
  end.

(** A double quote inside a command line. *)
Definition dq : str := [34].

(** *** parseUploadOutput *)

(** The body of [for (const line of lines)]. *)
Fixpoint firstUrlLine (lines : list str) : option str :=
  match lines with
  | [] => None
  | line :: rest =>
      let trimmedLine := trim line in
      if startsWith trimmedLine (js "http://")
         || startsWith trimmedLine (js "https://")
      then Some trimmedLine
      else firstUrlLine rest
  end.

(** The test of that loop, on a line as it stands in the output. *)
Definition isUrlLine (line : str) : bool :=
  startsWith (trim line) (js "http://") || startsWith (trim line) (js "https://").

(** The group [https?:\/\/[^\s]+], flag [g]. *)
Definition urlRegex : regex :=
  Group (Seq (Lit (js "http"))
           (Seq (Opt (Only 115)) (Seq (Lit (js "://")) (Plus NotSpace)))).

Definition parseUploadOutput (output : str) : option str :=
  if negb (nonEmpty output) || negb (nonEmpty (trim output)) then None
  else
    let lines := split (trim output) 10 in
    match firstUrlLine lines with
    | Some trimmedLine => Some trimmedLine
    | None =>
        match matchAll urlRegex output with
        | first :: _ => Some first
        | [] => None
        end
    end.

Section WithHost.
Variable host : Host.

Definition expandPath (path : str) : str :=
  if startsWith path (js "~/") then pathJoin host (homedir host) (sliceFrom path 2)
  else path.

(** *** Availability cache *)

Definition getCachedAvailability (path : str) : M (option bool) :=
  fun st =>
    match availabilityCache st !! path with
    | None => Ret (None, st)
    | Some entry =>
        Do DateNow (fun now =>
          let effectiveTimeout :=
            if available entry then (cacheTimeout * 2)%Z else cacheTimeout in
          if (now - timestamp entry >? effectiveTimeout)%Z then
            Ret (None,
                 {| settings := settings st;
                    detectedUpicPath := detectedUpicPath st;
                    lastCheckTime := lastCheckTime st;
                    availabilityCache := delete path (availabilityCache st) |})
          else Ret (Some (available entry), st))
    end.

Definition setCachedAvailability (path : str) (avail : bool) : M unit :=
  fun st =>
    Do DateNow (fun now =>
      Ret (tt,
           {| settings := settings st;
              detectedUpicPath := detectedUpicPath st;
              lastCheckTime := lastCheckTime st;
              availabilityCache :=
                <[path := {| available := avail; timestamp := now |}]>
                  (availabilityCache st) |})).

(** [cleanExpiredCache], at clock reading [now]: every entry older than
    [cacheTimeout] goes, whatever it says. *)
Definition cleanExpiredCache (now : Z) (st : UPicUploader) : UPicUploader :=
  {| settings := settings st;
     detectedUpicPath := detectedUpicPath st;
     lastCheckTime := lastCheckTime st;
     availabilityCache :=
       filter (fun kv => (now - timestamp (snd kv) <= cacheTimeout)%Z)
         (availabilityCache st) |}.

(** *** Is the tool already running? *)

Definition processCheckCommand : str :=
  if bool_decide (platform host = js "win32") then
    js "tasklist /FI " ++ dq ++ js "IMAGENAME eq uPic.exe" ++ dq
    ++ js " /FO CSV | find /C " ++ dq ++ js "uPic.exe" ++ dq
  else js "pgrep -f " ++ dq ++ js "uPic" ++ dq ++ js " | wc -l".

(** [processCount > 0], where [NaN > 0] is false. *)
Definition positiveCount (processCount : option Z) : bool :=
  match processCount with
  | Some n => (0 <? n)%Z
  | None => false
  end.

Definition isUPicProcessRunning : prog bool :=
  bind (perform (ExecAsync processCheckCommand 3000)) (fun r =>
    match r with
    | Resolved stdout _ => Ret (positiveCount (parseInt (trim stdout)))
    | Rejected _ => Ret false
    end).

(** *** testUPicPath *)

Definition upicKeywords : list str :=
  [js "upic"; js "upload"; js "image uploader";
   js "version"; js "usage:"; js "options:"].

(** The decision of the inner [catch (cmdError)]. *)
Definition isValidUpicError (cmdError : thrown) : bool :=
  match cmdError with
  | ErrorObject message =>
      nonEmpty message
      && (let errorMsg := toLowerCase host message in
          includes errorMsg (js "upic")
          && (includes errorMsg (js "missing required options")
              || includes errorMsg (js "usage")
              || includes errorMsg (js "help")
              || negb (includes errorMsg (js "command not found"))))
  | OtherValue => false
  end.

Definition testCommand (expandedPath flag : str) : str :=
  if includes expandedPath (js " ") then dq ++ expandedPath ++ dq ++ js " " ++ flag
  else expandedPath ++ js " " ++ flag.

(** [for (const flag of testCommands)] and the two statements after it. *)
Fixpoint tryTestCommands (path expandedPath : str) (flags : list str) : M bool :=
  match flags with
  | [] =>
      let* _ := setCachedAvailability path false in
      ret false
  | flag :: rest =>
      let* r := lift (perform (ExecAsync (testCommand expandedPath flag) 3000)) in
      match r with
      | Resolved stdout stderr =>
          let output := toLowerCase host (stdout ++ stderr) in
          let hasUpicKeyword := existsb (fun keyword => includes output keyword) upicKeywords in
          if hasUpicKeyword then
            let* _ := setCachedAvailability path true in
            ret true
          else tryTestCommands path expandedPath rest
      | Rejected cmdError =>
          if isValidUpicError cmdError then
            let* _ := setCachedAvailability path true in
            ret true
          else tryTestCommands path expandedPath rest
      end
  end.

Definition testCommands : list str := [js "--version"; js "--help"].

(** The two [if (expandedPath.includes('/'))] statements of the source
    are taken together: a missing file, a path that is no file, and a
    throw of [statSync] or [accessSync] each cache [false] and return
    [false].  The outer [catch] is out of reach: every call that can throw
    inside the outer [try] sits in an inner [try]. *)
Definition testUPicPath (path : str) : M bool :=
  if negb (nonEmpty path) then ret false
  else
    let* cachedResult := getCachedAvailability path in
    match cachedResult with
    | Some result => ret result
    | None =>
        let* isRunning := lift isUPicProcessRunning in
        if isRunning : bool then
          let* _ := setCachedAvailability path true in
          ret true
        else
          let expandedPath := expandPath path in
          let reject : M bool :=
            let* _ := setCachedAvailability path false in
            ret false in
          if includes expandedPath (js "/") then
            let* present := lift (perform (ExistsSync expandedPath)) in
            if negb present then reject
            else
              let* stats := lift (perform (StatSync expandedPath)) in
              match stats with
              | inl _ => reject
              | inr isFile =>
                  if negb isFile then reject
                  else
                    let* access := lift (perform (AccessSync expandedPath)) in
                    match access with
                    | Some _ => reject
                    | None => tryTestCommands path expandedPath testCommands
                    end
              end
          else tryTestCommands path expandedPath testCommands
    end.

(** *** detectUPicPath *)

Definition commonPaths : list str :=
  [ js "/Applications/uPic.app/Contents/MacOS/uPic";
    js "/Applications/uPic.app/Contents/Resources/uPic";
    js "/System/Applications/uPic.app/Contents/MacOS/uPic";
    js "/usr/local/bin/upic";
    js "/opt/homebrew/bin/upic";
    js "/usr/bin/upic";
    js "/opt/local/bin/upic";
    js "~/Applications/uPic.app/Contents/MacOS/uPic";
    js "/Users/" ++ username host ++ js "/Applications/uPic.app/Contents/MacOS/uPic" ].

Definition pathCommands : list str :=
  [js "which upic"; js "whereis upic"; js "type -p upic"].

(** The user-configured path, when one is set. *)
Definition detectConfigured : M (option str) :=
  let* st := get in
  let configured := upicPath (settings st) in
  if nonEmpty configured && nonEmpty (trim configured) then
    let expandedPath := expandPath configured in
    let* ok := testUPicPath expandedPath in
    if ok : bool then ret (Some expandedPath) else ret None
  else ret None.

(** [for (const path of commonPaths)] *)
Fixpoint detectCommon (paths : list str) : M (option str) :=
  match paths with
  | [] => ret None
  | path :: rest =>
      let expandedPath := expandPath path in
      let* ok := testUPicPath expandedPath in
      if ok : bool then ret (Some expandedPath) else detectCommon rest
  end.

(** [stdout.trim().split('\n')[0]] *)
Definition firstResult (stdout : str) : str :=
  match split (trim stdout) 10 with
  | first :: _ => first
  | [] => []
  end.

(** [for (const cmd of pathCommands)] *)
Fixpoint detectLookup (cmds : list str) : M (option str) :=
  match cmds with
  | [] => ret None
  | cmd :: rest =>
      let* r := lift (perform (ExecAsync cmd 5000)) in
      match r with
      | Resolved stdout _ =>
          let detectedPath := firstResult stdout in
          if nonEmpty detectedPath
             && negb (bool_decide (detectedPath = js "upic not found")) then
            let* ok := testUPicPath detectedPath in
            if ok : bool then ret (Some detectedPath) else detectLookup rest
          else detectLookup rest
      | Rejected _ => detectLookup rest
      end
  end.

(** [pathEnv.split(':').filter(dir => dir.trim())] *)
Definition pathDirs : list str :=
  let pathEnv :=
    match envPATH host with
    | Some (c :: v) => c :: v
    | _ => []
    end in
  List.filter (fun dir => nonEmpty (trim dir)) (split pathEnv 58).

(** [for (const dir of pathDirs)] *)
Fixpoint detectInPath (dirs : list str) : M (option str) :=
  match dirs with
  | [] => ret None
  | dir :: rest =>
      let upicPath := pathJoin host dir (js "upic") in
      let* ok := testUPicPath upicPath in
      if ok : bool then ret (Some upicPath) else detectInPath rest
  end.

Definition detectUPicPath : M (list str) :=
  let* configured := detectConfigured in
  match configured with
  | Some expandedPath => ret [expandedPath]
  | None =>
      let* common := detectCommon commonPaths in
      match common with
      | Some expandedPath => ret [expandedPath]
      | None =>
          let* looked := detectLookup pathCommands in
          match looked with
          | Some detectedPath => ret [detectedPath]
          | None =>
              let* found := detectInPath pathDirs in
              match found with
              | Some upicPath => ret [upicPath]
              | None => ret []
              end
          end
      end
  end.

(** *** getAvailableUPicPath *)

Definition setDetectedUpicPath (path : str) : M unit :=
  fun st =>
    Ret (tt,
         {| settings := settings st;
            detectedUpicPath := Some path;
            lastCheckTime := lastCheckTime st;
            availabilityCache := availabilityCache st |}).

(** [for (const path of detectedPaths)] *)
Fixpoint firstValid (detectedPaths : list str) : M (option str) :=
  match detectedPaths with
  | [] => ret None
  | path :: rest =>
      let* isValid := testUPicPath path in
      if isValid : bool then
        let* _ := setDetectedUpicPath path in
        ret (Some path)
      else firstValid rest
  end.

Definition getAvailableUPicPath : M (option str) :=
  let* st := get in
  if truthy (detectedUpicPath st) then ret (detectedUpicPath st)
  else
    let* detectedPaths := detectUPicPath in
    firstValid detectedPaths.

(** *** Discovery as the specification words it

    The specification lists four sources of candidates and says that
    the first candidate that tests positive is returned.  The
    definitions below follow those words and use none of the helpers of
    [detectUPicPath]: each source is written out again from its
    description, then the sources are put in order and one loop runs over
    them. *)

(** A configured path is set when it holds a character that is not white
    space. *)
Definition isSet (configured : str) : bool :=
  existsb (fun c => negb (isWhiteSpace c)) configured.

(** [~] expansion: a leading [~/] stands for the home directory. *)
Definition tildeExpanded (path : str) : str :=
  match path with
  | tilde :: slash :: rest =>
      if (tilde =? 126) && (slash =? 47) then pathJoin host (homedir host) rest
      else path
  | _ => path
  end.

(** The well-known installation locations, in order: the application
    bundle, the system and package-manager directories, the bundle in the
    user's own [Applications]. *)
Definition wellKnownLocations : list str :=
  [ js "/Applications/uPic.app/Contents/MacOS/uPic";
    js "/Applications/uPic.app/Contents/Resources/uPic";
    js "/System/Applications/uPic.app/Contents/MacOS/uPic";
    js "/usr/local/bin/upic";
    js "/opt/homebrew/bin/upic";
    js "/usr/bin/upic";
    js "/opt/local/bin/upic";
    pathJoin host (homedir host) (js "Applications/uPic.app/Contents/MacOS/uPic");
    js "/Users/" ++ username host ++ js "/Applications/uPic.app/Contents/MacOS/uPic" ].

(** The lookup commands of the operating system. *)
Definition lookupCommands : list str :=
  [js "which upic"; js "whereis upic"; js "type -p upic"].

(** The first result of a lookup: the first line of what it printed,
    white space around the output aside. *)
Fixpoint upToLineEnd (s : str) : str :=
  match s with
  | [] => []
  | c :: rest => if c =? 10 then [] else c :: upToLineEnd rest
  end.

Definition firstLine (stdout : str) : str := upToLineEnd (trim stdout).

(** The entries of a search path: the stretches between its colons,
    [entry] being the stretch read so far. *)
Fixpoint searchPathEntries (entry value : str) : list str :=
  match value with
  | [] => [entry]
  | c :: rest =>
      if c =? 58 then entry :: searchPathEntries [] rest
      else searchPathEntries (entry ++ [c]) rest
  end.

(** The directories of [PATH]: its entries that name something. *)
Definition searchPathDirectories : list str :=
  match envPATH host with
  | None => []
  | Some value => List.filter isSet (searchPathEntries [] value)
  end.

Inductive source : Type :=
| Candidate (path : str)       (* a path to test as it is *)
| Lookup (command : str).      (* a lookup command whose first result is tested *)

Definition discoveryOrder (st : UPicUploader) : list source :=
  (let configured := upicPath (settings st) in
   if isSet configured then [Candidate (tildeExpanded configured)] else [])
  ++ map Candidate wellKnownLocations
  ++ map Lookup lookupCommands
  ++ map (fun dir => Candidate (pathJoin host dir (js "upic"))) searchPathDirectories.

(** One source: its candidate when it has one and the candidate tests
    positive.  A lookup that prints nothing, or the shell's own
    [upic not found], has no candidate. *)
Definition probe (s : source) : M (option str) :=
  match s with
  | Candidate path =>
      let* ok := testUPicPath path in
      ret (if ok : bool then Some path else None)
  | Lookup command =>
      let* r := lift (perform (ExecAsync command 5000)) in
      match r with
      | Resolved stdout _ =>
          match firstLine stdout with
          | [] => ret None
          | result =>
              if bool_decide (result = js "upic not found") then ret None
              else
                let* ok := testUPicPath result in
                ret (if ok : bool then Some result else None)
          end
      | Rejected _ => ret None
      end
  end.

(** The sources in order, up to the first positive one. *)
Fixpoint firstPositive (sources : list source) : M (list str) :=
  match sources with
  | [] => ret []
  | s :: rest =>
      let* found := probe s in
      match found with
      | Some path => ret [path]
      | None => firstPositive rest
      end
  end.

(** *** checkUPicAvailability *)

Record availability : Type := mkAvailability {
  avail_available : bool;
  avail_path : option str;
  avail_message : str
}.

Definition notFoundMessage : str :=
  js "uPic not found. Please install uPic or check the path in settings.".

Definition setLastCheckTime (now : Z) : M unit :=
  fun st =>
    Ret (tt,
         {| settings := settings st;
            detectedUpicPath := detectedUpicPath st;
            lastCheckTime := now;
            availabilityCache := availabilityCache st |}).

Definition describe (path : option str) : availability :=
  match path with
  | Some (c :: p) =>
      {| avail_available := true;
         avail_path := Some (c :: p);
         avail_message := js "uPic is available at: " ++ c :: p |}
  | _ =>
      {| avail_available := false;
         avail_path := None;
         avail_message := notFoundMessage |}
  end.

Definition checkUPicAvailability : M availability :=
  let* now := lift (perform DateNow) in
  let* st := get in
  if (lastCheckTime st >? 0)%Z && (now - lastCheckTime st <? 5000)%Z then
    ret (describe (detectedUpicPath st))
  else
    let* path := getAvailableUPicPath in
    let* _ := setLastCheckTime now in
    ret (describe path).

(** *** uploadFile *)

Definition failure (filePath message : str) : UploadResult :=
  {| success := false; url := None; error := Some message;
     originalPath := filePath |}.

Definition uploadCommand (availableUpicPath filePath : str) : str :=
  if includes availableUpicPath (js " ") then
    dq ++ availableUpicPath ++ dq ++ js " -u " ++ dq ++ filePath ++ dq ++ js " -o url"
  else availableUpicPath ++ js " -u " ++ dq ++ filePath ++ dq ++ js " -o url".

Definition notAvailableMessage (message : str) : str :=
  js "uPic is not available. "
  ++ (if nonEmpty message then message else js "Please check the path in settings.")
  ++ [10; 10] ++ js "Troubleshooting:" ++ [10]
  ++ js "1. Make sure uPic is installed" ++ [10]
  ++ js "2. Check if uPic path is correct in settings" ++ [10]
  ++ js "3. Try running uPic manually to verify it works".

Definition notify (message : str) : M unit :=
  let* st := get in
  if showNotifications (settings st) then lift (perform (NewNotice message))
  else ret tt.

(** The [try] block; [inl] is a throw that reaches the [catch]. *)
Definition uploadFile_try (filePath : str) : M (thrown + UploadResult) :=
  let* availableUpicPath := getAvailableUPicPath in
  match availableUpicPath with
  | Some (c :: p) =>
      let availableUpicPath := c :: p in
      let* _ := notify (js "Uploading image via uPic...") in
      let command := uploadCommand availableUpicPath filePath in
      let* st := get in
      let* r := lift (perform (ExecAsync command (uploadTimeout (settings st) * 1000)%Z)) in
      match r with
      | Rejected e => ret (inl e)
      | Resolved stdout stderr =>
          let url := parseUploadOutput stdout in
          if negb (truthy url) then
            ret (inr (failure filePath (js "Failed to parse upload URL from uPic output")))
          else
            let* _ := notify (js "Image uploaded successfully!") in
            ret (inr {| success := true; url := url; error := None;
                        originalPath := filePath |})
      end
  | _ =>
      let* availabilityResult := checkUPicAvailability in
      ret (inr (failure filePath (notAvailableMessage (avail_message availabilityResult))))
  end.

(** The message chosen at the top of the [catch] block. *)
Definition uploadErrorMessage (e : thrown) : str :=
  match e with
  | ErrorObject message =>
      if includes message (js "timeout") then
        js "Upload timeout - please check your network connection"
      else if includes message (js "ENOENT") then
        js "uPic application not found - please check the path in settings"
      else message
  | OtherValue => js "Unknown upload error"
  end.

Definition uploadFile_catch (filePath : str) (e : thrown) : M UploadResult :=
  let errorMessage := uploadErrorMessage e in
  let* _ := notify (js "Upload failed: " ++ errorMessage) in
  ret (failure filePath errorMessage).

Definition uploadFile (filePath : str) : M UploadResult :=
  if negb (isDesktop host) then
    ret (failure filePath (js "File upload is only available on desktop platforms"))
  else
    let* r := uploadFile_try filePath in
    match r with
    | inr result => ret result
    | inl e => uploadFile_catch filePath e
    end.

(** *** What a world shows at a given moment *)

Section Moments.
Context {W : Type} (handle : forall X : Type, call X -> W -> X * W).

(** The process check, made in world [w], counts at least one
    process. *)
Definition findsRunning (w : W) : bool :=
  match fst (handle _ (ExecAsync processCheckCommand 3000) w) with
  | Resolved stdout _ => positiveCount (parseInt (trim stdout))
  | Rejected _ => false
  end.

(** The cache holds an entry for [path] that says unavailable and is
    not older than [cacheTimeout] by the clock of [w]. *)
Definition freshNegative (w : W) (st : UPicUploader) (path : str) : bool :=
  match availabilityCache st !! path with
  | Some entry =>
      negb (available entry)
      && (fst (handle _ DateNow w) - timestamp entry <=? cacheTimeout)%Z
  | None => false
  end.
(** The world in which [testUPicPath] makes its process check: for a
    path with a cache entry the clock has been read before. *)
Definition atProcessCheck (w : W) (st : UPicUploader) (path : str) : W :=
  match availabilityCache st !! path with
  | Some _ => snd (handle _ DateNow w)
  | None => w
  end.
End Moments.
End WithHost.

(** [updateSettings]: the new settings, and every cache dropped. *)
Definition updateSettings (newSettings : PluginSettings) (st : UPicUploader)
    : UPicUploader :=
  {| settings := newSettings;
     detectedUpicPath := None;
     lastCheckTime := 0;
     availabilityCache := ∅ |}.

(** A fresh instance. *)
Definition newUploader (s : PluginSettings) : UPicUploader :=
  {| settings := s;
     detectedUpicPath := None;
     lastCheckTime := 0;
     availabilityCache := ∅ |}.

End Uploader.

(** ** Staging *)

Module Staging.
Import JS Eff Uploader.

Section WithHost.
Variable host : Host.

(** [createTempFile]; [inl] is a throw that leaves the function.  The
    bytes come from [await file.arrayBuffer()], which stands outside every
    [try]: its rejection leaves the function before any file call. *)
Definition createTempFile (file : File) : prog (thrown + str) :=
  if negb (isDesktop host) then
    Ret (inl (ErrorObject (js "Temporary file creation is only available on desktop")))
  else
    bind (perform (ArrayBuffer file)) (fun buffer =>
      match buffer with
      | inl e => Ret (inl e)
      | inr uint8Array =>
          let tempDir := tmpdir host in
          let fileName := file_name file in
          let tempFilePath := pathJoin host tempDir fileName in
          bind (perform (FsAccess tempFilePath)) (fun present =>
            bind
              (if present : bool then
                 let dot := lastIndexOf fileName 46 in
                 let nameWithoutExt := substring fileName 0 dot in
                 let extension := substringFrom fileName dot in
                 bind (perform DateNow) (fun now =>
                   let fileName := nameWithoutExt ++ js "_" ++ showZ now ++ extension in
                   Ret (fileName, pathJoin host tempDir fileName))
               else Ret (fileName, tempFilePath))
              (fun '(fileName, tempFilePath) =>
                 bind (perform (WriteFile tempFilePath uint8Array)) (fun failed =>
                   match failed with
                   | Some e => Ret (inl e)
                   | None => Ret (inr tempFilePath)
                   end)))
      end).
End WithHost.

End Staging.

(** ** A scripted world

    A concrete host and concrete worlds, to run the programs above on
    closed inputs. *)

Module Example.
Import JS Eff Uploader.

(** Lower-casing of the ASCII letters. *)
Definition asciiLower (s : str) : str :=
  map (fun c => if (65 <=? c) && (c <=? 90) then c + 32 else c) s.

(** Two already normal segments joined with a slash. *)
Definition joinTwo (a b : str) : str := a ++ js "/" ++ b.

Definition host : Host :=
  {| isDesktop := true;
     platform := js "darwin";
     homedir := js "/Users/me";
     username := js "me";
     tmpdir := js "/tmp";
     envPATH := Some (js "/usr/local/bin:/usr/bin");
     pathJoin := joinTwo;
     toLowerCase := asciiLower |}.

(** What stays fixed while a program runs: the clock, whether the tool's
    process is up, where a working tool is installed, which files the temp
    directory holds at the start, and how an upload command ends. *)
Record script : Type := mkScript {
  clock : Z;
  upicRunning : bool;
  installedAt : option str;
  tmpFiles : list str;
  uploadOutcome : execOutcome
}.

(** What changes: the files written so far, oldest first. *)
Definition journal : Type := list (str * list Byte.byte).

Definition installedHere (s : script) (path : str) : bool :=
  match installedAt s with
  | Some p => bool_decide (p = path)
  | None => false
  end.

Definition answerExec (s : script) (command : str) : execOutcome :=
  if bool_decide (command = processCheckCommand host) then
    Resolved (if upicRunning s then js "1" ++ [10] else js "0" ++ [10]) []
  else if endsWith command (js " -o url") then uploadOutcome s
  else
    match installedAt s with
    | Some p =>
        if bool_decide (command = testCommand p (js "--version")) then
          Resolved (js "uPic 0.21.1") []
        else Rejected (ErrorObject (js "Command failed: " ++ command))
    | None => Rejected (ErrorObject (js "Command failed: " ++ command))
    end.

Definition handle (s : script) (X : Type) (c : call X) (j : journal)
    : X * journal :=
  match c in call T return T * journal with
  | DateNow => (clock s, j)
  | ExecAsync command _ => (answerExec s command, j)
  | ExistsSync path => (installedHere s path, j)
  | StatSync path => (inr true, j)
  | AccessSync path => (None, j)
  | FsAccess path =>
      (bool_decide (path ∈ tmpFiles s) || bool_decide (path ∈ map fst j), j)
  | ArrayBuffer file => (inr (file_bytes file), j)
  | WriteFile path data => (None, j ++ [(path, data)])
  | NewNotice _ => (tt, j)
  end.

(** Nothing installed, nothing running, an empty temp directory. *)
Definition bare (now : Z) : script :=
  {| clock := now;
     upicRunning := false;
     installedAt := None;
     tmpFiles := [];
     uploadOutcome := Resolved [] [] |}.

(** The same with the tool's process up. *)
Definition running (now : Z) : script :=
  {| clock := now;
     upicRunning := true;
     installedAt := None;
     tmpFiles := [];
     uploadOutcome := Resolved [] [] |}.

(** The tool works at [/usr/local/bin/upic]; an upload ends as given. *)
Definition installed (now : Z) (outcome : execOutcome) : script :=
  {| clock := now;
     upicRunning := false;
     installedAt := Some (js "/usr/local/bin/upic");
     tmpFiles := [];
     uploadOutcome := outcome |}.

(** The temp directory already holds [names]. *)
Definition withTmpFiles (now : Z) (names : list str) : script :=
  {| clock := now;
     upicRunning := false;
     installedAt := None;
     tmpFiles := map (joinTwo (js "/tmp")) names;
     uploadOutcome := Resolved [] [] |}.

Definition defaultSettings : PluginSettings :=
  {| upicPath := []; showNotifications := true; uploadTimeout := 30 |}.

(** The tool works at [path] and nowhere else. *)
Definition installedAtPath (path : str) : script :=
  {| clock := 0;
     upicRunning := false;
     installedAt := Some path;
     tmpFiles := [];
     uploadOutcome := Resolved [] [] |}.

(** The world of [s] where one more command has an answer of its own. *)
Definition answering (command : str) (outcome : execOutcome) (s : script)
    (X : Type) (c : call X) (j : journal) : X * journal :=
  match c in call T return T * journal -> T * journal with
  | ExecAsync cmd _ =>
      fun otherwise =>
        if bool_decide (cmd = command) then (outcome, j) else otherwise
  | _ => fun otherwise => otherwise
  end (handle s X c j).

(** A machine whose [PATH] has a directory of its own, an empty entry and
    a blank one. *)
Definition hostWithTools : Host :=
  {| isDesktop := true;
     platform := js "darwin";
     homedir := js "/Users/me";
     username := js "me";
     tmpdir := js "/tmp";
     envPATH := Some (js "/usr/sbin:: :/opt/tools/bin:/sbin");
     pathJoin := joinTwo;
     toLowerCase := asciiLower |}.

End Example.

(** ** The rest of [UPicUploader] *)

Module UploaderRest.
Import JS Regex Eff Uploader.
Local Open Scope upic_scope.

Section WithHost.
Variable host : Host.

(** [uploadFiles]: one [uploadFile] per path, the results pushed in
    order; a failed upload is logged and the loop goes on. *)
Fixpoint uploadFiles (filePaths : list str) : M (list UploadResult) :=
  match filePaths with
  | [] => ret []
  | filePath :: rest =>
      let* result := uploadFile host filePath in
      let* results := uploadFiles rest in
      ret (result :: results)
  end.

(** [isImageFile(filePath)]; [supportedFormats] is the field of the
    settings it reads.  [split] never returns the empty array, so [pop()]
    is a string and [?.] calls [toLowerCase]. *)
Definition isImageFile (supportedFormats : list str) (filePath : str) : bool :=
  let extension :=
    match last (split filePath 46) with
    | Some popped => toLowerCase host popped
    | None => []
    end in
  if nonEmpty extension then bool_decide (extension ∈ supportedFormats)
  else false.

(** [private checkInterval: number = 60000] *)
Definition checkInterval : Z := 60000.

(** [this.checkInterval * 0.8]: the product of the doubles [60000] and
    [0.8] rounds to [48000] exactly. *)
Definition quietWindow : Z := 48000.

(** [cleanExpiredCache()]: the clock is read once, then the entries are
    walked. *)
Definition cleanExpiredCacheNow : M unit :=
  let* now := lift (perform DateNow) in
  fun st => Ret (tt, cleanExpiredCache now st).

(** [performPeriodicCheck]; nothing inside its [try] throws, every call
    that can fail is caught further in. *)
Definition performPeriodicCheck : M unit :=
  let* now := lift (perform DateNow) in
  let* st := get in
  if (now - lastCheckTime st <? quietWindow)%Z then ret tt
  else
    let* isRunning := lift (isUPicProcessRunning host) in
    if isRunning : bool then setLastCheckTime now
    else
      let* st := get in
      let* useCache :=
        match detectedUpicPath st with
        | Some (c :: p) =>
            if (0 <? Z.of_nat (size (availabilityCache st)))%Z then
              let* cachedResult := getCachedAvailability (c :: p) in
              ret (match cachedResult with Some _ => true | None => false end)
            else ret false
        | _ => ret false
        end in
      if useCache : bool then ret tt
      else
        let* _ := checkUPicAvailability host in
        let* _ := setLastCheckTime now in
        cleanExpiredCacheNow.

End WithHost.

End UploaderRest.

(** ** Pattern texts and the [RegExp] constructor

    [new RegExp(text, 'g')] parses [text] before anything is matched and
    throws a [SyntaxError] when it is no pattern.  The texts of the
    sources are built by templates around an escaped name. *)

Module PatternText.
Import JS Regex.

(** A closing parenthesis outside a character class that closes no
    group.  [depth] counts the groups open at this point; a backslash
    takes the next character with it; inside a class only the closing
    bracket counts. *)
Fixpoint unmatchedParen_from (depth : nat) (inClass : bool) (src : str) : bool :=
  match src with
  | [] => false
  | c :: rest =>
      if c =? 92 then
        match rest with
        | [] => false
        | _ :: rest' => unmatchedParen_from depth inClass rest'
        end
      else if inClass then unmatchedParen_from depth (negb (c =? 93)) rest
      else if c =? 91 then unmatchedParen_from depth true rest
      else if c =? 40 then unmatchedParen_from (S depth) false rest
      else if c =? 41 then
        match depth with
        | O => true
        | S d => unmatchedParen_from d false rest
        end
      else unmatchedParen_from depth false rest
  end.

Definition unmatchedParen (src : str) : bool := unmatchedParen_from 0 false src.

(** The SyntaxCharacter of the ECMAScript pattern grammar,
    [^ $ \ . * + ? ( ) [ ] { } |]: the characters that stand for something
    other than themselves in a pattern. *)
Definition SyntaxCharacter (c : N) : bool :=
  bool_decide (c ∈ [94; 36; 92; 46; 42; 43; 63; 40; 41; 91; 93; 123; 125; 124]).

(** A pattern text in which nothing has a meaning of its own: every
    backslash is the identity escape of a SyntaxCharacter, and no
    SyntaxCharacter stands bare. *)
Fixpoint onlyLiteral (src : str) : bool :=
  match src with
  | [] => true
  | c :: rest =>
      if c =? 92 then
        match rest with
        | [] => false
        | c' :: rest' => SyntaxCharacter c' && onlyLiteral rest'
        end
      else negb (SyntaxCharacter c) && onlyLiteral rest
  end.

(** The constructor: the [SyntaxError] for an unmatched parenthesis is
    [None]; for any other text the caller names the pattern it stands
    for. *)
Definition RegExp_new (text : str) (denotes : regex) : option regex :=
  if unmatchedParen text then None else Some denotes.

(** The text in front of the target: an exclamation mark, an escaped
    bracket, a group around a negated class with a star, an escaped
    bracket and an escaped parenthesis. *)
Definition anyAltOpenText : str := js "!\[([^\]]*" ++ js ")\]\(".

(** The template of the exact target: the opening, the escaped path and
    an escaped closing parenthesis. *)
Definition exactPathText (escapedPath : str) : str :=
  anyAltOpenText ++ escapedPath ++ js "\)".

(** The template of the loose pattern: the opening, a negated class with
    a star, the escaped file name, the same class again, and a closing
    parenthesis without a backslash. *)
Definition looseText (escapedFileName : str) : str :=
  anyAltOpenText ++ js "[^\)]*" ++ escapedFileName ++ js "[^\)]*" ++ js ")".

(** The same with a word boundary on each side of the name. *)
Definition looseWordText (escapedFileName : str) : str :=
  anyAltOpenText ++ js "[^\)]*" ++ js "\b" ++ escapedFileName ++ js "\b"
  ++ js "[^\)]*" ++ js ")".

(** The template of an embed: two escaped opening brackets after the
    exclamation mark, the escaped content, two escaped closing
    brackets. *)
Definition bracketText (escapedBracketContent : str) : str :=
  js "!\[\[" ++ escapedBracketContent ++ js "\]\]".

End PatternText.

(** ** The patchers

    Each [new RegExp] goes through [RegExp_new] on the text the template
    builds, with the pattern of [Patcher] the text stands for when it is
    one; a throw goes where the source sends it: to the [catch] of the
    function, which returns [false]. *)

Module PatcherRest.
Import JS Regex Patcher PatternText.

(** *** First revision of [replaceImageLinkInDocument]

    The whole body sits in a [try]; its [catch] returns [false]. *)

Module V1.

Definition replaceImageLinkInDocument (editor : Editor)
    (oldPath newUrl fileName : str) : bool * Editor :=
  let content := getValue editor in
  let replacement := imageLink fileName newUrl in
  let exactMatch := imageLink fileName oldPath in
  if includes content exactMatch then
    let newContent := replaceString content exactMatch replacement in
    (true, setValue editor newContent)
  else
  match RegExp_new (looseText (escapeRegExp fileName))
          (anyAltPathContaining fileName) with
  | None => (false, editor)
  | Some fileNameRegex =>
  let flexibleContent := replaceAll fileNameRegex content replacement in
  if negb (bool_decide (flexibleContent = content)) then
    (true, setValue editor flexibleContent)
  else
  let escapedPath := escapeRegExp oldPath in
  match RegExp_new (exactPathText escapedPath) (anyAltExactPath oldPath) with
  | None => (false, editor)
  | Some pathRegex =>
  let pathContent := replaceAll pathRegex content replacement in
  if negb (bool_decide (pathContent = content)) then
    (true, setValue editor pathContent)
  else
  match RegExp_new (looseWordText (escapeRegExp fileName))
          (anyAltPathContainingWord fileName) with
  | None => (false, editor)
  | Some looseRegex =>
  let looseContent := replaceAll looseRegex content replacement in
  if negb (bool_decide (looseContent = content)) then
    (true, setValue editor looseContent)
  else (false, editor)
  end
  end
  end.

(** What the four attempts search for: the exact link as text, then
    three pattern texts with what each stands for. *)
Inductive probe : Type :=
| Text (pattern : str)
| Pattern (text : str) (denotes : regex).

Definition probes (oldPath fileName : str) : list probe :=
  [ Text (imageLink fileName oldPath);
    Pattern (looseText (escapeRegExp fileName)) (anyAltPathContaining fileName);
    Pattern (exactPathText (escapeRegExp oldPath)) (anyAltExactPath oldPath);
    Pattern (looseWordText (escapeRegExp fileName))
      (anyAltPathContainingWord fileName) ].

(** A probe finds something: the text occurs, or the pattern can be
    constructed and matches somewhere. *)
Definition occurs (p : probe) (content : str) : bool :=
  match p with
  | Text t => includes content t
  | Pattern text denotes =>
      match RegExp_new text denotes with
      | Some regex => test regex content
      | None => false
      end
  end.

End V1.

(** *** Second revision of [replaceImageLinkInDocument] *)

Module V2.

(** One entry of [generateReplacementPatterns]: [pattern] is text; for
    an entry with [isRegex] the pattern the text stands for rides
    along. *)
Inductive pattern : Type :=
| StringPattern (pattern replacement : str)
| RegexPattern (pattern : str) (denotes : regex) (replacement : str).

Definition generateReplacementPatterns (pathVariant fileName newUrl : str)
    : list pattern :=
  if startsWith pathVariant (js "![[") && endsWith pathVariant (js "]]") then
    let bracketContent := sliceBetween pathVariant 3 2 in
    let escapedBracketContent := escapeRegExp bracketContent in
    let replacement := imageLink (Patcher.V2.fileNameWithoutExt fileName) newUrl in
    [ StringPattern pathVariant replacement;
      RegexPattern (bracketText escapedBracketContent)
        (Seq (Lit (js "![[")) (Seq (escaped bracketContent) (Lit (js "]]"))))
        replacement ]
  else
    let escapedPath := escapeRegExp pathVariant in
    let escapedFileName := escapeRegExp fileName in
    let replacement := imageLink fileName newUrl in
    [ StringPattern (imageLink fileName pathVariant) replacement;
      RegexPattern (exactPathText escapedPath) (anyAltExactPath pathVariant)
        replacement ]
    ++ (if negb (bool_decide (pathVariant = fileName)) then
          [ RegexPattern (looseText escapedFileName)
              (anyAltPathContaining fileName) replacement ]
        else []).

(** How the loops end. *)
Inductive attempt : Type :=
| Replaced (newContent : str)   (* [replaced = true], then [break] *)
| NoMatch                       (* the loop ran to its end *)
| SyntaxError.                  (* a constructor threw *)

Fixpoint tryPatterns (patterns : list pattern) (newContent : str) : attempt :=
  match patterns with
  | [] => NoMatch
  | RegexPattern text denotes replacement :: rest =>
      match RegExp_new text denotes with
      | None => SyntaxError
      | Some regex =>
          let result := replaceAll regex newContent replacement in
          if negb (bool_decide (result = newContent)) then Replaced result
          else tryPatterns rest newContent
      end
  | StringPattern p replacement :: rest =>
      if includes newContent p then
        match RegExp_new (escapeRegExp p) (escaped p) with
        | None => SyntaxError
        | Some regex => Replaced (replaceAll regex newContent replacement)
        end
      else tryPatterns rest newContent
  end.

Fixpoint tryVariants (variants : list str) (fileName newUrl newContent : str)
    : attempt :=
  match variants with
  | [] => NoMatch
  | variant :: rest =>
      match tryPatterns (generateReplacementPatterns variant fileName newUrl)
              newContent with
      | NoMatch => tryVariants rest fileName newUrl newContent
      | ended => ended
      end
  end.

Definition replaceImageLinkInDocument (editor : Editor)
    (oldPath newUrl fileName : str) : bool * Editor :=
  let content := getValue editor in
  let pathVariants := Patcher.V2.generatePathVariants fileName oldPath in
  match tryVariants pathVariants fileName newUrl content with
  | Replaced newContent => (true, setValue editor newContent)
  | NoMatch => (false, editor)
  | SyntaxError => (false, editor)
  end.

(** Every pattern the loops can come to, in the order they are tried. *)
Definition allPatterns (oldPath newUrl fileName : str) : list pattern :=
  flat_map (fun variant => generateReplacementPatterns variant fileName newUrl)
    (Patcher.V2.generatePathVariants fileName oldPath).

(** A pattern finds something: the text occurs, or the pattern can be
    constructed and matches somewhere. *)
Definition occurs (p : pattern) (content : str) : bool :=
  match p with
  | StringPattern t _ => includes content t
  | RegexPattern text denotes _ =>
      match RegExp_new text denotes with
      | Some regex => test regex content
      | None => false
      end
  end.

End V2.

(** *** [replaceAllImageLinksInDocument] *)

(** The fields of a [TFile] the patcher reads. *)
Record TFile : Type := mkTFile {
  tfile_name : str;
  tfile_path : str
}.

(** [`![[${target}]]`] *)
Definition embed (target : str) : str := js "![[" ++ target ++ js "]]".

(** [s.replace(/\s+/g, '%20')]: every maximal run of white space becomes
    one [%20]. *)
Fixpoint replaceSpaceRuns (inRun : bool) (s : str) : str :=
  match s with
  | [] => []
  | c :: s' =>
      if isWhiteSpace c then
        if inRun then replaceSpaceRuns true s'
        else js "%20" ++ replaceSpaceRuns true s'
      else c :: replaceSpaceRuns false s'
  end.

Definition spacesToPercent20 (s : str) : str := replaceSpaceRuns false s.

Definition commonFolders : list str :=
  [js "attachments"; js "assets"; js "images"; js "files"; js "media"].

(** [pathParts.slice(i).join('/')] for [i = 0 .. pathParts.length - 2]. *)
Definition partialPaths (pathParts : list str) : list str :=
  map (fun i => join (drop i pathParts) (js "/")) (seq 0 (length pathParts - 1)).

Section References.
(** [encodeURIComponent]; [None] is its [URIError]. *)
Variable encodeURIComponent : str -> option str.

(** [generateAllPossibleImageReferences]: the additions to the set in
    the order of the source; [None] when [encodeURIComponent] throws. *)
Definition generateAllPossibleImageReferences (file : TFile) : option (list str) :=
  let fileName := tfile_name file in
  let filePath := tfile_path file in
  let fileNameWithoutExt := Patcher.V2.fileNameWithoutExt fileName in
  match encodeURIComponent fileName with
  | None => None
  | Some encoded =>
      Some
        (fold_left Patcher.V2.setAdd
           ([fileName; filePath; js "./" ++ fileName; js "./" ++ filePath;
             encoded; spacesToPercent20 fileName]
            ++ (if includes filePath (js "/") then
                  flat_map
                    (fun partialPath => [partialPath; js "./" ++ partialPath])
                    (partialPaths (split filePath 47))
                else [])
            ++ flat_map
                 (fun folder =>
                    [folder ++ js "/" ++ fileName;
                     js "./" ++ folder ++ js "/" ++ fileName])
                 commonFolders
            ++ (if startsWith filePath (js "attachments/")
                   || includes filePath (js "/attachments/")
                then [fileName] else [])
            ++ [embed fileName; embed filePath; embed fileNameWithoutExt]
            ++ (if includes filePath (js "/") then
                  map embed (partialPaths (split filePath 47))
                else [])
            ++ map (fun folder => embed (folder ++ js "/" ++ fileName))
                 commonFolders)
           [])
  end.

(** One entry of [matchPatterns]: a string or a constructed pattern. *)
Inductive matchPattern : Type :=
| MatchText (text : str)
| MatchRegex (regex : regex).

(** The array literal [matchPatterns]: its elements are evaluated from
    left to right, the two constructors last. *)
Definition matchPatterns (fileName reference : str) : option (list matchPattern) :=
  match RegExp_new (exactPathText (escapeRegExp reference))
          (anyAltExactPath reference) with
  | None => None
  | Some exact =>
      match RegExp_new (looseText (escapeRegExp (spacesToPercent20 fileName)))
              (anyAltPathContaining (spacesToPercent20 fileName)) with
      | None => None
      | Some loose =>
          Some [ MatchText (imageLink fileName reference);
                 MatchText (imageLink [] reference);
                 MatchRegex exact;
                 MatchRegex loose ]
      end
  end.

(** The loop over the double-bracket patterns: the test reads [content],
    the replacement works on [newContent].  The state is
    [(newContent, replaced)]; [None] is a throw. *)
Fixpoint replaceEmbeds (patterns : list str) (content replacement : str)
    (state : str * bool) : option (str * bool) :=
  match patterns with
  | [] => Some state
  | pattern :: rest =>
      if includes content pattern then
        match RegExp_new (escapeRegExp pattern) (escaped pattern) with
        | None => None
        | Some regex =>
            replaceEmbeds rest content replacement
              (replaceAll regex (fst state) replacement, true)
        end
      else replaceEmbeds rest content replacement state
  end.

(** [for (const pattern of matchPatterns)] *)
Fixpoint applyMatchPatterns (patterns : list matchPattern) (replacement : str)
    (state : str * bool) : option (str * bool) :=
  match patterns with
  | [] => Some state
  | MatchText text :: rest =>
      let '(newContent, replaced) := state in
      if includes newContent text then
        match RegExp_new (escapeRegExp text) (escaped text) with
        | None => None
        | Some regex =>
            let beforeReplace := newContent in
            let newContent := replaceAll regex newContent replacement in
            applyMatchPatterns rest replacement
              (newContent,
               if negb (bool_decide (newContent = beforeReplace)) then true
               else replaced)
        end
      else applyMatchPatterns rest replacement state
  | MatchRegex regex :: rest =>
      let '(newContent, replaced) := state in
      let beforeReplace := newContent in
      let newContent := replaceAll regex newContent replacement in
      applyMatchPatterns rest replacement
        (newContent,
         if negb (bool_decide (newContent = beforeReplace)) then true
         else replaced)
  end.

(** [for (const reference of possibleReferences)] *)
Fixpoint applyReferences (references : list str) (fileName replacement : str)
    (state : str * bool) : option (str * bool) :=
  match references with
  | [] => Some state
  | reference :: rest =>
      match matchPatterns fileName reference with
      | None => None
      | Some patterns =>
          match applyMatchPatterns patterns replacement state with
          | None => None
          | Some state' => applyReferences rest fileName replacement state'
          end
      end
  end.

(** The whole body sits in a [try]; its [catch] returns [false]. *)
Definition replaceAllImageLinksInDocument (editor : Editor) (file : TFile)
    (newUrl : str) : bool * Editor :=
  let content := getValue editor in
  let fileName := tfile_name file in
  let filePath := tfile_path file in
  let fileNameWithoutExt := Patcher.V2.fileNameWithoutExt fileName in
  let doubleBracketPatterns :=
    [embed fileName; embed filePath; embed fileNameWithoutExt] in
  match replaceEmbeds doubleBracketPatterns content
          (imageLink fileNameWithoutExt newUrl) (content, false) with
  | None => (false, editor)
  | Some (newContent, true) => (true, setValue editor newContent)
  | Some (newContent, false) =>
      match generateAllPossibleImageReferences file with
      | None => (false, editor)
      | Some references =>
          let possibleReferences :=
            List.filter
              (fun ref => negb (startsWith ref (js "![["))
                          || negb (endsWith ref (js "]]")))
              references in
          match applyReferences possibleReferences fileName
                  (imageLink fileName newUrl) (newContent, false) with
          | None => (false, editor)
          | Some (newContent, true) => (true, setValue editor newContent)
          | Some (_, false) => (false, editor)
          end
      end
  end.

End References.

End PatcherRest.

(** ** Commands *)

Module Commands.
Import JS Regex Eff Uploader Patcher.
Local Open Scope upic_scope.

(** [s.match(re)] without the [g] flag: the leftmost match with its
    groups, [None] for [null]. *)
Fixpoint match_from (r : regex) (prev : option N) (s : str)
    : option (str * list str) :=
  match exec_at r prev s with
  | Some (len, caps) => Some (take len s, caps)
  | None =>
      match s with
      | [] => None
      | c :: s' => match_from r (Some c) s'
      end
  end.

Definition matchFirst (r : regex) (s : str) : option (str * list str) :=
  match_from r None s.

(** The pattern of [uploadSelectedImage]: an image link with its alt
    text and its target in two groups, the target not empty. *)
Definition imageRegex : regex :=
  Seq (Lit (js "!["))
    (Seq (Group (Star (NoneOf [93])))
       (Seq (Lit (js "]("))
          (Seq (Group (Plus (NoneOf [41]))) (Lit (js ")"))))).

(** An element of the match array; a group that took no part is
    [undefined], which the patterns here never produce. *)
Definition group (caps : list str) (i : nat) : str :=
  match caps !! i with
  | Some text => text
  | None => []
  end.

Section WithHost.
Variable host : Host.

(** [uploadSelectedImage]: the argument is [editor.getSelection()], the
    result is the text handed to [editor.replaceSelection], if any.  The
    notices of this command do not ask [showNotifications]. *)
Definition uploadSelectedImage (selection : str) : M (option str) :=
  if negb (nonEmpty selection) then
    let* _ := lift (perform (NewNotice (js "Please select an image link first"))) in
    ret None
  else
    match matchFirst imageRegex selection with
    | None =>
        let* _ := lift (perform (NewNotice (js "Selected text is not a valid image link"))) in
        ret None
    | Some (fullMatch, caps) =>
        let altText := group caps 0 in
        let imagePath := group caps 1 in
        if startsWith imagePath (js "http://") || startsWith imagePath (js "https://")
        then
          let* _ := lift (perform (NewNotice (js "Image is already uploaded"))) in
          ret None
        else
          let* result := uploadFile host imagePath in
          if success result && truthy (url result) then
            let newImageMarkdown :=
              imageLink altText (match url result with Some u => u | None => [] end) in
            let* _ :=
              lift (perform (NewNotice
                (js "Image uploaded and replaced successfully: " ++ altText))) in
            ret (Some newImageMarkdown)
          else
            let errorMsg :=
              js "Upload failed for selected image: "
              ++ match error result with
                 | Some message => message
                 | None => js "undefined"
                 end in
            let* _ := lift (perform (NewNotice errorMsg)) in
            ret None
    end.

End WithHost.

End Commands.

(** ** SettingsManager *)

Module Settings.
Import JS.

(** A JavaScript number: a finite double is [mantissa * 2 ^ exponent]
    for two integers. *)
Inductive number : Type :=
| NaN
| Infinity (negative : bool)
| Finite (mantissa exponent : Z).

(** What [loadData] can hand back, and [undefined] for a missing
    property. *)
#[warnings="-register-all"]
Inductive jsval : Type :=
| VUndefined
| VNull
| VBool (b : bool)
| VNumber (n : number)
| VString (s : str)
| VArray (items : list jsval)
| VObject (fields : list (str * jsval)).

(** [typeof v] *)
Definition typeOf (v : jsval) : str :=
  match v with
  | VUndefined => js "undefined"
  | VNull => js "object"
  | VBool _ => js "boolean"
  | VNumber _ => js "number"
  | VString _ => js "string"
  | VArray _ => js "object"
  | VObject _ => js "object"
  end.

(** [!v] *)
Definition falsy (v : jsval) : bool :=
  match v with
  | VUndefined => true
  | VNull => true
  | VBool b => negb b
  | VNumber NaN => true
  | VNumber (Infinity _) => false
  | VNumber (Finite mantissa _) => (mantissa =? 0)%Z
  | VString s => negb (Uploader.nonEmpty s)
  | VArray _ => false
  | VObject _ => false
  end.

(** [v <= 0] for a number. *)
Definition leZero (n : number) : bool :=
  match n with
  | NaN => false
  | Infinity negative => negative
  | Finite mantissa _ => (mantissa <=? 0)%Z
  end.

(** The settings object: its own properties by name. *)
Abbreviation settingsObject := (gmap str jsval).

(** [o[key]] *)
Definition prop (o : settingsObject) (key : string) : jsval :=
  match o !! js key with
  | Some v => v
  | None => VUndefined
  end.

(** [o[key] = v] *)
Definition assign (o : settingsObject) (key : string) (v : jsval) : settingsObject :=
  <[js key := v]> o.

Definition defaultFormats : list jsval :=
  map (fun format => VString (js format))
    ["png"; "jpg"; "jpeg"; "gif"; "bmp"; "webp"; "svg"]%string.

Definition defaultUpicPath : str := js "/Applications/uPic.app/Contents/MacOS/uPic".

Definition DEFAULT_SETTINGS : settingsObject :=
  assign (assign (assign (assign (assign (assign ∅
    "upicPath" (VString defaultUpicPath))
    "autoUpload" (VBool true))
    "deleteLocalFile" (VBool false))
    "uploadTimeout" (VNumber (Finite 30 0)))
    "showNotifications" (VBool true))
    "supportedFormats" (VArray defaultFormats).

(** The test of the filter over [supportedFormats]. *)
Definition isValidFormat (format : jsval) : bool :=
  match format with
  | VString s => (0 <? length (trim s))%nat
  | _ => false
  end.

Definition isType (v : jsval) (name : string) : bool :=
  bool_decide (typeOf v = js name).

Definition validateUpicPath (settings : settingsObject) : settingsObject :=
  if falsy (prop settings "upicPath")
     || negb (isType (prop settings "upicPath") "string")
  then assign settings "upicPath" (prop DEFAULT_SETTINGS "upicPath")
  else settings.

Definition validateUploadTimeout (settings : settingsObject) : settingsObject :=
  if falsy (prop settings "uploadTimeout")
     || negb (isType (prop settings "uploadTimeout") "number")
     || match prop settings "uploadTimeout" with
        | VNumber n => leZero n
        | _ => false
        end
  then assign settings "uploadTimeout" (prop DEFAULT_SETTINGS "uploadTimeout")
  else settings.

Definition validateSupportedFormats (settings : settingsObject) : settingsObject :=
  match prop settings "supportedFormats" with
  | VArray supportedFormats =>
      if (length supportedFormats =? 0)%nat then
        assign settings "supportedFormats" (VArray defaultFormats)
      else
        let validFormats := List.filter isValidFormat supportedFormats in
        if negb (length validFormats =? length supportedFormats)%nat then
          assign settings "supportedFormats"
            (if (0 <? length validFormats)%nat then VArray validFormats
             else VArray defaultFormats)
        else settings
  | _ => assign settings "supportedFormats" (VArray defaultFormats)
  end.

Definition validateBoolean (key : string) (settings : settingsObject)
    : settingsObject :=
  if negb (isType (prop settings key) "boolean")
  then assign settings key (prop DEFAULT_SETTINGS key)
  else settings.

(** [validateSettings]: the six checks in the order of the source, each
    one repairing [this.settings] in place. *)
Definition validateSettings (settings : settingsObject) : settingsObject :=
  validateBoolean "showNotifications"
    (validateBoolean "deleteLocalFile"
       (validateBoolean "autoUpload"
          (validateSupportedFormats
             (validateUploadTimeout
                (validateUpicPath settings))))).

(** What the rest of the plugin relies on when it reads the settings. *)
Definition wellFormed (settings : settingsObject) : Prop :=
  (exists path, prop settings "upicPath" = VString path /\ path <> [])
  /\ (exists n, prop settings "uploadTimeout" = VNumber n
                /\ falsy (VNumber n) = false /\ leZero n = false)
  /\ (exists formats,
        prop settings "supportedFormats" = VArray formats
        /\ formats <> []
        /\ Forall (fun format => isValidFormat format = true) formats)
  /\ (exists b, prop settings "autoUpload" = VBool b)
  /\ (exists b, prop settings "deleteLocalFile" = VBool b)
  /\ (exists b, prop settings "showNotifications" = VBool b).

End Settings.

(** ** Reading a run

    The result of [run] on a method of the uploader, taken apart, and
    the assertions the statements below are built from. *)

Module Reading.
Import JS Eff Uploader.

Section Projections.
Context {A W : Type}.

Definition answer (r : A * UPicUploader * W * list observed) : A :=
  fst (fst (fst r)).

Definition after (r : A * UPicUploader * W * list observed) : UPicUploader :=
  snd (fst (fst r)).

Definition calls (r : A * UPicUploader * W * list observed) : list observed :=
  snd r.
End Projections.

(** The test the sources make of a URL: its first characters. *)
Definition hasScheme (u : str) : bool :=
  startsWith u (js "http://") || startsWith u (js "https://").

(** The commands spawned, in order. *)
Definition spawned (trace : list observed) : list str :=
  omap execCommand trace.

(** Two instances that differ at most in their availability cache. *)
Definition sameButCache (st st' : UPicUploader) : Prop :=
  settings st' = settings st
  /\ detectedUpicPath st' = detectedUpicPath st
  /\ lastCheckTime st' = lastCheckTime st.

(** A file check that turns the candidate away: the file is missing, is
    no regular file, or cannot be executed. *)
Definition failedFileCheck (o : observed) : bool :=
  match o with
  | Obs (ExistsSync _) present => negb present
  | Obs (StatSync _) (inl _) => true
  | Obs (StatSync _) (inr isFile) => negb isFile
  | Obs (AccessSync _) (Some _) => true
  | _ => false
  end.

(** [true] for an observed [fs.writeFile]. *)
Definition isWrite (o : observed) : bool :=
  match o with
  | Obs (WriteFile _ _) _ => true
  | _ => false
  end.

(** A postcondition on every run of a method from [st]: on the answer,
    the instance afterwards and the calls made. *)
Definition always {A : Type} (m : M A) (st : UPicUploader)
    (Q : A -> UPicUploader -> list observed -> Prop) : Prop :=
  forall (W : Type) (handle : forall X : Type, call X -> W -> X * W) (w : W),
    Q (answer (run handle (m st) w)) (after (run handle (m st) w))
      (calls (run handle (m st) w)).

End Reading.

(** * Properties *)

Import JS Regex Eff.

(** ** The built-ins on small inputs *)

Example trim_strips_both_ends :
  trim (js "  ab c " ++ [10; 9]) = js "ab c".
Proof. reflexivity. Qed.

Example split_keeps_empty_parts :
  split (js "a:b::c") 58 = [js "a"; js "b"; []; js "c"].
Proof. reflexivity. Qed.

Example lastIndexOf_absent : lastIndexOf (js "README") 46 = (-1)%Z.
Proof. reflexivity. Qed.

Example substring_clamps :
  substring (js "README") 0 (-1) = [] /\ substringFrom (js "README") (-1) = js "README".
Proof. split; reflexivity. Qed.

Example parseInt_prefix :
  parseInt (js " 12 processes") = Some 12%Z /\ parseInt (js "none") = None.
Proof. split; reflexivity. Qed.

Example replaceString_first_only :
  replaceString (js "a-b-a") (js "a") (js "[$&]") = js "[a]-b-a".
Proof. reflexivity. Qed.

Example GetSubstitution_groups :
  GetSubstitution (js "M") (js "xMy") 1 [js "G"] (js "$1|$01|$10|$2|$$|$&|$'|$`")
  = js "G|G|G0|$2|$|M|y|x".
Proof. reflexivity. Qed.

Example replaceAll_empty_matches :
  replaceAll (Star (Only 120)) (js "axxbc") (js "-") = js "-a--b-c-".
Proof. reflexivity. Qed.

Example replaceAll_backtracks :
  replaceAll (Patcher.anyAltPathContaining (js "a.png"))
    (js "see ![x](dir/a.png?v=1) and ![y](b.png)") (js "<$1>")
  = js "see <x> and ![y](b.png)".
Proof. reflexivity. Qed.

Example urlRegex_matches :
  matchAll Uploader.urlRegex (js "see https://a/b and http://c d http:// e")
  = [js "https://a/b"; js "http://c"].
Proof. reflexivity. Qed.

(** ** Escaping *)

Lemma literalOf_cons_plain (c : N) (rest : str) :
  c <> 92 -> literalOf (c :: rest) = c :: literalOf rest.
Proof.
  intros Hc. destruct c as [|p]; [reflexivity|].
  do 7 (destruct p as [p|p|]; try reflexivity).
  congruence.
Qed.

(** Escaped text stands for itself. *)
Lemma literalOf_escapeRegExp (x : str) : literalOf (escapeRegExp x) = x.
Proof.
  induction x as [|c x IH]; [reflexivity|].
  cbn [escapeRegExp]. destruct (isSyntaxChar c) eqn:E.
  - cbn [literalOf]. rewrite IH. reflexivity.
  - rewrite literalOf_cons_plain, IH; [reflexivity|].
    intros ->. discriminate E.
Qed.

Lemma escaped_literal (x : str) : escaped x = Lit x.
Proof. unfold escaped. rewrite literalOf_escapeRegExp. reflexivity. Qed.

(** ** Strings *)

Lemma startsWith_app (p rest : str) : startsWith (p ++ rest) p = true.
Proof.
  induction p as [|a p IH]; simpl; [reflexivity|].
  rewrite N.eqb_refl. exact IH.
Qed.

Lemma startsWith_inv (s p : str) :
  startsWith s p = true -> exists rest, s = p ++ rest.
Proof.
  revert s. induction p as [|a p IH]; intros s H.
  - exists s. reflexivity.
  - destruct s as [|b s]; simpl in H; [discriminate|].
    apply andb_true_iff in H as [Hab H].
    apply N.eqb_eq in Hab. subst b.
    destruct (IH _ H) as [rest ->]. exists rest. reflexivity.
Qed.

Lemma includes_cons (c : N) (s p : str) :
  includes (c :: s) p = startsWith (c :: s) p || includes s p.
Proof. reflexivity. Qed.

Lemma includes_app_r (pre s p : str) :
  includes s p = true -> includes (pre ++ s) p = true.
Proof.
  intros H. induction pre as [|c pre IH]; [exact H|].
  simpl app. rewrite includes_cons, IH. apply orb_true_r.
Qed.

Lemma includes_inv (s p : str) :
  includes s p = true -> exists pre rest, s = pre ++ p ++ rest.
Proof.
  induction s as [|c s IH]; intros H.
  - simpl in H. rewrite orb_false_r in H.
    destruct (startsWith_inv _ _ H) as [rest ->]. exists [], rest. reflexivity.
  - rewrite includes_cons in H. apply orb_true_iff in H as [H|H].
    + destruct (startsWith_inv _ _ H) as [rest ->]. exists [], rest. reflexivity.
    + destruct (IH H) as (pre & rest & ->). exists (c :: pre), rest. reflexivity.
Qed.

Lemma includes_intro (pre p rest : str) : includes (pre ++ p ++ rest) p = true.
Proof.
  apply includes_app_r. destruct (p ++ rest) eqn:E.
  - destruct p; [reflexivity | discriminate].
  - rewrite includes_cons, <- E, startsWith_app. reflexivity.
Qed.

(** *** White space and [trim] *)

Lemma trimStart_nil_inv (s : str) :
  trimStart s = [] -> Forall (fun c => isWhiteSpace c = true) s.
Proof.
  induction s as [|c s IH]; intros H; [constructor|].
  simpl in H. destruct (isWhiteSpace c) eqn:E; [|discriminate].
  constructor; auto.
Qed.

Lemma trimStart_all_ws (s : str) :
  Forall (fun c => isWhiteSpace c = true) s -> trimStart s = [].
Proof.
  induction 1 as [|c s Hc _ IH]; [reflexivity|]. simpl. rewrite Hc. exact IH.
Qed.

Lemma trimEnd_snoc_ws (s : str) (c : N) :
  isWhiteSpace c = true -> trimEnd (s ++ [c]) = trimEnd s.
Proof.
  intros H. unfold trimEnd. rewrite rev_app_distr. simpl. rewrite H. reflexivity.
Qed.

Lemma trimEnd_snoc_other (s : str) (c : N) :
  isWhiteSpace c = false -> trimEnd (s ++ [c]) = s ++ [c].
Proof.
  intros H. unfold trimEnd. rewrite rev_app_distr. simpl. rewrite H.
  simpl. rewrite rev_involutive. reflexivity.
Qed.

Lemma trim_cons_ws (c : N) (s : str) :
  isWhiteSpace c = true -> trim (c :: s) = trim s.
Proof. intros H. unfold trim. simpl. rewrite H. reflexivity. Qed.

Lemma trim_snoc_ws (s : str) (c : N) :
  isWhiteSpace c = true -> trim (s ++ [c]) = trim s.
Proof.
  intros H. unfold trim. induction s as [|a s IH]; simpl.
  - rewrite H. reflexivity.
  - destruct (isWhiteSpace a); [exact IH|].
    change (a :: s ++ [c]) with ((a :: s) ++ [c]).
    apply trimEnd_snoc_ws. exact H.
Qed.

Lemma trim_nil_inv (s : str) :
  trim s = [] -> Forall (fun c => isWhiteSpace c = true) s.
Proof.
  unfold trim, trimEnd. intros H.
  apply (f_equal (@rev N)) in H. rewrite rev_involutive in H. simpl in H.
  apply trimStart_nil_inv in H.
  apply trimStart_nil_inv. destruct (trimStart s) as [|a t] eqn:E; [reflexivity|].
  exfalso.
  assert (Ha : isWhiteSpace a = false).
  { clear H. induction s as [|c s IH]; simpl in E; [discriminate|].
    destruct (isWhiteSpace c) eqn:Ec; [auto|]. congruence. }
  rewrite Forall_forall in H. specialize (H a).
  rewrite H in Ha; [discriminate|].
  apply list_elem_of_In. apply (proj1 (in_rev _ _)). left. reflexivity.
Qed.

(** *** [split] *)

Lemma split_nonempty (s : str) (sep : N) :
  exists first rest, split s sep = first :: rest.
Proof.
  destruct s as [|c s]; simpl; [eauto|].
  destruct (c =? sep); [eauto|]. destruct (split s sep); eauto.
Qed.

Lemma split_snoc_sep (s : str) (sep : N) :
  split (s ++ [sep]) sep = split s sep ++ [[]].
Proof.
  induction s as [|c s IH]; simpl.
  - rewrite N.eqb_refl. reflexivity.
  - destruct (c =? sep); [rewrite IH; reflexivity|].
    rewrite IH. destruct (split_nonempty s sep) as (l & ls & ->). reflexivity.
Qed.

Lemma split_snoc_other (s : str) (sep c : N) :
  c <> sep ->
  exists init final,
    split s sep = init ++ [final] /\ split (s ++ [c]) sep = init ++ [final ++ [c]].
Proof.
  intros Hc. induction s as [|a s (init & final & E1 & E2)]; simpl.
  - apply N.eqb_neq in Hc. rewrite Hc. exists [], []. split; reflexivity.
  - rewrite E1, E2. destruct (a =? sep).
    + exists ([] :: init), final. split; reflexivity.
    + destruct init as [|l init]; simpl.
      * exists [], (a :: final). split; reflexivity.
      * exists ((a :: l) :: init), final. split; reflexivity.
Qed.

(** ** parseUploadOutput *)

Import Uploader.

Lemma firstUrlLine_cons (line : str) (rest : list str) :
  firstUrlLine (line :: rest)
  = if isUrlLine line then Some (trim line) else firstUrlLine rest.
Proof. reflexivity. Qed.

Lemma isUrlLine_nil : isUrlLine [] = false.
Proof. reflexivity. Qed.

Lemma isUrlLine_cons_ws (c : N) (l : str) :
  isWhiteSpace c = true -> isUrlLine (c :: l) = isUrlLine l.
Proof. intros H. unfold isUrlLine. rewrite (trim_cons_ws _ _ H). reflexivity. Qed.

Lemma isUrlLine_snoc_ws (l : str) (c : N) :
  isWhiteSpace c = true -> isUrlLine (l ++ [c]) = isUrlLine l.
Proof. intros H. unfold isUrlLine. rewrite (trim_snoc_ws _ _ H). reflexivity. Qed.

Lemma firstUrlLine_app (l1 l2 : list str) :
  firstUrlLine (l1 ++ l2)
  = match firstUrlLine l1 with
    | Some line => Some line
    | None => firstUrlLine l2
    end.
Proof.
  induction l1 as [|line l1 IH]; [reflexivity|].
  simpl app. rewrite !firstUrlLine_cons. destruct (isUrlLine line); auto.
Qed.

(** The first URL line among the lines up to a non-URL line and one URL
    line. *)
Lemma firstUrlLine_found (before after : list str) (line : str) :
  Forall (fun l => isUrlLine l = false) before ->
  isUrlLine line = true ->
  firstUrlLine (before ++ line :: after) = Some (trim line).
Proof.
  intros Hb Hl. induction Hb as [|l before Hl0 _ IH]; simpl app;
    rewrite firstUrlLine_cons.
  - rewrite Hl. reflexivity.
  - rewrite Hl0. exact IH.
Qed.

Lemma firstUrlLine_none (lines : list str) :
  Forall (fun l => isUrlLine l = false) lines -> firstUrlLine lines = None.
Proof.
  induction 1 as [|l lines Hl _ IH]; [reflexivity|].
  rewrite firstUrlLine_cons, Hl. exact IH.
Qed.

(** Trimming the whole output first does not change which line the loop
    finds: the lines it removes or shortens are judged after [trim]. *)
Lemma firstUrlLine_trimStart (s : str) :
  firstUrlLine (split (trimStart s) 10) = firstUrlLine (split s 10).
Proof.
  induction s as [|c s IH]; [reflexivity|].
  simpl trimStart. destruct (isWhiteSpace c) eqn:Ec; [|reflexivity].
  rewrite IH. simpl split. destruct (c =? 10).
  - rewrite firstUrlLine_cons, isUrlLine_nil. reflexivity.
  - destruct (split_nonempty s 10) as (l & ls & ->).
    rewrite !firstUrlLine_cons, (isUrlLine_cons_ws _ _ Ec).
    rewrite (trim_cons_ws _ _ Ec). reflexivity.
Qed.

Lemma firstUrlLine_trimEnd (s : str) :
  firstUrlLine (split (trimEnd s) 10) = firstUrlLine (split s 10).
Proof.
  induction s as [|c s IH] using rev_ind; [reflexivity|].
  destruct (isWhiteSpace c) eqn:Ec.
  - rewrite (trimEnd_snoc_ws _ _ Ec), IH.
    destruct (N.eq_dec c 10) as [->|Hc].
    + rewrite split_snoc_sep, firstUrlLine_app, firstUrlLine_cons, isUrlLine_nil.
      destruct (firstUrlLine (split s 10)); reflexivity.
    + destruct (split_snoc_other s 10 c Hc) as (init & final & -> & ->).
      rewrite !firstUrlLine_app, !firstUrlLine_cons.
      rewrite (isUrlLine_snoc_ws _ _ Ec), (trim_snoc_ws _ _ Ec). reflexivity.
  - rewrite (trimEnd_snoc_other _ _ Ec). reflexivity.
Qed.

Lemma firstUrlLine_trim (s : str) :
  firstUrlLine (split (trim s) 10) = firstUrlLine (split s 10).
Proof. unfold trim. rewrite firstUrlLine_trimEnd. apply firstUrlLine_trimStart. Qed.

(** The URL pattern starts with [h]: it cannot match at white space or at
    the end of the input. *)
Lemma exec_at_url_ws (prev : option N) (c : N) (s : str) :
  isWhiteSpace c = true -> exec_at urlRegex prev (c :: s) = None.
Proof.
  intros H.
  assert (E : stripPrefix (js "http") (c :: s) = None).
  { change (js "http") with [104; 116; 116; 112]. cbn [stripPrefix].
    destruct (N.eqb_spec 104 c) as [<-|]; [discriminate H | reflexivity]. }
  unfold exec_at, urlRegex. cbn [walk]. rewrite E. reflexivity.
Qed.

Lemma matchAll_url_ws (prev : option N) (s : str) :
  Forall (fun c => isWhiteSpace c = true) s ->
  matchAll_from urlRegex 0 prev s = [].
Proof.
  intros H. revert prev. induction H as [|c s Hc _ IH]; intros prev.
  - reflexivity.
  - cbn [matchAll_from]. rewrite (exec_at_url_ws _ _ _ Hc). apply IH.
Qed.

(** [parseUploadOutput] in terms of the lines of the output itself. *)
Lemma parseUploadOutput_lines (output : str) :
  parseUploadOutput output
  = match firstUrlLine (split output 10) with
    | Some trimmedLine => Some trimmedLine
    | None => head (matchAll urlRegex output)
    end.
Proof.
  unfold parseUploadOutput.
  destruct (negb (nonEmpty output) || negb (nonEmpty (trim output))) eqn:E.
  - assert (Hws : Forall (fun c => isWhiteSpace c = true) output).
    { apply orb_true_iff in E as [E|E].
      - destruct output; [constructor | discriminate].
      - apply trim_nil_inv. destruct (trim output); [reflexivity | discriminate]. }
    rewrite <- firstUrlLine_trim.
    assert (Ht : trim output = []).
    { unfold trim. rewrite (trimStart_all_ws _ Hws). reflexivity. }
    rewrite Ht. cbn [split]. rewrite firstUrlLine_cons, isUrlLine_nil.
    unfold matchAll. rewrite (matchAll_url_ws _ _ Hws). reflexivity.
  - rewrite firstUrlLine_trim.
    destruct (firstUrlLine (split output 10)); [reflexivity|].
    destruct (matchAll urlRegex output); reflexivity.
Qed.

(** ** Running programs *)

Section RunFacts.
Context {W : Type} (handle : forall X : Type, call X -> W -> X * W).

Lemma run_bind {A B : Type} (m : prog A) (f : A -> prog B) (w : W) :
  run handle (bind m f) w
  = let '(a, w1, t1) := run handle m w in
    let '(b, w2, t2) := run handle (f a) w1 in
    (b, w2, t1 ++ t2).
Proof.
  revert w. induction m as [a|X c k IH]; intros w; simpl.
  - destruct (run handle (f a) w) as [[b w2] t2]. reflexivity.
  - destruct (handle X c w) as [x w1]. rewrite IH.
    destruct (run handle (k x) w1) as [[a w2] t1].
    destruct (run handle (f a) w2) as [[b w3] t2]. reflexivity.
Qed.

Lemma run_mbind {A B : Type} (m : M A) (f : A -> M B)
    (st : UPicUploader) (w : W) :
  run handle (mbind m f st) w
  = let '(r, w1, t1) := run handle (m st) w in
    let '(b, w2, t2) := run handle (f (fst r) (snd r)) w1 in
    (b, w2, t1 ++ t2).
Proof. unfold mbind. apply run_bind. Qed.

Lemma run_lift_perform {X : Type} (c : call X) (st : UPicUploader) (w : W) :
  run handle (lift (perform c) st) w
  = let '(x, w1) := handle X c w in (x, st, w1, [Obs c x]).
Proof. simpl. destruct (handle X c w) as [x w1]. reflexivity. Qed.

Lemma run_notify (message : str) (st : UPicUploader) (w : W) :
  exists w1 trace,
    run handle (notify message st) w = (tt, st, w1, trace)
    /\ Forall (fun o => isExec o = false /\ isFileCheck o = false) trace.
Proof.
  unfold notify. rewrite run_mbind. simpl.
  destruct (showNotifications (settings st)).
  - simpl. destruct (handle unit (NewNotice message) w) as [[] w1].
    exists w1, [Obs (NewNotice message) tt]. split; [reflexivity|].
    repeat constructor.
  - exists w, []. split; [reflexivity | constructor].
Qed.
End RunFacts.

(** C2.  [parseUploadOutput] returns the first line of the output whose
    trimmed text begins with [http://] or [https://]; when there is no such
    line it returns the first match of the URL pattern over the whole
    output; and when there is neither, [uploadFile] returns a failure with
    an error message although the tool's promise resolved (exit status 0). *)
Theorem C2_upload_output_parsing :
  (forall (output : str) (before after : list str) (line : str),
      split output 10 = before ++ line :: after ->
      Forall (fun l => isUrlLine l = false) before ->
      isUrlLine line = true ->
      parseUploadOutput output = Some (trim line))
  /\ (forall output : str,
        Forall (fun l => isUrlLine l = false) (split output 10) ->
        parseUploadOutput output = head (matchAll urlRegex output))
  /\ (forall (W : Type) (handle : forall X : Type, call X -> W -> X * W)
        (host : Host) (w : W) (st : UPicUploader)
        (filePath toolPath stdout stderr : str),
        isDesktop host = true ->
        fst (fst (fst (run handle (getAvailableUPicPath host st) w))) = Some toolPath ->
        toolPath <> [] ->
        (forall (w' : W) (timeout : Z),
            fst (handle _ (ExecAsync (uploadCommand toolPath filePath) timeout) w')
            = Resolved stdout stderr) ->
        Forall (fun l => isUrlLine l = false) (split stdout 10) ->
        matchAll urlRegex stdout = [] ->
        let result := fst (fst (fst (run handle (uploadFile host filePath st) w))) in
        success result = false
        /\ url result = None
        /\ error result = Some (js "Failed to parse upload URL from uPic output")).
Proof.
  split; [|split].
  - intros output before after line Hsplit Hbefore Hline.
    rewrite parseUploadOutput_lines, Hsplit.
    rewrite (firstUrlLine_found _ _ _ Hbefore Hline). reflexivity.
  - intros output Hnone.
    rewrite parseUploadOutput_lines, (firstUrlLine_none _ Hnone). reflexivity.
  - intros W handle host w st filePath toolPath stdout stderr
      Hdesktop Hpath Hne Hexec Hlines Hmatch result.
    assert (Hparse : parseUploadOutput stdout = None).
    { rewrite parseUploadOutput_lines, (firstUrlLine_none _ Hlines), Hmatch.
      reflexivity. }
    subst result. unfold uploadFile. rewrite Hdesktop. cbn [negb].
    rewrite run_mbind. unfold uploadFile_try. rewrite run_mbind.
    destruct (run handle (getAvailableUPicPath host st) w)
      as [[[found st1] w1] t1].
    cbn [fst snd] in *. subst found.
    destruct toolPath as [|c toolPath]; [congruence|].
    rewrite run_mbind.
    destruct (run_notify handle (js "Uploading image via uPic...") st1 w1)
      as (w2 & t2 & -> & _).
    cbn [fst snd]. rewrite run_mbind. cbn [get run fst snd].
    rewrite run_mbind, run_lift_perform.
    specialize (Hexec w2 (uploadTimeout (settings st1) * 1000)%Z).
    destruct (handle _ (ExecAsync (uploadCommand (c :: toolPath) filePath) _) w2)
      as [out w3].
    cbn [fst snd] in *. subst out. rewrite Hparse. cbn. auto.
Qed.

Lemma C2_upload_output_parsing_witness :
  (let output :=
     js "uploading" ++ [10] ++ js "  https://cdn.example.com/abc.png " ++ [10]
     ++ js "bye" in
   parseUploadOutput output = Some (js "https://cdn.example.com/abc.png"))
  /\ (let output := js "Output URL: https://cdn.example.com/abc.png done" in
      parseUploadOutput output = Some (js "https://cdn.example.com/abc.png"))
  /\ (let handle := Example.handle (Example.installed 0 (Resolved (js "done") [])) in
      let st := newUploader Example.defaultSettings in
      let result :=
        fst (fst (fst (run handle (uploadFile Example.host (js "/tmp/photo.png") st) []))) in
      success result = false
      /\ url result = None
      /\ error result = Some (js "Failed to parse upload URL from uPic output")).
Proof.
  destruct C2_upload_output_parsing as (Hline & Hregex & Hfail).
  split; [|split].
  - intros output.
    rewrite (Hline output [js "uploading"] [js "bye"]
               (js "  https://cdn.example.com/abc.png ")).
    + vm_compute. reflexivity.
    + vm_compute. reflexivity.
    + repeat constructor.
    + vm_compute. reflexivity.
  - intros output. rewrite (Hregex output).
    + vm_compute. reflexivity.
    + repeat constructor.
  - intros handle st.
    apply (Hfail _ handle Example.host [] st (js "/tmp/photo.png")
             (js "/usr/local/bin/upic") (js "done") []).
    + reflexivity.
    + vm_compute. reflexivity.
    + discriminate.
    + intros w' timeout. vm_compute. reflexivity.
    + repeat constructor.
    + vm_compute. reflexivity.
Defined.


(** ** Patterns without a match *)

Lemma replaceAll_from_no_match (r : regex) (repl whole before s : str) :
  test_from r (head before) s = false ->
  replaceAll_from r repl whole 0 before s = s.
Proof.
  revert before. induction s as [|c s IH]; intros before H.
  - cbn [test_from] in H. cbn [replaceAll_from].
    destruct (exec_at r (head before) []); [discriminate | reflexivity].
  - cbn [test_from] in H. cbn [replaceAll_from].
    destruct (exec_at r (head before) (c :: s)); [discriminate|].
    f_equal. apply IH. exact H.
Qed.

Lemma replaceAll_no_match (r : regex) (s repl : str) :
  test r s = false -> replaceAll r s repl = s.
Proof. intros H. apply replaceAll_from_no_match. exact H. Qed.

Import Patcher.
Import PatternText.

(** *** The pattern texts and the constructor *)

Lemma plain_char (c : N) :
  isSyntaxChar c = false ->
  (c =? 92) = false /\ (c =? 91) = false /\ (c =? 40) = false /\ (c =? 41) = false.
Proof.
  unfold isSyntaxChar. cbn [existsb]. intros H.
  repeat (apply orb_false_iff in H as [? H]). auto.
Qed.

(** Past an escaped text the scan stands where it stood. *)
Lemma scan_escaped (x rest : str) (depth : nat) :
  unmatchedParen_from depth false (escapeRegExp x ++ rest)
  = unmatchedParen_from depth false rest.
Proof.
  induction x as [|c x IH]; [reflexivity|].
  cbn [escapeRegExp]. destruct (isSyntaxChar c) eqn:Ec.
  - cbn [app unmatchedParen_from N.eqb Pos.eqb]. exact IH.
  - destruct (plain_char c Ec) as (H1 & H2 & H3 & H4).
    cbn [app unmatchedParen_from]. rewrite H1, H2, H3, H4. exact IH.
Qed.

Lemma scan_open (rest : str) :
  unmatchedParen (anyAltOpenText ++ rest) = unmatchedParen_from 0 false rest.
Proof. reflexivity. Qed.

Lemma escaped_text_compiles (x : str) (denotes : regex) :
  RegExp_new (escapeRegExp x) denotes = Some denotes.
Proof.
  unfold RegExp_new, unmatchedParen.
  rewrite <- (app_nil_r (escapeRegExp x)), scan_escaped. reflexivity.
Qed.

Lemma exactPathText_compiles (x : str) (denotes : regex) :
  RegExp_new (exactPathText (escapeRegExp x)) denotes = Some denotes.
Proof.
  unfold RegExp_new, exactPathText. rewrite scan_open, scan_escaped. reflexivity.
Qed.

Lemma bracketText_compiles (x : str) (denotes : regex) :
  RegExp_new (bracketText (escapeRegExp x)) denotes = Some denotes.
Proof.
  unfold RegExp_new, bracketText, unmatchedParen.
  change (js "!\[\[" ++ escapeRegExp x ++ js "\]\]")
    with ([33; 92; 91; 92; 91] ++ escapeRegExp x ++ js "\]\]").
  cbn [app unmatchedParen_from N.eqb Pos.eqb]. rewrite scan_escaped. reflexivity.
Qed.

Lemma looseText_throws (x : str) (denotes : regex) :
  RegExp_new (looseText (escapeRegExp x)) denotes = None.
Proof.
  unfold RegExp_new, looseText. rewrite scan_open.
  change (js "[^\)]*" ++ escapeRegExp x ++ js "[^\)]*" ++ js ")")
    with ([91; 94; 92; 41; 93; 42] ++ escapeRegExp x ++ js "[^\)]*" ++ js ")").
  cbn [app unmatchedParen_from N.eqb Pos.eqb negb]. rewrite scan_escaped. reflexivity.
Qed.

Lemma looseWordText_throws (x : str) (denotes : regex) :
  RegExp_new (looseWordText (escapeRegExp x)) denotes = None.
Proof.
  unfold RegExp_new, looseWordText. rewrite scan_open.
  change (js "[^\)]*" ++ js "\b" ++ escapeRegExp x ++ js "\b" ++ js "[^\)]*" ++ js ")")
    with ([91; 94; 92; 41; 93; 42; 92; 98] ++ escapeRegExp x
          ++ js "\b" ++ js "[^\)]*" ++ js ")").
  cbn [app unmatchedParen_from N.eqb Pos.eqb negb]. rewrite scan_escaped. reflexivity.
Qed.

(** *** The loops without a hit *)

Lemma tryPatterns_without_hit (patterns : list PatcherRest.V2.pattern)
    (content : str) :
  (forall p, In p patterns -> PatcherRest.V2.occurs p content = false) ->
  match PatcherRest.V2.tryPatterns patterns content with
  | PatcherRest.V2.Replaced _ => False
  | _ => True
  end.
Proof.
  induction patterns as [|p patterns IH]; intros H; [exact I|].
  assert (Hp := H p (or_introl eq_refl)).
  assert (Hrest := IH (fun q Hq => H q (or_intror Hq))).
  destruct p as [t replacement|text denotes replacement];
    cbn [PatcherRest.V2.tryPatterns PatcherRest.V2.occurs] in *.
  - rewrite Hp. exact Hrest.
  - destruct (RegExp_new text denotes) as [regex|]; [|exact I].
    rewrite (replaceAll_no_match _ _ _ Hp).
    rewrite bool_decide_eq_true_2 by reflexivity. exact Hrest.
Qed.

Lemma tryVariants_without_hit (variants : list str) (fileName newUrl content : str) :
  (forall p,
      In p (flat_map
              (fun v => PatcherRest.V2.generateReplacementPatterns v fileName newUrl)
              variants) ->
      PatcherRest.V2.occurs p content = false) ->
  match PatcherRest.V2.tryVariants variants fileName newUrl content with
  | PatcherRest.V2.Replaced _ => False
  | _ => True
  end.
Proof.
  induction variants as [|v variants IH]; intros H; [exact I|].
  cbn [PatcherRest.V2.tryVariants flat_map] in *.
  pose proof (tryPatterns_without_hit
                (PatcherRest.V2.generateReplacementPatterns v fileName newUrl) content
                (fun p Hp => H p (in_or_app _ _ _ (or_introl Hp)))) as Hv.
  destruct (PatcherRest.V2.tryPatterns
              (PatcherRest.V2.generateReplacementPatterns v fileName newUrl) content);
    [destruct Hv | | exact I].
  apply IH. intros p Hp. apply H. apply in_or_app. right. exact Hp.
Qed.

(** C3.  When none of the patterns of [replaceImageLinkInDocument] finds
    anything in the document, the function returns [false] and the editor
    is as it was: same text, no [setValue] call.  This holds for both
    revisions of the function, with every [RegExp] constructor in place;
    and in either revision a result of [false] always comes with the
    editor untouched. *)
Theorem C3_no_match_leaves_document (editor : Editor)
    (oldPath newUrl fileName : str) :
  ((forall p, In p (PatcherRest.V2.allPatterns oldPath newUrl fileName) ->
              PatcherRest.V2.occurs p (getValue editor) = false) ->
   PatcherRest.V2.replaceImageLinkInDocument editor oldPath newUrl fileName
   = (false, editor))
  /\
  ((forall p, In p (PatcherRest.V1.probes oldPath fileName) ->
              PatcherRest.V1.occurs p (getValue editor) = false) ->
   PatcherRest.V1.replaceImageLinkInDocument editor oldPath newUrl fileName
   = (false, editor))
  /\
  (fst (PatcherRest.V2.replaceImageLinkInDocument editor oldPath newUrl fileName)
   = false ->
   snd (PatcherRest.V2.replaceImageLinkInDocument editor oldPath newUrl fileName)
   = editor)
  /\
  (fst (PatcherRest.V1.replaceImageLinkInDocument editor oldPath newUrl fileName)
   = false ->
   snd (PatcherRest.V1.replaceImageLinkInDocument editor oldPath newUrl fileName)
   = editor).
Proof.
  split; [|split; [|split]].
  - intros H. unfold PatcherRest.V2.replaceImageLinkInDocument.
    pose proof (tryVariants_without_hit _ fileName newUrl (getValue editor) H) as Hv.
    destruct (PatcherRest.V2.tryVariants _ fileName newUrl (getValue editor));
      [destruct Hv | reflexivity | reflexivity].
  - intros H. unfold PatcherRest.V1.replaceImageLinkInDocument.
    assert (H1 := H _ (or_introl eq_refl)). cbn [PatcherRest.V1.occurs] in H1.
    rewrite H1, looseText_throws. reflexivity.
  - unfold PatcherRest.V2.replaceImageLinkInDocument.
    destruct (PatcherRest.V2.tryVariants _ fileName newUrl (getValue editor));
      [discriminate | reflexivity | reflexivity].
  - unfold PatcherRest.V1.replaceImageLinkInDocument. rewrite looseText_throws.
    destruct (includes (getValue editor) (imageLink fileName oldPath));
      [discriminate | reflexivity].
Qed.

Lemma C3_no_match_leaves_document_witness :
  let editor := mkEditor (js "# Notes with ![bar.png](bar.png) only") [js "# Notes"] in
  PatcherRest.V2.replaceImageLinkInDocument editor
    (js "foo.png") (js "https://x/y.png") (js "foo.png") = (false, editor)
  /\ PatcherRest.V1.replaceImageLinkInDocument editor
       (js "foo.png") (js "https://x/y.png") (js "foo.png") = (false, editor).
Proof.
  intros editor.
  destruct (C3_no_match_leaves_document editor
              (js "foo.png") (js "https://x/y.png") (js "foo.png")) as (H2 & H1 & _).
  split.
  - apply H2. intros p Hp. vm_compute in Hp.
    repeat (destruct Hp as [<-|Hp]; [vm_compute; reflexivity|]).
    destruct Hp.
  - apply H1. intros p Hp. vm_compute in Hp.
    repeat (destruct Hp as [<-|Hp]; [vm_compute; reflexivity|]).
    destruct Hp.
Defined.


(** ** Global replacement of a literal *)

Lemma stripPrefix_startsWith (l s : str) :
  stripPrefix l s = if startsWith s l then Some (drop (length l) s) else None.
Proof.
  revert s. induction l as [|a l IH]; intros s; [reflexivity|].
  destruct s as [|c s]; [reflexivity|].
  cbn [stripPrefix startsWith length drop]. destruct (a =? c); [apply IH | reflexivity].
Qed.

Lemma startsWith_length (s l : str) :
  startsWith s l = true -> (length l <= length s)%nat.
Proof.
  intros H. destruct (startsWith_inv _ _ H) as [rest ->].
  rewrite length_app. lia.
Qed.

Lemma exec_at_Lit (l : str) (prev : option N) (s : str) :
  exec_at (Lit l) prev s = if startsWith s l then Some (length l, []) else None.
Proof.
  unfold exec_at. cbn [walk]. rewrite stripPrefix_startsWith.
  destruct (startsWith s l) eqn:E; [|reflexivity].
  apply startsWith_length in E. rewrite length_drop.
  do 2 f_equal. lia.
Qed.

Lemma replaceAll_from_skip (re : regex) (repl whole : str) (skip : nat)
    (before s : str) :
  (skip <= length s)%nat ->
  exists before',
    replaceAll_from re repl whole skip before s
    = replaceAll_from re repl whole 0 before' (drop skip s).
Proof.
  revert before s. induction skip as [|n IH]; intros before s Hlen.
  - exists before. reflexivity.
  - destruct s as [|c s]; [simpl in Hlen; lia|].
    cbn [replaceAll_from drop]. apply IH. simpl in Hlen. lia.
Qed.

Section LiteralReplace.
(** A literal [p] replaced by [r]: both start with [b], which occurs
    nowhere else in them, and [p] is not a prefix of any extension of
    [r].  The replacement text holds nothing that [GetSubstitution]
    expands. *)
Variables (b : N) (p' r' repl whole : str).

Let p : str := b :: p'.
Let r : str := b :: r'.

Hypothesis b_not_in_p' : ~ In b p'.
Hypothesis b_not_in_r' : ~ In b r'.
Hypothesis p_not_prefix : forall z, startsWith (r ++ z) p = false.
Hypothesis repl_plain :
  forall matched text position captures,
    GetSubstitution matched text position captures repl = r.

Let G (before s : str) : str := replaceAll_from (Lit p) repl whole 0 before s.

Lemma G_nil (before : str) : G before [] = [].
Proof. reflexivity. Qed.

Lemma G_skip (before : str) (c : N) (s : str) :
  startsWith (c :: s) p = false -> G before (c :: s) = c :: G (c :: before) s.
Proof.
  intros H. unfold G. cbn [replaceAll_from]. rewrite exec_at_Lit, H. reflexivity.
Qed.

Lemma G_hit (before s : str) :
  startsWith s p = true ->
  exists before', G before s = r ++ G before' (drop (length p) s).
Proof.
  intros H. pose proof (startsWith_length _ _ H) as Hlen.
  destruct s as [|c s]; [discriminate H|].
  unfold G. cbn [replaceAll_from]. rewrite exec_at_Lit, H.
  cbn [length]. rewrite repl_plain.
  destruct (replaceAll_from_skip (Lit p) repl whole (length p') (c :: before) s)
    as [before' E].
  { unfold p in Hlen. simpl in Hlen. lia. }
  exists before'. change (length p) with (S (length p')). cbn [drop].
  rewrite E. reflexivity.
Qed.

(** A text without [b] is a prefix of the output exactly when it is a
    prefix of the input. *)
Lemma G_prefix (q : str) :
  ~ In b q -> forall before s, startsWith (G before s) q = startsWith s q.
Proof.
  induction q as [|a q IH]; intros Hq before s; [reflexivity|].
  assert (Hab : (a =? b) = false).
  { apply N.eqb_neq. intros ->. apply Hq. left. reflexivity. }
  assert (Hq' : ~ In b q) by (intros Hin; apply Hq; right; exact Hin).
  destruct s as [|c s]; [reflexivity|].
  destruct (startsWith (c :: s) p) eqn:E.
  - destruct (G_hit before _ E) as [before' ->].
    unfold p in E. unfold r. cbn [startsWith] in E. apply andb_true_iff in E as [Ebc _].
    apply N.eqb_eq in Ebc. subst c.
    cbn [app startsWith]. rewrite Hab. reflexivity.
  - rewrite (G_skip _ _ _ E). cbn [startsWith]. rewrite (IH Hq'). reflexivity.
Qed.

Lemma includes_past (q z : str) :
  ~ In b q -> includes (q ++ z) p = includes z p.
Proof.
  induction q as [|a q IH]; intros Hq; [reflexivity|].
  simpl app. rewrite includes_cons. rewrite IH
    by (intros Hin; apply Hq; right; exact Hin).
  unfold p. cbn [startsWith].
  destruct (N.eqb_spec b a) as [->|_]; [|reflexivity].
  exfalso. apply Hq. left. reflexivity.
Qed.

(** No occurrence of [p] is left in the output. *)
Lemma G_no_p (n : nat) :
  forall before s, (length s <= n)%nat -> includes (G before s) p = false.
Proof.
  induction n as [|n IH]; intros before s Hlen.
  - destruct s; [reflexivity | simpl in Hlen; lia].
  - destruct s as [|c s]; [reflexivity|].
    destruct (startsWith (c :: s) p) eqn:E.
    + destruct (G_hit before _ E) as [before' ->].
      pose proof (startsWith_length _ _ E) as Hl.
      unfold r. simpl app. rewrite includes_cons.
      change (b :: r' ++ ?z) with ((b :: r') ++ z).
      rewrite p_not_prefix. cbn [orb].
      rewrite includes_past by exact b_not_in_r'.
      apply IH. rewrite length_drop. unfold p in Hl |- *. simpl in Hl, Hlen |- *. lia.
    + rewrite (G_skip _ _ _ E), includes_cons.
      rewrite IH by (simpl in Hlen; lia). rewrite orb_false_r.
      unfold p in E |- *. cbn [startsWith] in E |- *.
      destruct (b =? c); [|reflexivity]. cbn [andb] in E |- *.
      rewrite G_prefix by exact b_not_in_p'. exact E.
Qed.

(** Where the input holds [p], the output holds [r]. *)
Lemma G_has_r (n : nat) :
  forall before s,
    (length s <= n)%nat -> includes s p = true -> includes (G before s) r = true.
Proof.
  induction n as [|n IH]; intros before s Hlen Hin.
  - destruct s; [discriminate Hin | simpl in Hlen; lia].
  - destruct s as [|c s]; [discriminate Hin|].
    destruct (startsWith (c :: s) p) eqn:E.
    + destruct (G_hit before _ E) as [before' ->].
      apply (includes_intro [] r).
    + rewrite (G_skip _ _ _ E), includes_cons.
      rewrite includes_cons, E in Hin. cbn [orb] in Hin.
      assert (Hs : (length s <= n)%nat) by (simpl in Hlen; lia).
      rewrite (IH _ _ Hs Hin). apply orb_true_r.
Qed.
End LiteralReplace.

(** ** Committing the URL for [foo.png] *)

(** The second revision replaces every [![foo.png](foo.png)]: the result
    holds the remote link and no local one. *)
Lemma V2_commit_foo (editor : Editor) :
  includes (getValue editor) (js "![foo.png](foo.png)") = true ->
  exists newContent,
    PatcherRest.V2.replaceImageLinkInDocument editor
      (js "foo.png") (js "https://x/y.png") (js "foo.png")
    = (true, setValue editor newContent)
    /\ includes newContent (js "![foo.png](https://x/y.png)") = true
    /\ includes newContent (js "![foo.png](foo.png)") = false.
Proof.
  intros H.
  pose (p' := js "[foo.png](foo.png)").
  pose (r' := js "[foo.png](https://x/y.png)").
  assert (Hp : ~ In 33 p') by (simpl; intuition discriminate).
  assert (Hr : ~ In 33 r') by (simpl; intuition discriminate).
  assert (Hd : forall z, startsWith ((33 :: r') ++ z) (33 :: p') = false)
    by (intros z; reflexivity).
  assert (Hs : forall matched text position captures,
             GetSubstitution matched text position captures (33 :: r') = 33 :: r')
    by (intros; reflexivity).
  exists (replaceAll (Lit (33 :: p')) (getValue editor) (33 :: r')).
  split; [|split].
  - unfold PatcherRest.V2.replaceImageLinkInDocument.
    set (variants := V2.generatePathVariants _ _). vm_compute in variants.
    subst variants. cbn [PatcherRest.V2.tryVariants].
    set (patterns := PatcherRest.V2.generateReplacementPatterns _ _ _).
    vm_compute in patterns. subst patterns. cbn [PatcherRest.V2.tryPatterns].
    match goal with
    | |- context [if includes (getValue editor) ?P then _ else _] =>
        assert (Hin : includes (getValue editor) P = true) by exact H;
        rewrite Hin
    end.
    reflexivity.
  - exact (G_has_r 33 p' r' (33 :: r') (getValue editor) Hs
             (length (getValue editor)) [] (getValue editor) (le_n _) H).
  - exact (G_no_p 33 p' r' (33 :: r') (getValue editor) Hp Hr Hd Hs
             (length (getValue editor)) [] (getValue editor) (le_n _)).
Qed.

(** ** De-duplication *)

Import Dedup.

(** A duplicate is turned away at the check. *)
Lemma tryHead_duplicate (file : File) (pf : gset str) :
  fileId file ∈ pf -> tryHead true file pf = (AlreadyProcessing, pf).
Proof. intros H. unfold tryHead. cbn [negb]. rewrite decide_True; auto. Qed.

(** A new fingerprint is marked. *)
Lemma tryHead_new (file : File) (pf : gset str) :
  fileId file ∉ pf -> tryHead true file pf = (Begun, {[fileId file]} ∪ pf).
Proof. intros H. unfold tryHead. cbn [negb]. rewrite decide_False; auto. Qed.

(** Settling releases the fingerprint however the call ended. *)
Lemma settle_releases (how : ending) (file : File) (pf : gset str) :
  fileId file ∉ processImageFile_settle how file pf.
Proof.
  destruct how; unfold processImageFile_settle, finallyBlock;
    intros Hin; apply elem_of_difference in Hin as [_ Hin]; apply Hin;
    apply elem_of_singleton; reflexivity.
Qed.

(** The turned-away call runs the [finally] block too: the fingerprint of
    the call still in flight is gone. *)
Lemma duplicate_call_releases (file : File) (pf : gset str) :
  fileId file ∈ pf ->
  processImageFile_call true file pf = (AlreadyProcessing, pf ∖ {[fileId file]}).
Proof.
  intros H. unfold processImageFile_call. rewrite (tryHead_duplicate _ _ H).
  reflexivity.
Qed.

(** C1.  Three calls for the same file arrive while the first is still
    awaiting its upload.  The first begins and the second is turned away,
    but the second's [return] runs the [finally] block, which deletes the
    fingerprint the first call holds; the third call begins, and two calls
    with one fingerprint are in flight. *)
Theorem C1_third_call_begins_while_first_in_flight :
  let file := mkFile (js "image.png") 1024 1700000000000 [] in
  let p0 := {| processingFiles := ∅; inFlight := [] |} in
  let p1 := step true p0 (Call file) in
  let p2 := step true p1 (Call file) in
  let p3 := step true p2 (Call file) in
  (inFlightCount file p1 = 1%nat /\ fileId file ∈ processingFiles p1)
  /\ (inFlightCount file p2 = 1%nat /\ fileId file ∉ processingFiles p2)
  /\ inFlightCount file p3 = 2%nat.
Proof.
  intros file p0 p1 p2 p3. clearbody file.
  assert (Hsame : sameFile file file = true)
    by (unfold sameFile; apply bool_decide_eq_true_2; reflexivity).
  assert (E1 : p1 = {| processingFiles := {[fileId file]} ∪ ∅; inFlight := [file] |}).
  { unfold p1, p0, step, processImageFile_call. cbn [processingFiles inFlight].
    rewrite tryHead_new by apply not_elem_of_empty. reflexivity. }
  assert (E2 : p2 = {| processingFiles := ({[fileId file]} ∪ ∅) ∖ {[fileId file]};
                       inFlight := [file] |}).
  { unfold p2. rewrite E1. unfold step. cbn [processingFiles inFlight].
    rewrite duplicate_call_releases
      by (apply elem_of_union_l, elem_of_singleton; reflexivity).
    reflexivity. }
  assert (Hgone : fileId file ∉ ({[fileId file]} ∪ (∅ : gset str)) ∖ {[fileId file]}).
  { intros Hin. apply elem_of_difference in Hin as [_ Hin]. apply Hin.
    apply elem_of_singleton. reflexivity. }
  assert (E3 : p3 = {| processingFiles :=
                         {[fileId file]} ∪ (({[fileId file]} ∪ ∅) ∖ {[fileId file]});
                       inFlight := [file; file] |}).
  { unfold p3. rewrite E2. unfold step, processImageFile_call.
    cbn [processingFiles inFlight].
    rewrite tryHead_new by exact Hgone. reflexivity. }
  rewrite E1, E2, E3. unfold inFlightCount. cbn [inFlight processingFiles].
  rewrite !filter_cons_True by exact Hsame. rewrite filter_nil. cbn [length].
  split; [split; [reflexivity|] | split; [split; [reflexivity | exact Hgone] | reflexivity]].
  apply elem_of_union_l, elem_of_singleton. reflexivity.
Qed.

(** C8.  The first revision rewrites the exact reference with a string
    pattern, which [replace] applies to the first occurrence only: with
    two references [![foo.png](foo.png)] in the document, the commit of
    [https://x/y.png] for [foo.png] returns [true] and the second reference
    is still there. *)
Theorem C8_first_revision_keeps_second_reference :
  let text := js "![foo.png](foo.png) ![foo.png](foo.png)" in
  let result :=
    PatcherRest.V1.replaceImageLinkInDocument (mkEditor text [])
      (js "foo.png") (js "https://x/y.png") (js "foo.png") in
  includes text (js "![foo.png](foo.png)") = true
  /\ fst result = true
  /\ editor_text (snd result) = js "![foo.png](https://x/y.png) ![foo.png](foo.png)"
  /\ includes (editor_text (snd result)) (js "![foo.png](foo.png)") = true.
Proof. vm_compute. repeat split; reflexivity. Qed.

(** ** Staging *)

Lemma lastIndexOf_from_absent (s : str) (c : N) (i found : Z) :
  ~ In c s -> lastIndexOf_from i s c found = found.
Proof.
  revert i found. induction s as [|x s IH]; intros i found H; [reflexivity|].
  cbn [lastIndexOf_from]. destruct (N.eqb_spec x c) as [->|_].
  - exfalso. apply H. left. reflexivity.
  - apply IH. intros Hin. apply H. right. exact Hin.
Qed.

Lemma lastIndexOf_from_last (stem ext : str) (c : N) (i found : Z) :
  ~ In c ext ->
  lastIndexOf_from i (stem ++ c :: ext) c found = (i + Z.of_nat (length stem))%Z.
Proof.
  intros H. revert i found. induction stem as [|x stem IH]; intros i found.
  - cbn [app lastIndexOf_from length]. rewrite N.eqb_refl.
    rewrite lastIndexOf_from_absent by exact H. lia.
  - cbn [app lastIndexOf_from length]. rewrite IH. lia.
Qed.

Lemma substring_stem (stem rest : str) :
  substring (stem ++ rest) 0 (Z.of_nat (length stem)) = stem.
Proof.
  unfold substring, clampIndex. rewrite length_app, Nat2Z.id.
  change (Z.to_nat 0) with 0%nat.
  rewrite Nat.min_0_l, (Nat.min_l (length stem)) by lia.
  rewrite Nat.min_0_l, Nat.max_0_l, Nat.sub_0_r.
  change (drop 0 (stem ++ rest)) with (stem ++ rest).
  rewrite take_app_length. reflexivity.
Qed.

Lemma substringFrom_rest (stem rest : str) :
  substringFrom (stem ++ rest) (Z.of_nat (length stem)) = rest.
Proof.
  unfold substringFrom, substring, clampIndex. rewrite !Nat2Z.id, length_app.
  rewrite (Nat.min_l (length stem)) by lia. rewrite Nat.min_id.
  rewrite (Nat.min_l (length stem)), (Nat.max_r (length stem)) by lia.
  rewrite drop_app_length. apply firstn_all2. lia.
Qed.

Section StagingFacts.
Context {W : Type} (handle : forall X : Type, call X -> W -> X * W).
Variable host : Uploader.Host.

(** A name nobody uses in the temp directory is kept as it is. *)
Lemma createTempFile_free_name (file : File) (w w0 : W) (bytes : list Byte.byte) :
  isDesktop host = true ->
  handle _ (ArrayBuffer file) w = (inr bytes, w0) ->
  let target := pathJoin host (tmpdir host) (file_name file) in
  fst (handle _ (FsAccess target) w0) = false ->
  exists outcome w',
    run handle (Staging.createTempFile host file) w
    = (match outcome with Some e => inl e | None => inr target end, w',
       [Obs (ArrayBuffer file) (inr bytes);
        Obs (FsAccess target) false;
        Obs (WriteFile target bytes) outcome]).
Proof.
  intros Hdesktop Hbuffer target Hfree. unfold Staging.createTempFile.
  rewrite Hdesktop. cbn [negb]. cbn [bind perform run]. rewrite Hbuffer.
  fold target. cbn [bind perform run].
  destruct (handle _ (FsAccess target) w0) as [present w1].
  cbn [fst] in Hfree. subst present. cbn [bind run].
  destruct (handle _ (WriteFile target bytes) w1) as [outcome w2].
  exists outcome, w2. destruct outcome; reflexivity.
Qed.

(** A name in use that has an extension gets the time stamp in front of
    its last dot. *)
Lemma createTempFile_taken_name (file : File) (stem ext : str) (w w0 : W)
    (bytes : list Byte.byte) :
  isDesktop host = true ->
  handle _ (ArrayBuffer file) w = (inr bytes, w0) ->
  file_name file = stem ++ 46 :: ext ->
  ~ In 46 ext ->
  fst (handle _ (FsAccess (pathJoin host (tmpdir host) (file_name file))) w0) = true ->
  exists now outcome w',
    let target :=
      pathJoin host (tmpdir host) (stem ++ js "_" ++ showZ now ++ 46 :: ext) in
    run handle (Staging.createTempFile host file) w
    = (match outcome with Some e => inl e | None => inr target end, w',
       [Obs (ArrayBuffer file) (inr bytes);
        Obs (FsAccess (pathJoin host (tmpdir host) (file_name file))) true;
        Obs DateNow now;
        Obs (WriteFile target bytes) outcome]).
Proof.
  intros Hdesktop Hbuffer Hname Hext Htaken. unfold Staging.createTempFile.
  rewrite Hdesktop. cbn [negb]. cbn [bind perform run]. rewrite Hbuffer.
  cbn [bind perform run].
  destruct (handle _ (FsAccess (pathJoin host (tmpdir host) (file_name file))) w0)
    as [present w1].
  cbn [fst] in Htaken. subst present. cbn [bind run].
  destruct (handle _ DateNow w1) as [now w2]. cbn [bind run].
  assert (Hdot : lastIndexOf (file_name file) 46 = Z.of_nat (length stem)).
  { rewrite Hname. unfold lastIndexOf.
    rewrite lastIndexOf_from_last by exact Hext. lia. }
  rewrite Hdot, Hname, substring_stem, substringFrom_rest.
  destruct (handle _ (WriteFile _ bytes) w2) as [outcome w3].
  exists now, outcome, w3. destruct outcome; reflexivity.
Qed.
End StagingFacts.

(** C7.  A file named [README] is staged while the temp directory already
    holds a [README]: [lastIndexOf('.')] is [-1], the name without
    extension comes out empty and the extension as the whole name, and the
    time stamp lands in front of the name. *)
Theorem C7_name_without_dot_is_prefixed :
  let data := [Byte.x89; Byte.x50; Byte.x4e; Byte.x47] in
  let file := mkFile (js "README") 4 0 data in
  let world := Example.withTmpFiles 1700000000000 [js "README"] in
  let '(result, written, _) :=
    run (Example.handle world) (Staging.createTempFile Example.host file) [] in
  result = inr (js "/tmp/_1700000000000README")
  /\ written = [(js "/tmp/_1700000000000README", data)].
Proof. vm_compute. split; reflexivity. Qed.

(** ** The availability cache *)

(** The periodic cleaner does not know the longer window: it drops a
    positive entry as soon as it is older than [cacheTimeout]. *)
Lemma cleanExpiredCache_drops_old (now : Z) (st : UPicUploader) (path : str)
    (entry : cached) :
  availabilityCache st !! path = Some entry ->
  (now - timestamp entry > cacheTimeout)%Z ->
  availabilityCache (cleanExpiredCache now st) !! path = None.
Proof.
  intros Hentry Hold. cbn [cleanExpiredCache availabilityCache].
  apply map_lookup_filter_None. right. intros entry' Hentry'.
  rewrite Hentry in Hentry'. injection Hentry' as <-. cbn [snd]. lia.
Qed.

(** C6.  An entry of the availability cache is trusted for 1,200,000 ms
    (20 minutes, twice [cacheTimeout]) when it says available and for
    600,000 ms (10 minutes, [cacheTimeout]) when it says unavailable, so a
    positive entry outlives a negative one; read within its window it is
    returned and the cache stays as it is, read later it is deleted and
    the answer is [None]. *)
Theorem C6_cache_windows (W : Type)
    (handle : forall X : Type, call X -> W -> X * W) (w : W)
    (st : UPicUploader) (path : str) (entry : cached) :
  availabilityCache st !! path = Some entry ->
  let now := fst (handle _ DateNow w) in
  let window := if available entry then 1200000%Z else 600000%Z in
  let '(answer, st', _, _) := run handle (getCachedAvailability path st) w in
  (600000 < 1200000)%Z
  /\ ((now - timestamp entry <= window)%Z ->
      answer = Some (available entry) /\ st' = st)
  /\ ((now - timestamp entry > window)%Z ->
      answer = None
      /\ availabilityCache st' = delete path (availabilityCache st)
      /\ availabilityCache st' !! path = None).
Proof.
  intros Hentry now window. subst now.
  unfold getCachedAvailability. rewrite Hentry. cbn [run].
  destruct (handle Z DateNow w) as [now w1]. cbn [fst].
  assert (Hw : (if available entry then (cacheTimeout * 2)%Z else cacheTimeout)
               = window) by (subst window; destruct (available entry); reflexivity).
  rewrite Hw.
  destruct (Z.gtb_spec (now - timestamp entry) window) as [Hgt|Hle]; cbn [run].
  - split; [lia|]. split; [lia|]. intros _. cbn [availabilityCache].
    repeat split. apply lookup_delete_eq.
  - split; [lia|]. split; [auto | lia].
Qed.

(** A negative entry stored at time 0 and read five minutes later is still
    trusted: its window is not a matter of tens of seconds. *)
Lemma C6_negative_entry_trusted_after_five_minutes :
  let path := js "/usr/local/bin/upic" in
  let st :=
    {| settings := Example.defaultSettings;
       detectedUpicPath := None;
       lastCheckTime := 0;
       availabilityCache := {[path := {| available := false; timestamp := 0 |}]} |} in
  let '(answer, st', _, _) :=
    run (Example.handle (Example.bare 300000)) (getCachedAvailability path st) [] in
  (99000 < 300000 - 0)%Z /\ answer = Some false /\ st' = st.
Proof.
  intros path st.
  unfold getCachedAvailability. cbn [availabilityCache st].
  rewrite lookup_singleton_eq. cbn. repeat split; lia.
Qed.

Lemma C6_cache_windows_witness :
  let path := js "/usr/local/bin/upic" in
  let entry := {| available := true; timestamp := 0 |} in
  let st :=
    {| settings := Example.defaultSettings;
       detectedUpicPath := None;
       lastCheckTime := 0;
       availabilityCache := {[path := entry]} |} in
  availabilityCache st !! path = Some entry
  /\ (let '(answer, st', _, _) :=
        run (Example.handle (Example.bare 900000)) (getCachedAvailability path st) [] in
      answer = Some true /\ st' = st)
  /\ (let '(answer, st', _, _) :=
        run (Example.handle (Example.bare 1500000)) (getCachedAvailability path st) [] in
      answer = None /\ availabilityCache st' !! path = None).
Proof.
  intros path entry st.
  assert (Hentry : availabilityCache st !! path = Some entry)
    by apply lookup_singleton_eq.
  split; [exact Hentry|]. split.
  - pose proof (C6_cache_windows _ (Example.handle (Example.bare 900000)) []
                  st path entry Hentry) as H.
    cbv zeta in H.
    destruct (run (Example.handle (Example.bare 900000))
                (getCachedAvailability path st) []) as [[[answer st'] j] trace].
    destruct H as (_ & Hin & _). apply Hin. cbn. lia.
  - pose proof (C6_cache_windows _ (Example.handle (Example.bare 1500000)) []
                  st path entry Hentry) as H.
    cbv zeta in H.
    destruct (run (Example.handle (Example.bare 1500000))
                (getCachedAvailability path st) []) as [[[answer st'] j] trace].
    destruct H as (_ & _ & Hout).
    destruct Hout as (Ha & _ & Hc); [cbn; lia|]. split; assumption.
Defined.

(** ** Testing a candidate while the tool is running *)

Section RunningProcess.
Context {W : Type} (handle : forall X : Type, call X -> W -> X * W).
Variable host : Host.

(** What the trace of an accepted candidate may hold: no file check,
    and no command but the process check. *)
Let quiet (o : observed) : Prop :=
  isFileCheck o = false
  /\ (isExec o = true -> execCommand o = Some (processCheckCommand host)).

(** From the process check on: the candidate is cached and accepted. *)
Lemma process_check_accepts (path : str) (otherwise : M bool)
    (st : UPicUploader) (w : W) :
  findsRunning host handle w = true ->
  exists st' w' trace,
    run handle
      (mbind (lift (isUPicProcessRunning host))
         (fun isRunning : bool =>
            if isRunning then
              mbind (setCachedAvailability path true) (fun _ => ret true)
            else otherwise) st) w
    = (true, st', w', trace)
    /\ (exists entry,
          availabilityCache st' !! path = Some entry /\ available entry = true)
    /\ Forall quiet trace.
Proof.
  intros Hrun. unfold findsRunning in Hrun.
  rewrite run_mbind. unfold isUPicProcessRunning, lift.
  rewrite !run_bind. cbn [perform run].
  destruct (handle _ (ExecAsync (processCheckCommand host) 3000) w)
    as [r w1].
  cbn [fst snd] in *.
  destruct r as [stdout stderr|e]; [|discriminate Hrun].
  cbn [run fst snd app]. rewrite Hrun.
  rewrite run_mbind. cbn [setCachedAvailability run].
  destruct (handle _ DateNow w1) as [now w2].
  cbn [run fst snd ret app availabilityCache].
  eexists _, _, _. split; [reflexivity|]. split.
  - eexists. split; [apply lookup_insert_eq | reflexivity].
  - unfold quiet.
    repeat (apply List.Forall_cons;
            [split; [reflexivity
                    | cbn; first [discriminate | intros _; reflexivity]] |]).
    apply List.Forall_nil.
Qed.

Lemma testUPicPath_running (w : W) (st : UPicUploader) (path : str) :
  path <> [] ->
  findsRunning host handle (atProcessCheck handle w st path) = true ->
  freshNegative handle w st path = false ->
  exists st' w' trace,
    run handle (testUPicPath host path st) w = (true, st', w', trace)
    /\ (exists entry,
          availabilityCache st' !! path = Some entry /\ available entry = true)
    /\ Forall quiet trace.
Proof.
  intros Hpath Hrun Hfresh.
  destruct path as [|c path]; [congruence|].
  unfold testUPicPath. cbn [nonEmpty negb]. rewrite run_mbind.
  unfold freshNegative in Hfresh. unfold atProcessCheck in Hrun.
  unfold getCachedAvailability at 1.
  destruct (availabilityCache st !! (c :: path)) as [entry|] eqn:Hentry.
  - cbn [run]. destruct (handle _ DateNow w) as [now w1].
    cbn [fst snd] in *.
    destruct (Z.gtb_spec (now - timestamp entry)
                (if available entry then (cacheTimeout * 2)%Z else cacheTimeout))
      as [Hgt|Hle]; cbn [run fst snd].
    + edestruct (process_check_accepts (c :: path)) as (st' & w' & trace & E & Hc & Ht);
        [exact Hrun|].
      rewrite E. cbn [app].
      eexists _, _, _. split; [reflexivity|]. split; [exact Hc|].
      apply List.Forall_cons; [split; [reflexivity | discriminate] | exact Ht].
    + destruct (available entry) eqn:Hav.
      * eexists _, _, _. split; [reflexivity|]. split; [eauto|].
        apply List.Forall_cons;
          [split; [reflexivity | discriminate] | apply List.Forall_nil].
      * cbn [negb andb] in Hfresh. apply Z.leb_gt in Hfresh. lia.
  - cbn [run fst snd].
    edestruct (process_check_accepts (c :: path)) as (st' & w' & trace & E & Hc & Ht);
      [exact Hrun|].
    rewrite E. cbn [app].
    eexists _, _, _. split; [reflexivity|]. split; [exact Hc | exact Ht].
Qed.
(** The cache is asked first: an unexpired negative entry answers, and
    nothing else is looked at. *)
Lemma testUPicPath_fresh_negative (w : W) (st : UPicUploader) (path : str) :
  path <> [] ->
  freshNegative handle w st path = true ->
  run handle (testUPicPath host path st) w
  = ((false, st), snd (handle _ DateNow w),
     [Obs DateNow (fst (handle _ DateNow w))]).
Proof.
  intros Hpath Hfresh. destruct path as [|c path]; [congruence|].
  unfold testUPicPath. cbn [nonEmpty negb]. rewrite run_mbind.
  unfold freshNegative in Hfresh. unfold getCachedAvailability at 1.
  destruct (availabilityCache st !! (c :: path)) as [entry|]; [|discriminate].
  cbn [run]. destruct (handle _ DateNow w) as [now w1]. cbn [fst snd] in *.
  apply andb_true_iff in Hfresh as [Hneg Hage].
  destruct (available entry); [discriminate|]. apply Z.leb_le in Hage.
  destruct (Z.gtb_spec (now - timestamp entry) cacheTimeout) as [Hgt|_]; [lia|].
  reflexivity.
Qed.
End RunningProcess.

(** C4.  A non-empty candidate that has no unexpired negative entry in the
    availability cache, tested while the process check finds the tool
    running, is accepted: [testUPicPath] returns [true], the cache then
    holds the candidate as available, and the only command spawned, if
    any, is the process check; the candidate itself is never invoked. *)
Theorem C4_running_process_accepts_candidate (W : Type)
    (handle : forall X : Type, call X -> W -> X * W) (host : Host)
    (w : W) (st : UPicUploader) (path : str) :
  path <> [] ->
  findsRunning host handle (atProcessCheck handle w st path) = true ->
  freshNegative handle w st path = false ->
  let '(ok, st', _, trace) := run handle (testUPicPath host path st) w in
  ok = true
  /\ (exists entry,
        availabilityCache st' !! path = Some entry /\ available entry = true)
  /\ Forall (fun o => isExec o = true ->
                      execCommand o = Some (processCheckCommand host)) trace.
Proof.
  intros Hpath Hrun Hfresh.
  destruct (testUPicPath_running handle host w st path Hpath Hrun Hfresh)
    as (st' & w' & trace & -> & Hc & Ht).
  split; [reflexivity|]. split; [exact Hc|].
  eapply Forall_impl; [exact Ht|]. intros o [_ Ho]. exact Ho.
Qed.

(** The candidate fails its test at time 0, with nothing running; one
    minute later the tool is running, and the cached failure answers. *)
Lemma C4_cached_failure_hides_running_process :
  let path := js "/usr/local/bin/upic" in
  let st0 := newUploader Example.defaultSettings in
  let earlier := Example.handle (Example.bare 0) in
  let later := Example.handle (Example.running 60000) in
  let '(first, st1, _, _) := run earlier (testUPicPath Example.host path st0) [] in
  let '(second, _, _, _) := run later (testUPicPath Example.host path st1) [] in
  path <> []
  /\ first = false
  /\ findsRunning Example.host later [] = true
  /\ second = false.
Proof. vm_compute. repeat split; discriminate. Qed.

Lemma C4_running_process_accepts_candidate_witness :
  let path := js "/usr/local/bin/upic" in
  let st := newUploader Example.defaultSettings in
  let handle := Example.handle (Example.running 1000) in
  (path <> []
   /\ findsRunning Example.host handle (atProcessCheck handle [] st path) = true
   /\ freshNegative handle [] st path = false)
  /\ (let '(ok, st', _, trace) := run handle (testUPicPath Example.host path st) [] in
      ok = true
      /\ (exists entry,
            availabilityCache st' !! path = Some entry /\ available entry = true)
      /\ Forall (fun o => isExec o = true ->
                          execCommand o = Some (processCheckCommand Example.host))
           trace).
Proof.
  intros path st handle.
  assert (H1 : path <> []) by discriminate.
  assert (H2 : findsRunning Example.host handle (atProcessCheck handle [] st path)
               = true)
    by (vm_compute; reflexivity).
  assert (H3 : freshNegative handle [] st path = false)
    by (vm_compute; reflexivity).
  split; [auto|].
  exact (C4_running_process_accepts_candidate _ handle Example.host
           [] st path H1 H2 H3).
Defined.

(** C10.  While the process check finds the tool running, [testUPicPath]
    accepts every non-empty candidate that has no unexpired negative entry
    in the availability cache, and caches it as available, without a
    single file check: whatever the world would answer about the
    candidate's existence, kind or permissions, it is not asked. *)
Theorem C10_running_process_skips_file_checks (W : Type)
    (handle : forall X : Type, call X -> W -> X * W) (host : Host)
    (w : W) (st : UPicUploader) (path : str) :
  path <> [] ->
  findsRunning host handle (atProcessCheck handle w st path) = true ->
  freshNegative handle w st path = false ->
  let '(ok, st', _, trace) := run handle (testUPicPath host path st) w in
  ok = true
  /\ (exists entry,
        availabilityCache st' !! path = Some entry /\ available entry = true)
  /\ Forall (fun o => isFileCheck o = false) trace.
Proof.
  intros Hpath Hrun Hfresh.
  destruct (testUPicPath_running handle host w st path Hpath Hrun Hfresh)
    as (st' & w' & trace & -> & Hc & Ht).
  split; [reflexivity|]. split; [exact Hc|].
  eapply Forall_impl; [exact Ht|]. intros o [Ho _]. exact Ho.
Qed.

(** A candidate that exists nowhere, with a negative entry one second
    old: the tool is running and the answer is still [false]. *)
Lemma C10_cached_failure_rejects_bogus_candidate :
  let path := js "/no/such/tool" in
  let st :=
    {| settings := Example.defaultSettings;
       detectedUpicPath := None;
       lastCheckTime := 0;
       availabilityCache := {[path := {| available := false; timestamp := 1000 |}]} |} in
  let handle := Example.handle (Example.running 2000) in
  path <> []
  /\ findsRunning Example.host handle [] = true
  /\ fst (fst (fst (run handle (testUPicPath Example.host path st) []))) = false.
Proof. vm_compute. repeat split; discriminate. Qed.

Lemma C10_running_process_skips_file_checks_witness :
  let path := js "/no/such/tool" in
  let st := newUploader Example.defaultSettings in
  let handle := Example.handle (Example.running 1000) in
  (path <> []
   /\ Example.installedHere (Example.running 1000) path = false
   /\ findsRunning Example.host handle (atProcessCheck handle [] st path) = true
   /\ freshNegative handle [] st path = false)
  /\ (let '(ok, st', _, trace) := run handle (testUPicPath Example.host path st) [] in
      ok = true
      /\ (exists entry,
            availabilityCache st' !! path = Some entry /\ available entry = true)
      /\ Forall (fun o => isFileCheck o = false) trace).
Proof.
  intros path st handle.
  assert (H1 : path <> []) by discriminate.
  assert (H2 : findsRunning Example.host handle (atProcessCheck handle [] st path)
               = true)
    by (vm_compute; reflexivity).
  assert (H3 : freshNegative handle [] st path = false)
    by (vm_compute; reflexivity).
  split; [repeat split; auto|].
  exact (C10_running_process_skips_file_checks _ handle Example.host
           [] st path H1 H2 H3).
Defined.

(** ** Discovery *)

(** *** The sources as the code computes them

    Each helper of [detectUPicPath] computes the source the specification
    describes. *)

Lemma isSet_trimStart (s : str) : isSet (trimStart s) = isSet s.
Proof.
  induction s as [|c s IH]; [reflexivity|].
  cbn [trimStart]. destruct (isWhiteSpace c) eqn:E.
  - rewrite IH. cbn [isSet existsb]. rewrite E. reflexivity.
  - reflexivity.
Qed.

Lemma nonEmpty_trimStart (s : str) : nonEmpty (trimStart s) = isSet s.
Proof.
  induction s as [|c s IH]; [reflexivity|].
  cbn [trimStart isSet existsb]. destruct (isWhiteSpace c); [exact IH | reflexivity].
Qed.

Lemma isSet_rev (s : str) : isSet (rev s) = isSet s.
Proof.
  induction s as [|c s IH]; [reflexivity|].
  cbn [rev]. unfold isSet in *. rewrite existsb_app, IH. cbn [existsb].
  rewrite orb_false_r. apply orb_comm.
Qed.

Lemma nonEmpty_rev (s : str) : nonEmpty (rev s) = nonEmpty s.
Proof.
  destruct s as [|c s]; [reflexivity|].
  cbn [rev nonEmpty]. destruct (rev s); reflexivity.
Qed.

Lemma nonEmpty_trim (s : str) : nonEmpty (trim s) = isSet s.
Proof.
  unfold trim, trimEnd.
  rewrite nonEmpty_rev, nonEmpty_trimStart, isSet_rev, isSet_trimStart.
  reflexivity.
Qed.

Lemma configured_isSet (configured : str) :
  nonEmpty configured && nonEmpty (trim configured) = isSet configured.
Proof.
  rewrite nonEmpty_trim. destruct configured; reflexivity.
Qed.

Lemma expandPath_tildeExpanded (host : Host) (path : str) :
  expandPath host path = tildeExpanded host path.
Proof.
  unfold expandPath, tildeExpanded, sliceFrom.
  change (js "~/") with [126; 47].
  destruct path as [|a [|b rest]]; cbn [startsWith drop].
  - reflexivity.
  - rewrite andb_false_r. reflexivity.
  - rewrite andb_true_r, (N.eqb_sym 126 a), (N.eqb_sym 47 b). reflexivity.
Qed.

Lemma commonPaths_wellKnown (host : Host) :
  map (expandPath host) (commonPaths host) = wellKnownLocations host.
Proof. vm_compute. reflexivity. Qed.

Lemma split_first_line (s : str) :
  match split s 10 with
  | first :: _ => first
  | [] => []
  end = upToLineEnd s.
Proof.
  induction s as [|c s IH]; [reflexivity|].
  cbn [split upToLineEnd]. destruct (c =? 10); [reflexivity|].
  destruct (split s 10); rewrite <- IH; reflexivity.
Qed.

Lemma firstResult_firstLine (stdout : str) : firstResult stdout = firstLine stdout.
Proof. apply split_first_line. Qed.

Lemma searchPathEntries_split (entry value : str) :
  searchPathEntries entry value
  = match split value 58 with
    | first :: rest => (entry ++ first) :: rest
    | [] => [entry]
    end.
Proof.
  revert entry. induction value as [|c value IH]; intros entry.
  - cbn [searchPathEntries split]. rewrite app_nil_r. reflexivity.
  - cbn [searchPathEntries split]. destruct (c =? 58).
    + rewrite app_nil_r, IH. destruct (split value 58) eqn:E; [|reflexivity].
      destruct value; cbn [split] in E; [discriminate|].
      destruct (_ =? 58); [discriminate|]. destruct (split value 58); discriminate.
    + rewrite IH. destruct (split value 58); [|rewrite <- app_assoc]; reflexivity.
Qed.

Lemma pathDirs_searchPath (host : Host) :
  pathDirs host = searchPathDirectories host.
Proof.
  unfold pathDirs, searchPathDirectories.
  destruct (envPATH host) as [[|c value]|]; try reflexivity.
  rewrite searchPathEntries_split.
  destruct (split (c :: value) 58) eqn:E.
  - cbn [split] in E. destruct (c =? 58); [discriminate|].
    destruct (split value 58); discriminate.
  - cbn [app]. apply List.filter_ext. intros dir. apply nonEmpty_trim.
Qed.

Section Discovery.
Context {W : Type} (handle : forall X : Type, call X -> W -> X * W).
Variable host : Host.

(** The result of a loop that returns at most one path, as the array
    [detectUPicPath] returns. *)
Let asArray (found : option str) : list str :=
  match found with
  | Some path => [path]
  | None => []
  end.

Lemma run_ret {A : Type} (a : A) (st : UPicUploader) (w : W) :
  run handle (ret a st) w = ((a, st), w, []).
Proof. reflexivity. Qed.

Lemma run_firstPositive_cons (s : source) (rest : list source)
    (st : UPicUploader) (w : W) :
  run handle (firstPositive host (s :: rest) st) w
  = let '(r, w1, t1) := run handle (probe host s st) w in
    match fst r with
    | Some path => (([path], snd r), w1, t1)
    | None =>
        let '(x, w2, t2) := run handle (firstPositive host rest (snd r)) w1 in
        (x, w2, t1 ++ t2)
    end.
Proof.
  cbn [firstPositive]. rewrite run_mbind.
  destruct (run handle (probe host s st) w) as [[[found st1] w1] t1].
  cbn [fst snd]. destruct found as [path|]; [|reflexivity].
  rewrite run_ret, app_nil_r. reflexivity.
Qed.

Lemma run_firstPositive_app (l1 l2 : list source) (st : UPicUploader) (w : W) :
  run handle (firstPositive host (l1 ++ l2) st) w
  = let '(r, w1, t1) := run handle (firstPositive host l1 st) w in
    match fst r with
    | [] =>
        let '(x, w2, t2) := run handle (firstPositive host l2 (snd r)) w1 in
        (x, w2, t1 ++ t2)
    | _ :: _ => (r, w1, t1)
    end.
Proof.
  revert st w. induction l1 as [|s l1 IH]; intros st w.
  - cbn [app firstPositive]. rewrite run_ret. cbn [fst snd app].
    destruct (run handle (firstPositive host l2 st) w) as [[x w2] t2].
    reflexivity.
  - cbn [app]. rewrite !run_firstPositive_cons.
    destruct (run handle (probe host s st) w) as [[[found st1] w1] t1].
    cbn [fst snd]. destruct found as [path|]; [reflexivity|].
    rewrite IH.
    destruct (run handle (firstPositive host l1 st1) w1) as [[[r st2] w2] t2].
    cbn [fst snd]. destruct r as [|path r].
    + destruct (run handle (firstPositive host l2 st2) w2) as [[x w3] t3].
      rewrite app_assoc. reflexivity.
    + reflexivity.
Qed.

(** Each loop of [detectUPicPath] is the specification's loop over its
    own stretch of the order. *)
Lemma detectCommon_firstPositive (paths : list str) (st : UPicUploader) (w : W) :
  run handle
    (firstPositive host (map (fun path => Candidate (expandPath host path)) paths) st) w
  = let '(r, w1, t1) := run handle (detectCommon host paths st) w in
    ((asArray (fst r), snd r), w1, t1).
Proof.
  revert st w. induction paths as [|path paths IH]; intros st w.
  - reflexivity.
  - cbn [map]. rewrite run_firstPositive_cons. cbn [probe detectCommon].
    rewrite !run_mbind.
    destruct (run handle (testUPicPath host (expandPath host path) st) w)
      as [[[ok st1] w1] t1].
    cbn [fst snd]. destruct ok; rewrite !run_ret; cbn [fst snd].
    + reflexivity.
    + rewrite IH.
      destruct (run handle (detectCommon host paths st1) w1) as [[[r st2] w2] t2].
      rewrite !app_nil_r. reflexivity.
Qed.

Lemma detectInPath_firstPositive (dirs : list str) (st : UPicUploader) (w : W) :
  run handle
    (firstPositive host
       (map (fun dir => Candidate (pathJoin host dir (js "upic"))) dirs) st) w
  = let '(r, w1, t1) := run handle (detectInPath host dirs st) w in
    ((asArray (fst r), snd r), w1, t1).
Proof.
  revert st w. induction dirs as [|dir dirs IH]; intros st w.
  - reflexivity.
  - cbn [map]. rewrite run_firstPositive_cons. cbn [probe detectInPath].
    rewrite !run_mbind.
    destruct (run handle (testUPicPath host (pathJoin host dir (js "upic")) st) w)
      as [[[ok st1] w1] t1].
    cbn [fst snd]. destruct ok; rewrite !run_ret; cbn [fst snd].
    + reflexivity.
    + rewrite IH.
      destruct (run handle (detectInPath host dirs st1) w1) as [[[r st2] w2] t2].
      rewrite !app_nil_r. reflexivity.
Qed.

Lemma detectLookup_firstPositive (cmds : list str) (st : UPicUploader) (w : W) :
  run handle (firstPositive host (map Lookup cmds) st) w
  = let '(r, w1, t1) := run handle (detectLookup host cmds st) w in
    ((asArray (fst r), snd r), w1, t1).
Proof.
  revert st w. induction cmds as [|cmd cmds IH]; intros st w.
  - reflexivity.
  - cbn [map]. rewrite run_firstPositive_cons. cbn [probe detectLookup].
    rewrite !run_mbind, !run_lift_perform.
    destruct (handle _ (ExecAsync cmd 5000) w) as [r w1].
    cbn [fst snd]. destruct r as [stdout stderr|e].
    + rewrite firstResult_firstLine.
      destruct (firstLine stdout) as [|c result]; cbn [nonEmpty andb].
      { rewrite run_ret. cbn [fst snd]. rewrite IH.
        destruct (run handle (detectLookup host cmds st) w1) as [[[r st2] w3] t2].
        reflexivity. }
      destruct (bool_decide (c :: result = js "upic not found")); cbn [negb].
      { rewrite run_ret. cbn [fst snd]. rewrite IH.
        destruct (run handle (detectLookup host cmds st) w1) as [[[r st2] w3] t2].
        reflexivity. }
      rewrite !run_mbind.
      destruct (run handle (testUPicPath host (c :: result) st) w1)
        as [[[ok st1] w2] t1].
      cbn [fst snd]. destruct ok; rewrite !run_ret; cbn [fst snd].
      * rewrite app_nil_r. reflexivity.
      * rewrite IH.
        destruct (run handle (detectLookup host cmds st1) w2)
          as [[[r st2] w3] t2].
        rewrite !app_nil_r. reflexivity.
    + rewrite run_ret. cbn [fst snd]. rewrite IH.
      destruct (run handle (detectLookup host cmds st) w1) as [[[r st2] w3] t2].
      reflexivity.
Qed.

(** The source loops one after the other are the one loop over the
    whole order. *)
Lemma detectUPicPath_firstPositive (st : UPicUploader) (w : W) :
  run handle (detectUPicPath host st) w
  = run handle (firstPositive host (discoveryOrder host st) st) w.
Proof.
  unfold discoveryOrder.
  rewrite <- (configured_isSet (upicPath (settings st))).
  rewrite <- (expandPath_tildeExpanded host (upicPath (settings st))).
  rewrite <- commonPaths_wellKnown, List.map_map.
  change lookupCommands with pathCommands.
  rewrite <- pathDirs_searchPath.
  rewrite run_firstPositive_app.
  unfold detectUPicPath. rewrite run_mbind.
  assert (Hconf :
    run handle
      (firstPositive host
         (if nonEmpty (upicPath (settings st))
             && nonEmpty (trim (upicPath (settings st)))
          then [Candidate (expandPath host (upicPath (settings st)))]
          else []) st) w
    = let '(r, w1, t1) := run handle (detectConfigured host st) w in
      ((asArray (fst r), snd r), w1, t1)).
  { unfold detectConfigured. rewrite run_mbind. cbn [get run fst snd app].
    destruct (nonEmpty (upicPath (settings st))
              && nonEmpty (trim (upicPath (settings st)))).
    - rewrite run_firstPositive_cons. cbn [probe]. rewrite !run_mbind.
      destruct (run handle
                  (testUPicPath host (expandPath host (upicPath (settings st))) st) w)
        as [[[ok st1] w1] t1].
      cbn [fst snd]. destruct ok; rewrite !run_ret; cbn [fst snd firstPositive].
      + reflexivity.
      + rewrite run_ret, !app_nil_r. reflexivity.
    - reflexivity. }
  cbv zeta in Hconf |- *. rewrite Hconf. clear Hconf.
  destruct (run handle (detectConfigured host st) w) as [[[configured st1] w1] t1].
  cbn [fst snd]. destruct configured as [path|]; cbn [asArray].
  { rewrite run_ret, app_nil_r. reflexivity. }
  rewrite run_firstPositive_app, detectCommon_firstPositive, run_mbind.
  destruct (run handle (detectCommon host (commonPaths host) st1) w1)
    as [[[common st2] w2] t2].
  cbn [fst snd]. destruct common as [path|]; cbn [asArray].
  { rewrite run_ret, app_nil_r. reflexivity. }
  rewrite run_firstPositive_app, detectLookup_firstPositive, run_mbind.
  destruct (run handle (detectLookup host pathCommands st2) w2)
    as [[[looked st3] w3] t3].
  cbn [fst snd]. destruct looked as [path|]; cbn [asArray].
  { rewrite run_ret, app_nil_r. reflexivity. }
  rewrite detectInPath_firstPositive, run_mbind.
  destruct (run handle (detectInPath host (pathDirs host) st3) w3)
    as [[[found st4] w4] t4].
  cbn [fst snd]. destruct found as [path|]; cbn [asArray];
    rewrite run_ret, app_nil_r; reflexivity.
Qed.

(** [testUPicPath] turns the empty path away. *)
Lemma testUPicPath_accepts_nonempty (path : str) (st : UPicUploader) (w : W) :
  fst (fst (fst (run handle (testUPicPath host path st) w))) = true ->
  path <> [].
Proof. intros H ->. discriminate H. Qed.

Lemma firstValid_caches (paths : list str) (st : UPicUploader) (w : W)
    (path : str) (st' : UPicUploader) (w' : W) (trace : list observed) :
  run handle (firstValid host paths st) w = ((Some path, st'), w', trace) ->
  detectedUpicPath st' = Some path /\ path <> [].
Proof.
  revert st w trace. induction paths as [|candidate paths IH]; intros st w trace H.
  - discriminate H.
  - cbn [firstValid] in H. rewrite run_mbind in H.
    pose proof (testUPicPath_accepts_nonempty candidate st w) as Hne.
    destruct (run handle (testUPicPath host candidate st) w)
      as [[[isValid st1] w1] t1].
    cbn [fst snd] in *. destruct isValid.
    + rewrite run_mbind in H. cbn in H. inversion H; subst.
      split; [reflexivity | auto].
    + destruct (run handle (firstValid host paths st1) w1)
        as [[[r st2] w2] t2] eqn:E.
      inversion H; subst. eapply IH. exact E.
Qed.
End Discovery.

(** C5.  [detectUPicPath] probes the sources in the order of the
    specification: the configured path after [~] expansion, the well-known
    locations, the first result of [which], [whereis] and [type -p], the
    directories of [PATH].  [discoveryOrder] writes that order out from the
    specification, with its own [~] expansion, list of locations, first
    line and [PATH] entries, and [detectUPicPath] is the loop over it that
    returns at the first source that tests positive: once the sources
    before one have failed and that one succeeds, its candidate is the
    result and nothing after it is probed.  [getAvailableUPicPath] answers
    from [detectedUpicPath] without a single call once a path is stored
    there, and a resolution that returns a path stores it. *)
Theorem C5_discovery_order_and_short_circuit (W : Type)
    (handle : forall X : Type, call X -> W -> X * W) (host : Host) :
  (forall (st : UPicUploader) (w : W),
      run handle (detectUPicPath host st) w
      = run handle (firstPositive host (discoveryOrder host st) st) w)
  /\ (forall (before after : list source) (s : source)
        (st st1 st2 : UPicUploader) (w w1 w2 : W) (t1 t2 : list observed)
        (path : str),
        run handle (firstPositive host before st) w = (([], st1), w1, t1) ->
        run handle (probe host s st1) w1 = ((Some path, st2), w2, t2) ->
        run handle (firstPositive host (before ++ s :: after) st) w
        = (([path], st2), w2, t1 ++ t2))
  /\ (forall (st : UPicUploader) (w : W) (path : str),
        detectedUpicPath st = Some path -> path <> [] ->
        run handle (getAvailableUPicPath host st) w = ((Some path, st), w, []))
  /\ (forall (st st' : UPicUploader) (w w' : W) (path : str)
        (trace : list observed),
        run handle (getAvailableUPicPath host st) w = ((Some path, st'), w', trace) ->
        detectedUpicPath st' = Some path /\ path <> []).
Proof.
  split; [|split; [|split]].
  - apply detectUPicPath_firstPositive.
  - intros before after s st st1 st2 w w1 w2 t1 t2 path Hbefore Hprobe.
    rewrite run_firstPositive_app, Hbefore. cbn [fst snd].
    rewrite run_firstPositive_cons, Hprobe. reflexivity.
  - intros st w path Hst Hne.
    unfold getAvailableUPicPath. rewrite run_mbind. cbn [get run fst snd].
    rewrite Hst. destruct path as [|c path]; [congruence|]. reflexivity.
  - intros st st' w w' path trace H.
    unfold getAvailableUPicPath in H. rewrite run_mbind in H.
    cbn [get run fst snd] in H.
    destruct (detectedUpicPath st) as [[|c p]|] eqn:Hst; cbn [truthy] in H.
    + rewrite run_mbind in H.
      destruct (run handle (detectUPicPath host st) w) as [[[paths st1] w1] t1].
      cbn [fst snd] in H.
      destruct (run handle (firstValid host paths st1) w1) as [[[r st2] w2] t2] eqn:E.
      inversion H; subst. eapply firstValid_caches. exact E.
    + cbn in H. inversion H; subst. split; [exact Hst | discriminate].
    + rewrite run_mbind in H.
      destruct (run handle (detectUPicPath host st) w) as [[[paths st1] w1] t1].
      cbn [fst snd] in H.
      destruct (run handle (firstValid host paths st1) w1) as [[[r st2] w2] t2] eqn:E.
      inversion H; subst. eapply firstValid_caches. exact E.
Qed.

Lemma C5_discovery_order_and_short_circuit_witness :
  let handle := Example.handle (Example.installed 0 (Resolved [] [])) in
  let host := Example.host in
  let st := newUploader Example.defaultSettings in
  let tool := js "/usr/local/bin/upic" in
  let before :=
    [ Candidate (js "/Applications/uPic.app/Contents/MacOS/uPic");
      Candidate (js "/Applications/uPic.app/Contents/Resources/uPic") ] in
  let after := [Lookup (js "which upic")] in
  let found := [tool] in
  let cachedState :=
    {| settings := Example.defaultSettings;
       detectedUpicPath := Some tool;
       lastCheckTime := 0;
       availabilityCache := ∅ |} in
  (* a configured path under the home directory *)
  let configured :=
    newUploader
      {| upicPath := js "~/bin/upic"; showNotifications := true; uploadTimeout := 30 |} in
  let inHome := Example.handle (Example.installedAtPath (js "/Users/me/bin/upic")) in
  (* a tool that only [whereis] knows *)
  let custom := js "/opt/custom/upic" in
  let byLookup :=
    Example.answering (js "whereis upic")
      (Resolved ([32] ++ custom ++ [10] ++ js "/usr/share/man/upic.1" ++ [10]) [])
      (Example.installedAtPath custom) in
  (* a tool in a directory that only [PATH] names *)
  let inTools := Example.handle (Example.installedAtPath (js "/opt/tools/bin/upic")) in
  fst (fst (fst (run handle (detectUPicPath host st) []))) = found
  /\ fst (fst (fst (run handle (firstPositive host (discoveryOrder host st) st) [])))
     = found
  /\ fst (fst (fst (run handle
                      (firstPositive host (before ++ Candidate tool :: after) st) [])))
     = found
  /\ run handle (getAvailableUPicPath host cachedState) []
     = ((Some tool, cachedState), [], [])
  /\ detectedUpicPath
       (snd (fst (fst (run handle (getAvailableUPicPath host st) [])))) = Some tool
  /\ head (discoveryOrder host configured) = Some (Candidate (js "/Users/me/bin/upic"))
  /\ fst (fst (fst (run inHome (detectUPicPath host configured) [])))
     = [js "/Users/me/bin/upic"]
  /\ fst (fst (fst (run byLookup (detectUPicPath host st) []))) = [custom]
  /\ drop 12 (discoveryOrder Example.hostWithTools st)
     = [ Candidate (js "/usr/sbin/upic");
         Candidate (js "/opt/tools/bin/upic");
         Candidate (js "/sbin/upic") ]
  /\ fst (fst (fst (run inTools (detectUPicPath Example.hostWithTools st) [])))
     = [js "/opt/tools/bin/upic"].
Proof.
  intros handle host st tool before after found cachedState
         configured inHome custom byLookup inTools.
  destruct (C5_discovery_order_and_short_circuit _ handle host)
    as (Hsame & Hstop & Hshort & Hstore).
  split; [vm_compute; reflexivity|].
  split; [rewrite <- Hsame; vm_compute; reflexivity|].
  split; [|split; [|split]].
  - destruct (run handle (firstPositive host before st) [])
      as [[[r1 st1] w1] t1] eqn:E1.
    assert (Hr1 : r1 = []).
    { change r1 with (fst (fst (fst (r1, st1, w1, t1)))). rewrite <- E1.
      vm_compute. reflexivity. }
    subst r1.
    destruct (run handle (probe host (Candidate tool) st1) w1)
      as [[[r2 st2] w2] t2] eqn:E2.
    assert (Hr2 : r2 = Some tool).
    { change r2 with (fst (fst (fst (r2, st2, w2, t2)))). rewrite <- E2.
      change st1 with (snd (fst (fst (([] : list str), st1, w1, t1)))).
      change w1 with (snd (fst (([] : list str), st1, w1, t1))) at 2.
      rewrite <- E1. vm_compute. reflexivity. }
    subst r2.
    rewrite (Hstop before after (Candidate tool) st st1 st2 [] w1 w2 t1 t2 tool E1 E2).
    reflexivity.
  - apply Hshort; [reflexivity | discriminate].
  - destruct (run handle (getAvailableUPicPath host st) [])
      as [[[r st'] w'] trace] eqn:E.
    assert (Hr : r = Some tool).
    { change r with (fst (fst (fst (r, st', w', trace)))). rewrite <- E.
      vm_compute. reflexivity. }
    subst r. exact (proj1 (Hstore st st' [] w' tool trace E)).
  - split; [vm_compute; reflexivity|].
    split; [rewrite (proj1 (C5_discovery_order_and_short_circuit _ inHome host));
            vm_compute; reflexivity|].
    split; [rewrite (proj1 (C5_discovery_order_and_short_circuit _ byLookup host));
            vm_compute; reflexivity|].
    split; [vm_compute; reflexivity|].
    rewrite (proj1 (C5_discovery_order_and_short_circuit _ inTools Example.hostWithTools)).
    vm_compute. reflexivity.
Defined.


(** ** uploadFile *)

Lemma uploadErrorMessage_empty (e : thrown) :
  uploadErrorMessage e = [] -> e = ErrorObject [].
Proof.
  destruct e as [message|]; cbn [uploadErrorMessage]; [|discriminate].
  destruct (includes message (js "timeout")); [discriminate|].
  destruct (includes message (js "ENOENT")); [discriminate|].
  intros ->. reflexivity.
Qed.

Lemma notAvailableMessage_nonempty (reason : str) : notAvailableMessage reason <> [].
Proof. discriminate. Qed.

(** The tool is found and prints the URL on a line of its own. *)
Example uploadFile_succeeds :
  let stdout := js "https://cdn.example.com/abc.png" ++ [10] in
  let handle := Example.handle (Example.installed 0 (Resolved stdout [])) in
  let st := newUploader Example.defaultSettings in
  fst (fst (fst (run handle (uploadFile Example.host (js "/tmp/photo.png") st) [])))
  = {| success := true;
       url := Some (js "https://cdn.example.com/abc.png");
       error := None;
       originalPath := js "/tmp/photo.png" |}.
Proof. vm_compute. reflexivity. Qed.

(** X29.  [uploadFile] always returns a result for the path it was given;
    nothing that is thrown on the way leaves it.  A success carries a
    non-empty URL and no error.  A failure carries no URL and a message
    that is one of the plugin's own (platform, tool not available,
    unparsable output) or the one the [catch] block chose for the value
    the upload command was rejected with; it is empty only when that
    value was an [Error] with an empty message. *)
Theorem uploadFile_always_returns_a_result (W : Type)
    (handle : forall X : Type, call X -> W -> X * W) (host : Host)
    (w : W) (st : UPicUploader) (filePath : str) :
  let '(r, _, trace) := run handle (uploadFile host filePath st) w in
  let result := fst r in
  originalPath result = filePath
  /\ ((success result = true /\ error result = None
       /\ exists u, url result = Some u /\ u <> [])
      \/ (success result = false /\ url result = None
          /\ exists message,
               error result = Some message
               /\ (message = js "File upload is only available on desktop platforms"
                   \/ (exists reason, message = notAvailableMessage reason)
                   \/ message = js "Failed to parse upload URL from uPic output"
                   \/ (exists command timeout e,
                         In (Obs (ExecAsync command timeout) (Rejected e)) trace
                         /\ message = uploadErrorMessage e))
               /\ (message = [] ->
                   exists command timeout,
                     In (Obs (ExecAsync command timeout) (Rejected (ErrorObject [])))
                       trace))).
Proof.
  destruct (run handle (uploadFile host filePath st) w) as [[r w'] trace] eqn:E.
  cbv zeta.
  assert (Hplain :
    forall message st',
      r = (failure filePath message, st') ->
      message <> [] ->
      (message = js "File upload is only available on desktop platforms"
       \/ (exists reason, message = notAvailableMessage reason)
       \/ message = js "Failed to parse upload URL from uPic output") ->
      originalPath (fst r) = filePath
      /\ ((success (fst r) = true /\ error (fst r) = None
           /\ exists u, url (fst r) = Some u /\ u <> [])
          \/ (success (fst r) = false /\ url (fst r) = None
              /\ exists message,
                   error (fst r) = Some message
                   /\ (message = js "File upload is only available on desktop platforms"
                       \/ (exists reason, message = notAvailableMessage reason)
                       \/ message = js "Failed to parse upload URL from uPic output"
                       \/ (exists command timeout e,
                             In (Obs (ExecAsync command timeout) (Rejected e)) trace
                             /\ message = uploadErrorMessage e))
                   /\ (message = [] ->
                       exists command timeout,
                         In (Obs (ExecAsync command timeout)
                               (Rejected (ErrorObject []))) trace)))).
  { intros message st' -> Hne Hkind. cbn [fst failure originalPath success url error].
    split; [reflexivity|]. right. split; [reflexivity|]. split; [reflexivity|].
    exists message. split; [reflexivity|]. split; [tauto | intros H; contradiction]. }
  unfold uploadFile in E. destruct (isDesktop host); cbn [negb] in E.
  2: { cbn [run ret] in E. inversion E; subst.
       eapply Hplain; [reflexivity | discriminate | auto]. }
  rewrite run_mbind in E. unfold uploadFile_try in E. rewrite run_mbind in E.
  destruct (run handle (getAvailableUPicPath host st) w) as [[[found st1] w1] t1].
  cbn [fst snd] in E.
  assert (Hunavailable :
    (let '(r0, w2, t2) :=
       (let '(r1, w3, t3) :=
          run handle
            (mbind (checkUPicAvailability host)
               (fun availabilityResult =>
                  ret (inr (failure filePath
                              (notAvailableMessage (avail_message availabilityResult)))))
               st1) w1 in
        (r1, w3, t1 ++ t3)) in
     let '(b, w4, t4) :=
       run handle
         (match fst r0 with
          | inl e => uploadFile_catch filePath e
          | inr result => ret result
          end (snd r0)) w2 in
     (b, w4, t2 ++ t4)) = (r, w', trace) ->
    exists reason st', r = (failure filePath (notAvailableMessage reason), st')).
  { clear. rewrite run_mbind.
    destruct (run handle (checkUPicAvailability host st1) w1) as [[[a st2] w2] t2].
    cbn [run ret fst snd]. intros H. inversion H; subst. eauto. }
  destruct found as [[|c toolPath]|].
  - destruct (Hunavailable E) as (reason & st' & Hr).
    eapply Hplain; [exact Hr | apply notAvailableMessage_nonempty | eauto].
  - clear Hunavailable. rewrite run_mbind in E.
    destruct (run_notify handle (js "Uploading image via uPic...") st1 w1)
      as (w2 & t2 & Hn & _).
    rewrite Hn in E. clear Hn.
    cbn [fst snd] in E. rewrite run_mbind in E. cbn [get run fst snd app] in E.
    rewrite run_mbind, run_lift_perform in E.
    destruct (handle _ (ExecAsync (uploadCommand (c :: toolPath) filePath)
                          (uploadTimeout (settings st1) * 1000)%Z) w2)
      as [outcome w3].
    cbn [fst snd] in E. destruct outcome as [stdout stderr|e].
    + destruct (parseUploadOutput stdout) as [[|u0 u]|]; cbn [truthy negb] in E.
      * cbn [run ret fst snd] in E. inversion E; subst.
        eapply Hplain; [reflexivity | discriminate | auto].
      * rewrite run_mbind in E.
        destruct (run_notify handle (js "Image uploaded successfully!") st1 w3)
          as (w4 & t4 & Hn & _).
        rewrite Hn in E. clear Hn.
        cbn [run ret fst snd] in E. inversion E; subst. clear Hplain.
        cbn [fst originalPath success url error].
        split; [reflexivity|]. left.
        split; [reflexivity|]. split; [reflexivity|].
        eexists. split; [reflexivity | discriminate].
      * cbn [run ret fst snd] in E. inversion E; subst.
        eapply Hplain; [reflexivity | discriminate | auto].
    + cbn [run ret fst snd] in E. unfold uploadFile_catch in E.
      rewrite run_mbind in E.
      destruct (run_notify handle (js "Upload failed: " ++ uploadErrorMessage e) st1 w3)
        as (w4 & t4 & Hn & _).
      rewrite Hn in E. clear Hn.
      cbn [run ret fst snd] in E. inversion E; subst. clear Hplain.
      cbn [fst failure originalPath success url error].
      split; [reflexivity|]. right.
      split; [reflexivity|]. split; [reflexivity|].
      eexists. split; [reflexivity|]. split.
      * right. right. right. eexists _, _, _. split; [|reflexivity].
        rewrite !in_app_iff. cbn [In]. eauto 10.
      * intros H. apply uploadErrorMessage_empty in H. subst e.
        eexists _, _. rewrite !in_app_iff. cbn [In]. eauto 10.
  - destruct (Hunavailable E) as (reason & st' & Hr).
    eapply Hplain; [exact Hr | apply notAvailableMessage_nonempty | eauto].
Qed.

Lemma uploadFile_always_returns_a_result_witness :
  let handle :=
    Example.handle
      (Example.installed 0 (Rejected (ErrorObject (js "spawn /bin/sh ENOENT")))) in
  let st := newUploader Example.defaultSettings in
  let '(r, _, _) := run handle (uploadFile Example.host (js "/tmp/image.png") st) [] in
  originalPath (fst r) = js "/tmp/image.png"
  /\ error (fst r)
     = Some (js "uPic application not found - please check the path in settings").
Proof.
  intros handle st.
  pose proof (uploadFile_always_returns_a_result _ handle Example.host []
                st (js "/tmp/image.png")) as H.
  destruct (run handle (uploadFile Example.host (js "/tmp/image.png") st) [])
    as [[r w'] trace] eqn:E.
  split; [exact (proj1 H)|].
  change r with (fst (fst (r, w', trace))). rewrite <- E.
  vm_compute. reflexivity.
Defined.

(** C9.  An upload that runs into its timeout is not reported as one.
    [exec] rejects a timed-out command with [Command failed:], the command
    line and what the tool wrote to [stderr].  The [catch] block looks for
    the word [timeout] in that message, does not find it, and hands the
    message on as it is: the result is a failure with a non-empty message,
    but the message is not the timeout message. *)
Theorem C9_timed_out_upload_is_not_reported_as_timeout :
  let filePath := js "/tmp/photo.png" in
  let command := uploadCommand (js "/usr/local/bin/upic") filePath in
  let handle := Example.handle (Example.installed 0 (timedOut command [])) in
  let st := newUploader Example.defaultSettings in
  let '(r, _, trace) := run handle (uploadFile Example.host filePath st) [] in
  In (Obs (ExecAsync command 30000) (timedOut command [])) trace
  /\ success (fst r) = false
  /\ error (fst r) = Some (js "Command failed: " ++ command ++ [10])
  /\ error (fst r)
     <> Some (js "Upload timeout - please check your network connection")
  /\ includes (js "Command failed: " ++ command ++ [10]) (js "timeout") = false.
Proof.
  vm_compute.
  split; [repeat (try (left; reflexivity); right)|].
  split; [reflexivity|]. split; [reflexivity|]. split; [discriminate | reflexivity].
Qed.

(** * Further properties *)

Import PatternText.

(** ** Escaped text *)

Lemma isSyntaxChar_SyntaxCharacter (c : N) : isSyntaxChar c = SyntaxCharacter c.
Proof.
  unfold isSyntaxChar, SyntaxCharacter.
  destruct (bool_decide_reflect
              (c ∈ [94; 36; 92; 46; 42; 43; 63; 40; 41; 91; 93; 123; 125; 124]))
    as [H|H].
  - rewrite !elem_of_cons in H.
    repeat (destruct H as [->|H]; [reflexivity|]).
    apply elem_of_nil in H. destruct H.
  - cbn [existsb].
    repeat (apply orb_false_intro; [|try reflexivity]);
      apply N.eqb_neq; intros ->; apply H;
      repeat (first [apply list_elem_of_here | apply list_elem_of_further]).
Qed.

(** X1.  In the text [escapeRegExp] returns no character keeps a meaning
    of its own as a pattern: each SyntaxCharacter of the pattern grammar,
    [^ $ \ . * + ? ( ) [ ] { } |], stands behind a backslash, every
    backslash is such an identity escape, and taking the escapes away
    gives the text back. *)
Theorem escapeRegExp_protects_every_syntax_character (x : str) :
  onlyLiteral (escapeRegExp x) = true
  /\ literalOf (escapeRegExp x) = x.
Proof.
  split; [|apply literalOf_escapeRegExp].
  induction x as [|c x IH]; [reflexivity|].
  cbn [escapeRegExp]. destruct (isSyntaxChar c) eqn:Ec.
  - cbn [onlyLiteral N.eqb Pos.eqb].
    rewrite <- isSyntaxChar_SyntaxCharacter, Ec, IH. reflexivity.
  - destruct (plain_char c Ec) as (H1 & _).
    cbn [onlyLiteral]. rewrite H1, <- isSyntaxChar_SyntaxCharacter, Ec, IH.
    reflexivity.
Qed.

(** ** Pattern texts, for every name *)

(** X2.  Whatever the file name, the text of the loose pattern, with or
    without word boundaries, ends in a parenthesis that closes no group,
    so its [RegExp] constructor throws; the text of the exact-target
    pattern, of the embed pattern and a bare escaped text pass. *)
Theorem loose_pattern_text_never_compiles (name : str) (denotes : regex) :
  RegExp_new (looseText (escapeRegExp name)) denotes = None
  /\ RegExp_new (looseWordText (escapeRegExp name)) denotes = None
  /\ RegExp_new (exactPathText (escapeRegExp name)) denotes = Some denotes
  /\ RegExp_new (bracketText (escapeRegExp name)) denotes = Some denotes
  /\ RegExp_new (escapeRegExp name) denotes = Some denotes.
Proof.
  split; [apply looseText_throws|].
  split; [apply looseWordText_throws|].
  split; [apply exactPathText_compiles|].
  split; [apply bracketText_compiles | apply escaped_text_compiles].
Qed.

(** ** The first revision of the patcher *)

(** X3.  The first revision of [replaceImageLinkInDocument] rewrites the
    exact link [![fileName](oldPath)] and nothing else: without it the
    constructor of the second attempt throws, the [catch] returns [false]
    and the editor is not touched. *)
Theorem first_revision_rewrites_exact_link_only (editor : Editor)
    (oldPath newUrl fileName : str) :
  PatcherRest.V1.replaceImageLinkInDocument editor oldPath newUrl fileName
  = if includes (getValue editor) (imageLink fileName oldPath) then
      (true,
       setValue editor
         (replaceString (getValue editor) (imageLink fileName oldPath)
            (imageLink fileName newUrl)))
    else (false, editor).
Proof.
  unfold PatcherRest.V1.replaceImageLinkInDocument.
  rewrite looseText_throws. reflexivity.
Qed.

(** ** The second revision of the patcher *)

(** *** The path variants *)

Lemma setAdd_fold_spec (items acc : list str) :
  NoDup acc ->
  NoDup (fold_left V2.setAdd items acc)
  /\ (exists more, fold_left V2.setAdd items acc = acc ++ more)
  /\ (forall x, In x (fold_left V2.setAdd items acc) <-> In x acc \/ In x items).
Proof.
  revert acc. induction items as [|item items IH]; intros acc Hacc.
  - cbn [fold_left]. split; [exact Hacc|]. split.
    + exists []. rewrite app_nil_r. reflexivity.
    + intros x. cbn [In]. tauto.
  - cbn [fold_left]. unfold V2.setAdd at 2 4 6.
    destruct (bool_decide (item ∈ acc)) eqn:E.
    + apply bool_decide_eq_true_1 in E. apply list_elem_of_In in E.
      destruct (IH acc Hacc) as (Hnd & Hpre & Hin).
      split; [exact Hnd|]. split; [exact Hpre|].
      intros x. rewrite Hin. cbn [In]. split; [tauto|].
      intros [H|[<-|H]]; auto.
    + apply bool_decide_eq_false_1 in E. rewrite list_elem_of_In in E.
      assert (Hnd' : NoDup (acc ++ [item])).
      { apply NoDup_app. split; [exact Hacc|]. split.
        - intros x Hx Hx'. apply list_elem_of_In in Hx, Hx'.
          cbn [In] in Hx'. destruct Hx' as [<-|[]]. contradiction.
        - apply NoDup_singleton. }
      destruct (IH (acc ++ [item]) Hnd') as (Hnd & (more & Hpre) & Hin).
      split; [exact Hnd|]. split.
      * exists (item :: more). rewrite Hpre, <- app_assoc. reflexivity.
      * intros x. rewrite Hin, in_app_iff. cbn [In]. tauto.
Qed.

(** X5.  [generatePathVariants] lists each variant once, begins with the
    file name, and holds the path it was given and both in their [./]
    form. *)
Theorem generatePathVariants_distinct_and_complete (fileName filePath : str) :
  NoDup (V2.generatePathVariants fileName filePath)
  /\ head (V2.generatePathVariants fileName filePath) = Some fileName
  /\ In filePath (V2.generatePathVariants fileName filePath)
  /\ In (js "./" ++ fileName) (V2.generatePathVariants fileName filePath)
  /\ In (js "./" ++ filePath) (V2.generatePathVariants fileName filePath).
Proof.
  unfold V2.generatePathVariants.
  match goal with
  | |- context [fold_left V2.setAdd (?l ++ ?r) []] => set (items := l ++ r)
  end.
  assert (Hitems : exists rest,
             items = fileName :: filePath :: (js "./" ++ fileName)
                     :: (js "./" ++ filePath) :: rest).
  { eexists. reflexivity. }
  destruct Hitems as [rest Hitems]. clearbody items. subst items.
  split; [apply setAdd_fold_spec; apply NoDup_nil_2|].
  split.
  - cbn [fold_left].
    assert (Hfirst : V2.setAdd [] fileName = [fileName]).
    { unfold V2.setAdd. rewrite bool_decide_eq_false_2 by apply not_elem_of_nil.
      reflexivity. }
    rewrite Hfirst.
    destruct (setAdd_fold_spec
                (filePath :: (js "./" ++ fileName) :: (js "./" ++ filePath) :: rest)
                [fileName]) as (_ & (more & Hpre) & _).
    { apply NoDup_singleton. }
    cbn [fold_left] in Hpre. rewrite Hpre. reflexivity.
  - destruct (setAdd_fold_spec
                (fileName :: filePath :: (js "./" ++ fileName)
                 :: (js "./" ++ filePath) :: rest) []) as (_ & _ & Hin).
    { apply NoDup_nil_2. }
    repeat split; apply Hin; right; cbn [In]; auto.
Qed.

Lemma includes_trans (s p q : str) :
  includes s p = true -> includes p q = true -> includes s q = true.
Proof.
  intros Hs Hp.
  destruct (includes_inv _ _ Hs) as (pre & rest & ->).
  destruct (includes_inv _ _ Hp) as (pre' & rest' & ->).
  replace (pre ++ (pre' ++ q ++ rest') ++ rest)
    with ((pre ++ pre') ++ q ++ (rest' ++ rest))
    by (rewrite <- !app_assoc; reflexivity).
  apply includes_intro.
Qed.

Lemma imageLink_includes_target (alt target : str) :
  includes (imageLink alt target) target = true.
Proof.
  unfold imageLink.
  replace (js "![" ++ alt ++ js "](" ++ target ++ js ")")
    with ((js "![" ++ alt ++ js "](") ++ target ++ js ")")
    by (rewrite <- !app_assoc; reflexivity).
  apply includes_intro.
Qed.

(** A variant whose exact link stands in the text ends the loop. *)
Lemma tryPatterns_exact_link (variant fileName newUrl content : str) :
  includes content (imageLink fileName variant) = true ->
  exists result,
    PatcherRest.V2.tryPatterns
      (PatcherRest.V2.generateReplacementPatterns variant fileName newUrl) content
    = PatcherRest.V2.Replaced result.
Proof.
  intros H. unfold PatcherRest.V2.generateReplacementPatterns.
  destruct (startsWith variant (js "![[") && endsWith variant (js "]]")).
  - cbn [PatcherRest.V2.tryPatterns].
    rewrite (includes_trans _ _ _ H (imageLink_includes_target _ _)).
    rewrite escaped_text_compiles. eauto.
  - cbn [app PatcherRest.V2.tryPatterns]. rewrite H, escaped_text_compiles. eauto.
Qed.

(** The variant that is the file name itself has no loose pattern. *)
Lemma tryPatterns_fileName (fileName newUrl content : str) :
  PatcherRest.V2.tryPatterns
    (PatcherRest.V2.generateReplacementPatterns fileName fileName newUrl) content
  <> PatcherRest.V2.SyntaxError.
Proof.
  unfold PatcherRest.V2.generateReplacementPatterns.
  destruct (startsWith fileName (js "![[") && endsWith fileName (js "]]")).
  - cbn [PatcherRest.V2.tryPatterns].
    rewrite escaped_text_compiles, bracketText_compiles.
    destruct (includes content fileName); [discriminate|].
    match goal with
    | |- context [bool_decide (?a = content)] => destruct (bool_decide (a = content))
    end; discriminate.
  - rewrite bool_decide_eq_true_2 by reflexivity.
    cbn [negb app PatcherRest.V2.tryPatterns].
    rewrite escaped_text_compiles, exactPathText_compiles.
    destruct (includes content (imageLink fileName fileName)); [discriminate|].
    match goal with
    | |- context [bool_decide (?a = content)] => destruct (bool_decide (a = content))
    end; discriminate.
Qed.

Lemma generatePathVariants_front (fileName filePath : str) :
  exists more,
    V2.generatePathVariants fileName filePath
    = if bool_decide (filePath = fileName) then fileName :: more
      else fileName :: filePath :: more.
Proof.
  unfold V2.generatePathVariants.
  match goal with
  | |- context [fold_left V2.setAdd (?l ++ ?r) []] => set (items := l ++ r)
  end.
  assert (Hitems : exists rest, items = fileName :: filePath :: rest)
    by (eexists; reflexivity).
  destruct Hitems as [rest Hitems]. clearbody items. subst items.
  cbn [fold_left].
  assert (Hfirst : V2.setAdd [] fileName = [fileName]).
  { unfold V2.setAdd. rewrite bool_decide_eq_false_2 by apply not_elem_of_nil.
    reflexivity. }
  rewrite Hfirst. unfold V2.setAdd at 2.
  destruct (bool_decide (filePath = fileName)) eqn:E.
  - apply bool_decide_eq_true_1 in E. subst filePath.
    rewrite bool_decide_eq_true_2 by apply list_elem_of_here.
    destruct (setAdd_fold_spec rest [fileName]) as (_ & (more & ->) & _);
      [apply NoDup_singleton|].
    exists more. reflexivity.
  - apply bool_decide_eq_false_1 in E.
    rewrite bool_decide_eq_false_2.
    + destruct (setAdd_fold_spec rest ([fileName] ++ [filePath]))
        as (_ & (more & ->) & _).
      { apply NoDup_cons_2; [|apply NoDup_singleton].
        intros Hin. apply list_elem_of_singleton in Hin. congruence. }
      exists more. reflexivity.
    + intros Hin. apply list_elem_of_singleton in Hin. congruence.
Qed.

(** X6.  When the document holds the exact link [![fileName](oldPath)],
    the second revision of [replaceImageLinkInDocument] returns [true]
    and sets the editor text once; no constructor throws on the way. *)
Theorem second_revision_finds_exact_link (editor : Editor)
    (oldPath newUrl fileName : str) :
  includes (getValue editor) (imageLink fileName oldPath) = true ->
  exists newContent,
    PatcherRest.V2.replaceImageLinkInDocument editor oldPath newUrl fileName
    = (true, setValue editor newContent).
Proof.
  intros H. unfold PatcherRest.V2.replaceImageLinkInDocument.
  destruct (generatePathVariants_front fileName oldPath) as [more ->].
  destruct (bool_decide (oldPath = fileName)) eqn:E.
  - apply bool_decide_eq_true_1 in E. subst oldPath.
    cbn [PatcherRest.V2.tryVariants].
    destruct (tryPatterns_exact_link fileName fileName newUrl _ H) as [result ->].
    eauto.
  - cbn [PatcherRest.V2.tryVariants].
    pose proof (tryPatterns_fileName fileName newUrl (getValue editor)) as Hfirst.
    destruct (PatcherRest.V2.tryPatterns
                (PatcherRest.V2.generateReplacementPatterns fileName fileName newUrl)
                (getValue editor)) as [result| |]; [eauto | | congruence].
    destruct (tryPatterns_exact_link oldPath fileName newUrl _ H) as [result ->].
    eauto.
Qed.

Lemma second_revision_finds_exact_link_witness :
  exists newContent,
    PatcherRest.V2.replaceImageLinkInDocument
      (mkEditor (js "see ![a.png](img/a.png) here") [])
      (js "img/a.png") (js "https://x.test/a.png") (js "a.png")
    = (true, setValue (mkEditor (js "see ![a.png](img/a.png) here") []) newContent).
Proof.
  apply (second_revision_finds_exact_link
           (mkEditor (js "see ![a.png](img/a.png) here") [])
           (js "img/a.png") (js "https://x.test/a.png") (js "a.png")).
  vm_compute. reflexivity.
Defined.

(** The second variant: the old path, or [./fileName] when the old path
    is the file name. *)
Lemma generatePathVariants_second (fileName filePath : str) :
  exists more,
    V2.generatePathVariants fileName filePath
    = fileName
      :: (if bool_decide (filePath = fileName) then js "./" ++ fileName else filePath)
      :: more.
Proof.
  destruct (bool_decide (filePath = fileName)) eqn:E.
  - apply bool_decide_eq_true_1 in E. subst filePath.
    unfold V2.generatePathVariants.
    match goal with
    | |- context [fold_left V2.setAdd (?l ++ ?r) []] => set (items := l ++ r)
    end.
    assert (Hitems : exists rest,
               items = fileName :: fileName :: (js "./" ++ fileName) :: rest)
      by (eexists; reflexivity).
    destruct Hitems as [rest Hitems]. clearbody items. subst items.
    cbn [fold_left].
    assert (Hfirst : V2.setAdd [] fileName = [fileName]).
    { unfold V2.setAdd. rewrite bool_decide_eq_false_2 by apply not_elem_of_nil.
      reflexivity. }
    rewrite Hfirst.
    assert (Hsame : V2.setAdd [fileName] fileName = [fileName]).
    { unfold V2.setAdd. rewrite bool_decide_eq_true_2 by apply list_elem_of_here.
      reflexivity. }
    rewrite Hsame.
    assert (Hne : js "./" ++ fileName <> fileName).
    { intros Heq. apply (f_equal (@length N)) in Heq.
      rewrite length_app in Heq. cbn in Heq. lia. }
    assert (Hthird : V2.setAdd [fileName] (js "./" ++ fileName)
                     = [fileName] ++ [js "./" ++ fileName]).
    { unfold V2.setAdd. rewrite bool_decide_eq_false_2; [reflexivity|].
      intros Hin. apply list_elem_of_singleton in Hin. congruence. }
    rewrite Hthird.
    destruct (setAdd_fold_spec rest ([fileName] ++ [js "./" ++ fileName]))
      as (_ & (more & ->) & _).
    { apply NoDup_cons_2; [|apply NoDup_singleton].
      intros Hin. apply list_elem_of_singleton in Hin. congruence. }
    exists more. reflexivity.
  - destruct (generatePathVariants_front fileName filePath) as [more H].
    rewrite E in H. exists more. exact H.
Qed.

(** X7.  Take a file name and a second path variant (the old path, or
    [./fileName] when the old path is the file name), neither written as an
    embed.  When neither is found in the document as an exact link or
    behind any alt text, the second revision constructs the loose pattern
    for the second variant, the constructor throws, and the function
    returns [false] with the editor untouched, whatever else the document
    holds. *)
Theorem second_revision_stops_at_second_variant (editor : Editor)
    (oldPath newUrl fileName : str) :
  let content := getValue editor in
  let second :=
    if bool_decide (oldPath = fileName) then js "./" ++ fileName else oldPath in
  startsWith fileName (js "![[") && endsWith fileName (js "]]") = false ->
  startsWith second (js "![[") && endsWith second (js "]]") = false ->
  includes content (imageLink fileName fileName) = false ->
  test (anyAltExactPath fileName) content = false ->
  includes content (imageLink fileName second) = false ->
  test (anyAltExactPath second) content = false ->
  PatcherRest.V2.replaceImageLinkInDocument editor oldPath newUrl fileName
  = (false, editor).
Proof.
  intros content second Hf Hs H1 H2 H3 H4.
  assert (Hne : second <> fileName).
  { unfold second. destruct (bool_decide (oldPath = fileName)) eqn:E.
    - intros Heq. apply (f_equal (@length N)) in Heq.
      rewrite length_app in Heq. cbn in Heq. lia.
    - apply bool_decide_eq_false_1 in E. exact E. }
  unfold PatcherRest.V2.replaceImageLinkInDocument.
  destruct (generatePathVariants_second fileName oldPath) as [more ->].
  fold second. fold content.
  cbn [PatcherRest.V2.tryVariants].
  assert (Hfirst :
    PatcherRest.V2.tryPatterns
      (PatcherRest.V2.generateReplacementPatterns fileName fileName newUrl) content
    = PatcherRest.V2.NoMatch).
  { unfold PatcherRest.V2.generateReplacementPatterns. rewrite Hf.
    rewrite bool_decide_eq_true_2 by reflexivity.
    cbn [negb app PatcherRest.V2.tryPatterns].
    rewrite H1, exactPathText_compiles, (replaceAll_no_match _ _ _ H2).
    rewrite bool_decide_eq_true_2 by reflexivity. reflexivity. }
  rewrite Hfirst.
  assert (Hsecond :
    PatcherRest.V2.tryPatterns
      (PatcherRest.V2.generateReplacementPatterns second fileName newUrl) content
    = PatcherRest.V2.SyntaxError).
  { unfold PatcherRest.V2.generateReplacementPatterns. rewrite Hs.
    rewrite (bool_decide_eq_false_2 _ Hne).
    cbn [negb app PatcherRest.V2.tryPatterns].
    rewrite H3, exactPathText_compiles, (replaceAll_no_match _ _ _ H4).
    rewrite bool_decide_eq_true_2 by reflexivity. cbn [negb].
    rewrite looseText_throws. reflexivity. }
  rewrite Hsecond. reflexivity.
Qed.

Lemma second_revision_stops_at_second_variant_witness :
  PatcherRest.V2.replaceImageLinkInDocument
    (mkEditor (js "![a.png](attachments/a.png)") [])
    (js "a.png") (js "https://x.test/a.png") (js "a.png")
  = (false, mkEditor (js "![a.png](attachments/a.png)") []).
Proof.
  apply (second_revision_stops_at_second_variant
           (mkEditor (js "![a.png](attachments/a.png)") [])
           (js "a.png") (js "https://x.test/a.png") (js "a.png"));
    vm_compute; reflexivity.
Defined.

(** ** replaceAllImageLinksInDocument *)

Section AllLinks.
Variable encodeURIComponent : str -> option str.

Lemma replaceEmbeds_compiles (patterns : list str) (content replacement : str)
    (state : str * bool) :
  exists newContent,
    PatcherRest.replaceEmbeds patterns content replacement state
    = Some (newContent,
            snd state || existsb (fun pattern => includes content pattern) patterns)
    /\ (existsb (fun pattern => includes content pattern) patterns = false ->
        newContent = fst state).
Proof.
  revert state. induction patterns as [|pattern patterns IH]; intros [text flag].
  - exists text. cbn. rewrite orb_false_r. auto.
  - cbn [PatcherRest.replaceEmbeds existsb].
    destruct (includes content pattern).
    + rewrite escaped_text_compiles.
      destruct (IH (replaceAll (escaped pattern) (fst (text, flag)) replacement, true))
        as (newContent & -> & _).
      exists newContent. cbn [snd orb]. rewrite orb_true_r.
      split; [reflexivity | discriminate].
    + destruct (IH (text, flag)) as (newContent & -> & Hsame).
      exists newContent. cbn [orb]. auto.
Qed.

Lemma matchPatterns_throws (fileName reference : str) :
  PatcherRest.matchPatterns fileName reference = None.
Proof.
  unfold PatcherRest.matchPatterns.
  rewrite exactPathText_compiles, looseText_throws. reflexivity.
Qed.

Lemma generated_references_kept (file : PatcherRest.TFile) :
  match PatcherRest.generateAllPossibleImageReferences encodeURIComponent file with
  | Some references =>
      In (js "./" ++ PatcherRest.tfile_name file)
        (List.filter
           (fun ref => negb (startsWith ref (js "![[")) || negb (endsWith ref (js "]]")))
           references)
  | None => True
  end.
Proof.
  unfold PatcherRest.generateAllPossibleImageReferences.
  destruct (encodeURIComponent (PatcherRest.tfile_name file)) as [encoded|];
    [|exact I].
  apply filter_In. split; [|reflexivity].
  match goal with
  | |- In _ (fold_left V2.setAdd (?l ++ ?r) []) => set (items := l ++ r)
  end.
  assert (Hitems : In (js "./" ++ PatcherRest.tfile_name file) items).
  { unfold items. cbn [app In]. auto. }
  clearbody items.
  destruct (setAdd_fold_spec items []) as (_ & _ & Hin); [apply NoDup_nil_2|].
  apply Hin. right. exact Hitems.
Qed.

(** X8.  [replaceAllImageLinksInDocument] rewrites embeds and nothing
    else.  It returns [true], after one [setValue], exactly when the
    document holds [![[name]]], [![[path]]] or [![[name without
    extension]]]; otherwise the first [matchPatterns] array it builds
    throws in the constructor of its loose pattern, and the function
    returns [false] with the editor untouched. *)
Theorem replaceAllImageLinksInDocument_embeds_only (editor : Editor)
    (file : PatcherRest.TFile) (newUrl : str) :
  let content := getValue editor in
  let embeds :=
    [ PatcherRest.embed (PatcherRest.tfile_name file);
      PatcherRest.embed (PatcherRest.tfile_path file);
      PatcherRest.embed (V2.fileNameWithoutExt (PatcherRest.tfile_name file)) ] in
  if existsb (fun pattern => includes content pattern) embeds then
    exists newContent,
      PatcherRest.replaceAllImageLinksInDocument encodeURIComponent editor file newUrl
      = (true, setValue editor newContent)
  else
    PatcherRest.replaceAllImageLinksInDocument encodeURIComponent editor file newUrl
    = (false, editor).
Proof.
  intros content embeds. unfold PatcherRest.replaceAllImageLinksInDocument.
  fold content. fold embeds.
  destruct (replaceEmbeds_compiles embeds content
              (imageLink (V2.fileNameWithoutExt (PatcherRest.tfile_name file)) newUrl)
              (content, false)) as (newContent & -> & Hsame).
  cbn [snd orb fst] in *.
  destruct (existsb (fun pattern => includes content pattern) embeds).
  - eauto.
  - pose proof (generated_references_kept file) as Hin.
    destruct (PatcherRest.generateAllPossibleImageReferences encodeURIComponent file)
      as [references|]; [|reflexivity].
    destruct (List.filter _ references) as [|reference rest]; [destruct Hin|].
    cbn [PatcherRest.applyReferences]. rewrite matchPatterns_throws. reflexivity.
Qed.
End AllLinks.

(** ** Postconditions of the uploader's methods *)

Import Reading.

Section Always.
Variable host : Host.

Lemma always_ret {A : Type} (a : A) (st : UPicUploader)
    (Q : A -> UPicUploader -> list observed -> Prop) :
  Q a st [] -> always (ret a) st Q.
Proof. intros H W handle w. exact H. Qed.

Lemma always_Ret {A : Type} (m : M A) (a : A) (st st' : UPicUploader)
    (Q : A -> UPicUploader -> list observed -> Prop) :
  m st = Ret (a, st') -> Q a st' [] -> always m st Q.
Proof. intros E H W handle w. rewrite E. exact H. Qed.

Lemma always_get (st : UPicUploader)
    (Q : UPicUploader -> UPicUploader -> list observed -> Prop) :
  Q st st [] -> always get st Q.
Proof. intros H W handle w. exact H. Qed.

Lemma always_bind {A B : Type} (m : M A) (f : A -> M B) (st : UPicUploader)
    (Q : B -> UPicUploader -> list observed -> Prop) :
  always m st
    (fun a st1 t1 => always (f a) st1 (fun b st2 t2 => Q b st2 (t1 ++ t2))) ->
  always (mbind m f) st Q.
Proof.
  intros H W handle w. specialize (H W handle w).
  unfold answer, after, calls in *. rewrite run_mbind.
  destruct (run handle (m st) w) as [[[a st1] w1] t1]. cbn [fst snd] in *.
  specialize (H W handle w1).
  destruct (run handle (f a st1) w1) as [[[b st2] w2] t2]. exact H.
Qed.

Lemma always_perform {X : Type} (c : call X) (st : UPicUploader)
    (Q : X -> UPicUploader -> list observed -> Prop) :
  (forall x, Q x st [Obs c x]) -> always (lift (perform c)) st Q.
Proof.
  intros H W handle w. unfold answer, after, calls. rewrite run_lift_perform.
  destruct (handle X c w) as [x w1]. apply H.
Qed.

Lemma always_weaken {A : Type} (m : M A) (st : UPicUploader)
    (Q Q' : A -> UPicUploader -> list observed -> Prop) :
  always m st Q -> (forall a st' t, Q a st' t -> Q' a st' t) -> always m st Q'.
Proof. intros H HQ W handle w. apply HQ, H. Qed.

Lemma always_setCachedAvailability (path : str) (avail : bool) (st : UPicUploader)
    (Q : unit -> UPicUploader -> list observed -> Prop) :
  (forall now,
      Q tt
        {| settings := settings st;
           detectedUpicPath := detectedUpicPath st;
           lastCheckTime := lastCheckTime st;
           availabilityCache :=
             <[path := {| available := avail; timestamp := now |}]>
               (availabilityCache st) |}
        [Obs DateNow now]) ->
  always (setCachedAvailability path avail) st Q.
Proof.
  intros H W handle w. unfold answer, after, calls, setCachedAvailability.
  cbn [run]. destruct (handle Z DateNow w) as [now w1]. apply H.
Qed.

Lemma always_getCachedAvailability (path : str) (st : UPicUploader)
    (Q : option bool -> UPicUploader -> list observed -> Prop) :
  (availabilityCache st !! path = None -> Q None st []) ->
  (forall entry now,
      availabilityCache st !! path = Some entry ->
      (now - timestamp entry
       > (if available entry then cacheTimeout * 2 else cacheTimeout))%Z ->
      Q None
        {| settings := settings st;
           detectedUpicPath := detectedUpicPath st;
           lastCheckTime := lastCheckTime st;
           availabilityCache := delete path (availabilityCache st) |}
        [Obs DateNow now]) ->
  (forall entry now,
      availabilityCache st !! path = Some entry ->
      (now - timestamp entry
       <= (if available entry then cacheTimeout * 2 else cacheTimeout))%Z ->
      Q (Some (available entry)) st [Obs DateNow now]) ->
  always (getCachedAvailability path) st Q.
Proof.
  intros Hnone Hold Hfresh W handle w.
  unfold answer, after, calls, getCachedAvailability.
  destruct (availabilityCache st !! path) as [entry|]; [|apply Hnone; reflexivity].
  cbn [run]. destruct (handle Z DateNow w) as [now w1].
  destruct (Z.gtb_spec (now - timestamp entry)
              (if available entry then (cacheTimeout * 2)%Z else cacheTimeout))
    as [Hgt|Hle].
  - apply (Hold entry now); [reflexivity | lia].
  - apply (Hfresh entry now); [reflexivity | exact Hle].
Qed.

Lemma always_isUPicProcessRunning (st : UPicUploader)
    (Q : bool -> UPicUploader -> list observed -> Prop) :
  (forall isRunning r,
      Q isRunning st [Obs (ExecAsync (processCheckCommand host) 3000) r]) ->
  always (lift (isUPicProcessRunning host)) st Q.
Proof.
  intros H W handle w. unfold answer, after, calls, lift, isUPicProcessRunning.
  rewrite !run_bind. cbn [perform run].
  destruct (handle _ (ExecAsync (processCheckCommand host) 3000) w) as [r w1].
  destruct r as [stdout stderr|e]; cbn [run fst snd app]; apply H.
Qed.

End Always.

Ltac run_step :=
  lazymatch goal with
  | |- always (mbind _ _) _ _ => apply always_bind
  | |- always (ret _) _ _ => apply always_ret
  | |- always get _ _ => apply always_get
  | |- always (lift (perform _)) _ _ => apply always_perform; intros ?
  | |- always (setCachedAvailability _ _) _ _ =>
      apply always_setCachedAvailability; intros ?
  | |- always (lift (isUPicProcessRunning _)) _ _ =>
      apply always_isUPicProcessRunning; intros ? ?
  | |- always (if negb ?x then _ else _) _ _ => destruct x; cbn [negb]
  | |- always (match ?x with _ => _ end) _ _ => destruct x eqn:?
  end; cbv beta.

Lemma spawned_app (t1 t2 : list observed) :
  spawned (t1 ++ t2) = spawned t1 ++ spawned t2.
Proof. apply omap_app. Qed.

Section TestPath.
Variable host : Host.

(** The instance changed at most in the cache entry of [path]. *)
Let frame (path : str) (st st' : UPicUploader) : Prop :=
  sameButCache st st'
  /\ forall other, other <> path ->
       availabilityCache st' !! other = availabilityCache st !! other.

(** The cache holds [path] with the answer. *)
Let records (path : str) (answer : bool) (st' : UPicUploader) : Prop :=
  exists entry,
    availabilityCache st' !! path = Some entry /\ available entry = answer.

Lemma frame_trans (path : str) (st1 st2 st3 : UPicUploader) :
  frame path st1 st2 -> frame path st2 st3 -> frame path st1 st3.
Proof.
  intros [(H1 & H2 & H3) H4] [(H5 & H6 & H7) H8]. split; [split; [|split]|].
  - congruence.
  - congruence.
  - congruence.
  - intros other Hother. rewrite H8, H4 by exact Hother. reflexivity.
Qed.

Ltac leaf :=
  unfold frame, records, sameButCache;
  cbn [settings detectedUpicPath lastCheckTime availabilityCache
       app map spawned omap list_omap execCommand existsb failedFileCheck
       orb negb];
  repeat match goal with
         | |- _ /\ _ => split
         | |- forall _, _ => intros
         | |- _ = _ => reflexivity
         | |- <[_ := _]> _ !! _ = _ => rewrite lookup_insert_ne by congruence
         | |- delete _ _ !! _ = _ => rewrite lookup_delete_ne by congruence
         | |- exists entry, <[_ := _]> _ !! _ = Some entry /\ _ =>
             eexists; split; [apply lookup_insert_eq | reflexivity]
         | |- [] `prefix_of` _ => apply prefix_nil
         | |- (_ :: _) `prefix_of` (_ :: _) => apply prefix_cons
         end.

Lemma tryTestCommands_post (path expandedPath : str) (flags : list str)
    (st : UPicUploader) :
  always (tryTestCommands host path expandedPath flags) st
    (fun answer st' trace =>
       frame path st st' /\ records path answer st'
       /\ spawned trace `prefix_of` map (testCommand expandedPath) flags
       /\ existsb failedFileCheck trace = false).
Proof.
  induction flags as [|flag flags IH]; cbn [tryTestCommands].
  - repeat run_step. leaf.
  - assert (Hrest :
      forall r,
        always (tryTestCommands host path expandedPath flags) st
          (fun answer st' trace =>
             frame path st st' /\ records path answer st'
             /\ spawned
                  ([Obs (ExecAsync (testCommand expandedPath flag) 3000) r] ++ trace)
                `prefix_of` map (testCommand expandedPath) (flag :: flags)
             /\ existsb failedFileCheck
                  ([Obs (ExecAsync (testCommand expandedPath flag) 3000) r] ++ trace)
                = false)).
    { intros r. eapply always_weaken; [exact IH|].
      cbv beta. intros answer st' trace (Hf & Hr & Hp & Hc).
      split; [exact Hf|]. split; [exact Hr|]. split; [|exact Hc].
      cbn [app map spawned omap execCommand]. apply prefix_cons. exact Hp. }
    run_step. run_step. run_step.
    + run_step; [repeat run_step; leaf | apply Hrest].
    + run_step; [repeat run_step; leaf | apply Hrest].
Qed.

(** What every run of [testUPicPath] on a non-empty path leaves behind. *)
Lemma testUPicPath_post (path : str) (st : UPicUploader) :
  path <> [] ->
  always (testUPicPath host path) st
    (fun answer st' trace =>
       frame path st st' /\ records path answer st'
       /\ spawned trace
          `prefix_of` processCheckCommand host
                      :: map (testCommand (expandPath host path)) testCommands
       /\ (existsb failedFileCheck trace = true ->
           answer = false /\ spawned trace = [processCheckCommand host])).
Proof.
  intros Hpath. destruct path as [|c path]; [congruence|]. clear Hpath.
  unfold testUPicPath. cbn [nonEmpty negb]. set (p := c :: path).
  run_step. apply always_getCachedAvailability; cbv beta.
  - intros Hnone. repeat run_step.
    all: try (leaf; try discriminate; auto; fail).
    all: eapply always_weaken; [apply tryTestCommands_post|]; cbv beta;
      intros answer st' trace (Hf' & Hr & Hp & Hc');
      (split; [exact Hf'|]); (split; [exact Hr|]); split;
      [ cbn [app spawned omap list_omap execCommand]; apply prefix_cons; exact Hp
      | cbn [app existsb failedFileCheck orb negb]; rewrite Hc'; discriminate ].
  - intros entry now Hentry Hold. repeat run_step.
    all: try (leaf; try discriminate; auto; fail).
    all: eapply always_weaken; [apply tryTestCommands_post|]; cbv beta;
      intros answer st' trace (Hf' & Hr & Hp & Hc');
      (split; [eapply frame_trans; [|exact Hf']; leaf|]); (split; [exact Hr|]); split;
      [ cbn [app spawned omap list_omap execCommand]; apply prefix_cons; exact Hp
      | cbn [app existsb failedFileCheck orb negb]; rewrite Hc'; discriminate ].
  - intros entry now Hentry Hfresh. run_step.
    split; [leaf|]. split; [exists entry; auto|]. split; [leaf | discriminate].
Qed.

(** The same for any path, as the discovery loops need it. *)
Lemma testUPicPath_accepting (path : str) (st : UPicUploader) :
  always (testUPicPath host path) st
    (fun answer st' trace =>
       sameButCache st st'
       /\ (answer = true -> path <> [] /\ records path true st')).
Proof.
  destruct path as [|c path].
  - apply always_ret. split; [repeat split | discriminate].
  - eapply always_weaken; [apply testUPicPath_post; discriminate|].
    cbv beta. intros answer st' trace ((Hs & _) & Hr & _).
    split; [exact Hs|]. intros ->. split; [discriminate | exact Hr].
Qed.
End TestPath.

(** X9.  [testUPicPath] records its answer: after a test of a non-empty
    path the cache holds that path with the answer just returned, every
    other cache entry is as before, and the settings, the remembered tool
    path and the time of the last check are untouched.  The empty path is
    turned away without a call and without a trace in the instance. *)
Theorem testUPicPath_records_its_answer (W : Type)
    (handle : forall X : Type, call X -> W -> X * W) (host : Host)
    (w : W) (st : UPicUploader) (path : str) :
  let r := run handle (testUPicPath host path st) w in
  if nonEmpty path then
    (exists entry,
        availabilityCache (after r) !! path = Some entry
        /\ available entry = answer r)
    /\ (forall other, other <> path ->
          availabilityCache (after r) !! other = availabilityCache st !! other)
    /\ sameButCache st (after r)
  else answer r = false /\ after r = st /\ calls r = [].
Proof.
  intros r. destruct path as [|c path]; cbn [nonEmpty].
  - repeat split.
  - destruct (testUPicPath_post host (c :: path) st ltac:(discriminate) W handle w)
      as ((Hs & Hf) & Hr & _).
    split; [exact Hr|]. split; [exact Hf | exact Hs].
Qed.

(** X10.  [testUPicPath] spawns at most three commands and in a fixed
    order: the process check, the candidate with [--version], the
    candidate with [--help]. *)
Theorem testUPicPath_spawns_in_order (W : Type)
    (handle : forall X : Type, call X -> W -> X * W) (host : Host)
    (w : W) (st : UPicUploader) (path : str) :
  spawned (calls (run handle (testUPicPath host path st) w))
  `prefix_of` [ processCheckCommand host;
                testCommand (expandPath host path) (js "--version");
                testCommand (expandPath host path) (js "--help") ].
Proof.
  destruct path as [|c path].
  - apply prefix_nil.
  - destruct (testUPicPath_post host (c :: path) st ltac:(discriminate) W handle w)
      as (_ & _ & Hp & _).
    exact Hp.
Qed.

(** X11.  A file check that fails ends the test: when [existsSync] says
    the candidate is missing, [statSync] throws or says it is no file, or
    [accessSync] throws, the answer is [false] and the candidate itself is
    never run; the process check is the only command spawned. *)
Theorem testUPicPath_failed_file_check_rejects (W : Type)
    (handle : forall X : Type, call X -> W -> X * W) (host : Host)
    (w : W) (st : UPicUploader) (path : str) :
  let r := run handle (testUPicPath host path st) w in
  existsb failedFileCheck (calls r) = true ->
  answer r = false /\ spawned (calls r) = [processCheckCommand host].
Proof.
  intros r H. destruct path as [|c path]; [discriminate H|].
  destruct (testUPicPath_post host (c :: path) st ltac:(discriminate) W handle w)
    as (_ & _ & _ & Hc).
  apply Hc. exact H.
Qed.

Lemma testUPicPath_failed_file_check_rejects_witness :
  let r :=
    run (Example.handle (Example.bare 0))
      (testUPicPath Example.host (js "/usr/local/bin/upic")
         (newUploader Example.defaultSettings)) [] in
  answer r = false /\ spawned (calls r) = [processCheckCommand Example.host].
Proof.
  apply (testUPicPath_failed_file_check_rejects _
           (Example.handle (Example.bare 0)) Example.host []
           (newUploader Example.defaultSettings) (js "/usr/local/bin/upic")).
  vm_compute. reflexivity.
Defined.

(** X12.  An entry that has not expired answers the test, whatever it
    says: [testUPicPath] returns it after one reading of the clock,
    spawns nothing, looks at no file and leaves the instance as it
    was. *)
Theorem testUPicPath_fresh_entry_answers (W : Type)
    (handle : forall X : Type, call X -> W -> X * W) (host : Host)
    (w : W) (st : UPicUploader) (path : str) (entry : cached) :
  path <> [] ->
  availabilityCache st !! path = Some entry ->
  (fst (handle _ DateNow w) - timestamp entry
   <= (if available entry then 2 * cacheTimeout else cacheTimeout))%Z ->
  run handle (testUPicPath host path st) w
  = ((available entry, st), snd (handle _ DateNow w),
     [Obs DateNow (fst (handle _ DateNow w))]).
Proof.
  intros Hpath Hentry Hfresh. destruct path as [|c path]; [congruence|].
  unfold testUPicPath. cbn [nonEmpty negb]. rewrite run_mbind.
  unfold getCachedAvailability at 1. rewrite Hentry. cbn [run].
  destruct (handle _ DateNow w) as [now w1]. cbn [fst snd] in *.
  destruct (Z.gtb_spec (now - timestamp entry)
              (if available entry then (cacheTimeout * 2)%Z else cacheTimeout))
    as [Hgt|_].
  - destruct (available entry); lia.
  - reflexivity.
Qed.

Lemma testUPicPath_fresh_entry_answers_witness :
  let path := js "/usr/local/bin/upic" in
  let st :=
    {| settings := Example.defaultSettings;
       detectedUpicPath := None;
       lastCheckTime := 0;
       availabilityCache := {[ path := {| available := true; timestamp := 0 |} ]} |} in
  run (Example.handle (Example.bare 900000)) (testUPicPath Example.host path st) []
  = ((true, st), [], [Obs DateNow 900000%Z]).
Proof.
  intros path st.
  apply (testUPicPath_fresh_entry_answers _ (Example.handle (Example.bare 900000))
           Example.host [] st path {| available := true; timestamp := 0 |}).
  - discriminate.
  - apply lookup_singleton_eq.
  - vm_compute. discriminate.
Defined.

(** ** Discovery and resolution *)

Section Found.
Variable host : Host.

Let records (path : str) (st' : UPicUploader) : Prop :=
  exists entry,
    availabilityCache st' !! path = Some entry /\ available entry = true.

(** What a discovery loop leaves: the instance changed in its cache only,
    and a path it found is non-empty and cached as available. *)
Let foundPost (st : UPicUploader) (found : option str) (st' : UPicUploader)
    (_ : list observed) : Prop :=
  sameButCache st st'
  /\ match found with
     | Some path => path <> [] /\ records path st'
     | None => True
     end.

Lemma sameButCache_refl (st : UPicUploader) : sameButCache st st.
Proof. repeat split. Qed.

Lemma sameButCache_trans (st1 st2 st3 : UPicUploader) :
  sameButCache st1 st2 -> sameButCache st2 st3 -> sameButCache st1 st3.
Proof.
  intros (H1 & H2 & H3) (H4 & H5 & H6). repeat split; congruence.
Qed.

Lemma test_then (path : str) (rest : M (option str)) (st : UPicUploader) :
  (forall st1, sameButCache st st1 -> always rest st1 (foundPost st1)) ->
  always
    (mbind (testUPicPath host path)
       (fun ok : bool => if ok then ret (Some path) else rest)) st
    (foundPost st).
Proof.
  intros Hrest. apply always_bind.
  eapply always_weaken; [apply testUPicPath_accepting|].
  cbv beta. intros ok st1 t1 (Hs & Hacc). destruct ok.
  - apply always_ret. split; [exact Hs|]. apply Hacc. reflexivity.
  - eapply always_weaken; [apply Hrest; exact Hs|].
    cbv beta. intros found st2 t2 (Hs' & Hfound).
    split; [eapply sameButCache_trans; eassumption | exact Hfound].
Qed.

Lemma nothing_found (st : UPicUploader) : always (ret None) st (foundPost st).
Proof. apply always_ret. split; [apply sameButCache_refl | exact I]. Qed.

Lemma detectConfigured_post (st : UPicUploader) :
  always (detectConfigured host) st (foundPost st).
Proof.
  unfold detectConfigured. apply always_bind, always_get. cbv beta.
  destruct (nonEmpty (upicPath (settings st))
            && nonEmpty (trim (upicPath (settings st)))).
  - apply test_then. intros st1 _. apply nothing_found.
  - apply nothing_found.
Qed.

Lemma detectCommon_post (paths : list str) (st : UPicUploader) :
  always (detectCommon host paths) st (foundPost st).
Proof.
  revert st. induction paths as [|path paths IH]; intros st; cbn [detectCommon].
  - apply nothing_found.
  - apply test_then. intros st1 _. apply IH.
Qed.

Lemma detectInPath_post (dirs : list str) (st : UPicUploader) :
  always (detectInPath host dirs) st (foundPost st).
Proof.
  revert st. induction dirs as [|dir dirs IH]; intros st; cbn [detectInPath].
  - apply nothing_found.
  - apply test_then. intros st1 _. apply IH.
Qed.

Lemma detectLookup_post (cmds : list str) (st : UPicUploader) :
  always (detectLookup host cmds) st (foundPost st).
Proof.
  revert st. induction cmds as [|cmd cmds IH]; intros st; cbn [detectLookup].
  - apply nothing_found.
  - apply always_bind, always_perform. intros r. cbv beta.
    destruct r as [stdout stderr|e]; [|apply IH].
    destruct (nonEmpty (firstResult stdout)
              && negb (bool_decide (firstResult stdout = js "upic not found")));
      [|apply IH].
    apply test_then. intros st1 _. apply IH.
Qed.

(** What [detectUPicPath] returns and leaves. *)
Lemma detectUPicPath_post (st : UPicUploader) :
  always (detectUPicPath host) st
    (fun paths st' _ =>
       sameButCache st st'
       /\ (paths = [] \/ exists path, paths = [path] /\ path <> [] /\ records path st')).
Proof.
  assert (Hone : forall (path : str) (st0 st1 : UPicUploader),
             sameButCache st0 st1 -> path <> [] /\ records path st1 ->
             always (ret [path]) st1
               (fun paths st' _ =>
                  sameButCache st0 st'
                  /\ (paths = []
                      \/ exists path, paths = [path] /\ path <> [] /\ records path st'))).
  { intros path st0 st1 Hs [Hne Hr]. apply always_ret. split; [exact Hs|].
    right. exists path. auto. }
  unfold detectUPicPath.
  apply always_bind.
  eapply always_weaken; [apply detectConfigured_post|]. cbv beta.
  intros configured st1 t1 (Hs1 & Hf1).
  destruct configured as [path|]; [apply Hone; assumption|].
  apply always_bind.
  eapply always_weaken; [apply detectCommon_post|]. cbv beta.
  intros common st2 t2 (Hs2 & Hf2).
  pose proof (sameButCache_trans _ _ _ Hs1 Hs2) as Hs12.
  destruct common as [path|]; [apply Hone; assumption|].
  apply always_bind.
  eapply always_weaken; [apply detectLookup_post|]. cbv beta.
  intros looked st3 t3 (Hs3 & Hf3).
  pose proof (sameButCache_trans _ _ _ Hs12 Hs3) as Hs13.
  destruct looked as [path|]; [apply Hone; assumption|].
  apply always_bind.
  eapply always_weaken; [apply detectInPath_post|]. cbv beta.
  intros found st4 t4 (Hs4 & Hf4).
  pose proof (sameButCache_trans _ _ _ Hs13 Hs4) as Hs14.
  destruct found as [path|]; [apply Hone; assumption|].
  apply always_ret. split; [exact Hs14 | left; reflexivity].
Qed.

(** What a resolution returns and leaves. *)
Let resolved (st : UPicUploader) (r : option str) (st' : UPicUploader)
    (_ : list observed) : Prop :=
  settings st' = settings st
  /\ lastCheckTime st' = lastCheckTime st
  /\ match r with
     | Some path => path <> [] /\ detectedUpicPath st' = Some path
     | None => detectedUpicPath st' = detectedUpicPath st
     end.

Lemma firstValid_post (paths : list str) (st : UPicUploader) :
  always (firstValid host paths) st (resolved st).
Proof.
  revert st. induction paths as [|path paths IH]; intros st; cbn [firstValid].
  - apply always_ret. repeat split.
  - apply always_bind.
    eapply always_weaken; [apply testUPicPath_accepting|]. cbv beta.
    intros isValid st1 t1 ((H1 & H2 & H3) & Hacc). destruct isValid.
    + apply always_bind.
      eapply always_Ret; [reflexivity|]. cbv beta.
      apply always_ret. unfold resolved. cbn [settings lastCheckTime detectedUpicPath].
      split; [exact H1|]. split; [exact H3|]. split; [|reflexivity].
      apply Hacc. reflexivity.
    + eapply always_weaken; [apply IH|]. cbv beta.
      intros r st2 t2 (H4 & H5 & H6).
      split; [congruence|]. split; [congruence|].
      destruct r as [found|]; [exact H6 | congruence].
Qed.

Lemma getAvailableUPicPath_post (st : UPicUploader) :
  always (getAvailableUPicPath host) st
    (fun r st' trace =>
       resolved st r st' trace
       /\ (r = None -> truthy (detectedUpicPath st) = false)).
Proof.
  unfold getAvailableUPicPath. apply always_bind, always_get. cbv beta.
  destruct (truthy (detectedUpicPath st)) eqn:Htruthy.
  - apply always_ret. split.
    + repeat split. destruct (detectedUpicPath st) as [[|c p]|]; try discriminate.
      split; [discriminate | reflexivity].
    + destruct (detectedUpicPath st) as [[|c p]|]; discriminate.
  - apply always_bind.
    eapply always_weaken; [apply detectUPicPath_post|]. cbv beta.
    intros paths st1 t1 ((H1 & H2 & H3) & _).
    eapply always_weaken; [apply firstValid_post|]. cbv beta.
    intros r st2 t2 (H4 & H5 & H6). split; [|reflexivity].
    split; [congruence|]. split; [congruence|].
    destruct r as [found|]; [exact H6 | congruence].
Qed.
End Found.

(** X13.  [detectUPicPath] returns no path or exactly one; a path it
    returns is non-empty and stands in the cache as available; and
    discovery changes nothing in the instance but the cache. *)
Theorem detectUPicPath_returns_at_most_one_tested_path (W : Type)
    (handle : forall X : Type, call X -> W -> X * W) (host : Host)
    (w : W) (st : UPicUploader) :
  let r := run handle (detectUPicPath host st) w in
  sameButCache st (after r)
  /\ (answer r = []
      \/ exists path,
           answer r = [path] /\ path <> []
           /\ exists entry,
                availabilityCache (after r) !! path = Some entry
                /\ available entry = true).
Proof. intros r. apply (detectUPicPath_post host st W handle w). Qed.

(** X14.  [getAvailableUPicPath] remembers what it returns and nothing
    else: a returned path is non-empty and is [detectedUpicPath]
    afterwards; when it returns [null] no tool path was remembered before
    and none is afterwards.  Settings and the time of the last check are
    never touched. *)
Theorem getAvailableUPicPath_remembers_its_answer (W : Type)
    (handle : forall X : Type, call X -> W -> X * W) (host : Host)
    (w : W) (st : UPicUploader) :
  let r := run handle (getAvailableUPicPath host st) w in
  settings (after r) = settings st
  /\ lastCheckTime (after r) = lastCheckTime st
  /\ match answer r with
     | Some path => path <> [] /\ detectedUpicPath (after r) = Some path
     | None =>
         truthy (detectedUpicPath st) = false
         /\ detectedUpicPath (after r) = detectedUpicPath st
     end.
Proof.
  intros r.
  destruct (getAvailableUPicPath_post host st W handle w) as ((H1 & H2 & H3) & H4).
  fold r in H1, H2, H3, H4.
  split; [exact H1|]. split; [exact H2|].
  destruct (answer r) as [path|]; [exact H3|]. split; [apply H4; reflexivity | exact H3].
Qed.

(** ** checkUPicAvailability *)

(** X15.  A check within five seconds of the last one is answered from
    the remembered tool path: [checkUPicAvailability] reads the clock,
    makes no other call and leaves the instance as it was, the time of the
    last check included. *)
Theorem checkUPicAvailability_throttled (W : Type)
    (handle : forall X : Type, call X -> W -> X * W) (host : Host)
    (w : W) (st : UPicUploader) :
  let now := fst (handle _ DateNow w) in
  (0 < lastCheckTime st)%Z ->
  (now - lastCheckTime st < 5000)%Z ->
  run handle (checkUPicAvailability host st) w
  = ((describe (detectedUpicPath st), st), snd (handle _ DateNow w),
     [Obs DateNow now]).
Proof.
  intros now Hlast Hsoon. subst now.
  unfold checkUPicAvailability. rewrite run_mbind, run_lift_perform.
  destruct (handle _ DateNow w) as [now w1]. cbn [fst snd] in *.
  rewrite run_mbind. cbn [get run fst snd].
  assert (H1 : (lastCheckTime st >? 0)%Z = true) by (apply Z.gtb_lt; lia).
  assert (H2 : (now - lastCheckTime st <? 5000)%Z = true) by (apply Z.ltb_lt; lia).
  rewrite H1, H2. reflexivity.
Qed.

Lemma checkUPicAvailability_throttled_witness :
  let st :=
    {| settings := Example.defaultSettings;
       detectedUpicPath := Some (js "/usr/local/bin/upic");
       lastCheckTime := 1000;
       availabilityCache := ∅ |} in
  run (Example.handle (Example.bare 3000)) (checkUPicAvailability Example.host st) []
  = ((describe (Some (js "/usr/local/bin/upic")), st), [], [Obs DateNow 3000%Z]).
Proof.
  intros st.
  apply (checkUPicAvailability_throttled _ (Example.handle (Example.bare 3000))
           Example.host [] st); vm_compute; reflexivity.
Defined.

(** X16.  The report of [checkUPicAvailability] agrees with the instance
    it leaves: it says available exactly when a non-empty tool path is
    remembered afterwards, and then names that path in [path] and in the
    message; otherwise it carries no path and the not-found message.  The
    settings are never touched. *)
Theorem checkUPicAvailability_reports_remembered_path (W : Type)
    (handle : forall X : Type, call X -> W -> X * W) (host : Host)
    (w : W) (st : UPicUploader) :
  let r := run handle (checkUPicAvailability host st) w in
  settings (after r) = settings st
  /\ avail_available (answer r) = truthy (detectedUpicPath (after r))
  /\ (if avail_available (answer r) then
        avail_path (answer r) = detectedUpicPath (after r)
        /\ exists path,
             avail_path (answer r) = Some path
             /\ avail_message (answer r) = js "uPic is available at: " ++ path
      else
        avail_path (answer r) = None
        /\ avail_message (answer r) = notFoundMessage).
Proof.
  intros r. subst r.
  assert (H : always (checkUPicAvailability host) st
    (fun a st' _ =>
       settings st' = settings st
       /\ avail_available a = truthy (detectedUpicPath st')
       /\ (if avail_available a then
             avail_path a = detectedUpicPath st'
             /\ exists path,
                  avail_path a = Some path
                  /\ avail_message a = js "uPic is available at: " ++ path
           else avail_path a = None /\ avail_message a = notFoundMessage))).
  { unfold checkUPicAvailability.
    apply always_bind, always_perform. intros now. cbv beta.
    apply always_bind, always_get. cbv beta.
    destruct ((lastCheckTime st >? 0)%Z && (now - lastCheckTime st <? 5000)%Z).
    - apply always_ret. split; [reflexivity|].
      destruct (detectedUpicPath st) as [[|c p]|]; cbn; eauto.
    - apply always_bind.
      eapply always_weaken; [apply getAvailableUPicPath_post|]. cbv beta.
      intros path st1 t1 ((H1 & H2 & H3) & H4).
      apply always_bind. eapply always_Ret; [reflexivity|]. cbv beta.
      apply always_ret. cbn [settings detectedUpicPath].
      split; [exact H1|].
      destruct path as [[|c p]|].
      + destruct H3 as [H3 _]. congruence.
      + destruct H3 as [_ ->]. cbn. eauto.
      + rewrite H3, (H4 eq_refl). cbn. auto. }
  apply (H W handle w).
Qed.

(** ** performPeriodicCheck *)

(** X17.  The periodic check does nothing within [0.8 * checkInterval]
    (48 s) of the last check but read the clock; past that, when the
    process check finds the tool running, it notes the time of the check
    and stops: no discovery, no test command, no file check. *)
Theorem performPeriodicCheck_quiet_or_running (W : Type)
    (handle : forall X : Type, call X -> W -> X * W) (host : Host)
    (w : W) (st : UPicUploader) :
  let now := fst (handle _ DateNow w) in
  let w1 := snd (handle _ DateNow w) in
  let check := ExecAsync (processCheckCommand host) 3000 in
  if (now - lastCheckTime st <? 48000)%Z then
    run handle (UploaderRest.performPeriodicCheck host st) w
    = ((tt, st), w1, [Obs DateNow now])
  else if findsRunning host handle w1 then
    run handle (UploaderRest.performPeriodicCheck host st) w
    = ((tt,
        {| settings := settings st;
           detectedUpicPath := detectedUpicPath st;
           lastCheckTime := now;
           availabilityCache := availabilityCache st |}),
       snd (handle _ check w1),
       [Obs DateNow now; Obs check (fst (handle _ check w1))])
  else True.
Proof.
  intros now w1 check. subst now w1 check.
  unfold UploaderRest.performPeriodicCheck. rewrite run_mbind, run_lift_perform.
  destruct (handle _ DateNow w) as [now w1]. cbn [fst snd].
  rewrite run_mbind. cbn [get run fst snd]. unfold UploaderRest.quietWindow.
  destruct (now - lastCheckTime st <? 48000)%Z; [reflexivity|].
  unfold findsRunning.
  rewrite run_mbind. unfold isUPicProcessRunning, lift.
  rewrite !run_bind. cbn [perform run].
  destruct (handle _ (ExecAsync (processCheckCommand host) 3000) w1) as [r w2].
  cbn [fst snd].
  destruct r as [stdout stderr|e]; [|exact I].
  cbn [run fst snd app].
  destruct (positiveCount (parseInt (trim stdout))); [reflexivity | exact I].
Qed.

(** ** uploadFile *)

Lemma always_bind_any {A B : Type} (m : M A) (f : A -> M B) (st : UPicUploader)
    (Q : B -> UPicUploader -> list observed -> Prop) :
  (forall a st1 t1, always (f a) st1 (fun b st2 t2 => Q b st2 (t1 ++ t2))) ->
  always (mbind m f) st Q.
Proof.
  intros H. apply always_bind. intros W handle w. apply H.
Qed.

Lemma always_notify (message : str) (st : UPicUploader)
    (Q : unit -> UPicUploader -> list observed -> Prop) :
  Q tt st [] -> Q tt st [Obs (NewNotice message) tt] ->
  always (notify message) st Q.
Proof.
  intros H0 H1. unfold notify. apply always_bind, always_get. cbv beta.
  destruct (showNotifications (settings st)).
  - apply always_perform. intros []. exact H1.
  - apply always_ret. exact H0.
Qed.

(** X18.  With a tool path remembered, [uploadFile] spawns exactly one
    command, the upload command for that path and the given file, with
    [uploadTimeout] seconds as its timeout; there is no discovery, and the
    instance is left as it was. *)
Theorem uploadFile_with_remembered_path_spawns_once (W : Type)
    (handle : forall X : Type, call X -> W -> X * W) (host : Host)
    (w : W) (st : UPicUploader) (path filePath : str) :
  isDesktop host = true ->
  detectedUpicPath st = Some path ->
  path <> [] ->
  let r := run handle (uploadFile host filePath st) w in
  after r = st
  /\ exists outcome,
       List.filter isExec (calls r)
       = [Obs (ExecAsync (uploadCommand path filePath)
                 (uploadTimeout (settings st) * 1000)) outcome].
Proof.
  intros Hdesktop Hpath Hne r. subst r.
  assert (H : always (uploadFile host filePath) st
    (fun _ st' trace =>
       st' = st
       /\ exists outcome,
            List.filter isExec trace
            = [Obs (ExecAsync (uploadCommand path filePath)
                      (uploadTimeout (settings st) * 1000)) outcome])).
  { destruct path as [|c p]; [congruence|].
    unfold uploadFile. rewrite Hdesktop. cbn [negb].
    apply always_bind. unfold uploadFile_try.
    apply always_bind. unfold getAvailableUPicPath.
    apply always_bind, always_get. cbv beta. rewrite Hpath. cbn [truthy].
    apply always_ret. cbv beta.
    apply always_bind, always_notify;
      (apply always_bind, always_get; cbv beta;
       apply always_bind, always_perform; intros outcome; cbv beta;
       destruct outcome as [stdout stderr|e];
       [ destruct (negb (truthy (parseUploadOutput stdout)));
         [ apply always_ret, always_ret; cbn; eauto
         | apply always_bind, always_notify; apply always_ret, always_ret; cbn; eauto ]
       | apply always_ret; unfold uploadFile_catch;
         apply always_bind, always_notify; apply always_ret; cbn; eauto ]). }
  apply (H W handle w).
Qed.

Lemma uploadFile_with_remembered_path_spawns_once_witness :
  let st :=
    {| settings := Example.defaultSettings;
       detectedUpicPath := Some (js "/usr/local/bin/upic");
       lastCheckTime := 0;
       availabilityCache := ∅ |} in
  let r :=
    run (Example.handle (Example.installed 0 (Resolved (js "https://x.test/a.png") [])))
      (uploadFile Example.host (js "/tmp/a.png") st) [] in
  after r = st
  /\ exists outcome,
       List.filter isExec (calls r)
       = [Obs (ExecAsync (uploadCommand (js "/usr/local/bin/upic") (js "/tmp/a.png"))
                 (30 * 1000)) outcome].
Proof.
  intros st.
  apply (uploadFile_with_remembered_path_spawns_once _
           (Example.handle
              (Example.installed 0 (Resolved (js "https://x.test/a.png") [])))
           Example.host [] st (js "/usr/local/bin/upic") (js "/tmp/a.png")).
  - reflexivity.
  - reflexivity.
  - discriminate.
Defined.

(** *** The scheme of a parsed URL *)

Lemma star_result {A : Type} (k : cls) (prev : option N) (s : str)
    (caps : list str) (kont : cont) (a : A) :
  star k prev s caps kont = Some a ->
  exists prev' s',
    kont prev' s' caps = Some a /\ (length s' <= length s)%nat.
Proof.
  revert prev. induction s as [|c s IH]; intros prev H; cbn [star] in H.
  - exists prev, []. auto.
  - destruct (cls_ok k c).
    + destruct (star k (Some c) s caps kont) as [a'|] eqn:E.
      * injection H as <-. destruct (IH _ E) as (prev' & s' & Hk & Hlen).
        exists prev', s'. cbn [length]. split; [exact Hk | lia].
      * exists prev, (c :: s). auto.
    + exists prev, (c :: s). auto.
Qed.

Lemma startsWith_take (s p : str) (n : nat) :
  startsWith s p = true -> (length p <= n)%nat -> startsWith (take n s) p = true.
Proof.
  intros H Hn. destruct (startsWith_inv _ _ H) as [rest ->].
  rewrite take_app_ge by exact Hn. apply startsWith_app.
Qed.

Lemma stripPrefix_inv (l s rest : str) :
  stripPrefix l s = Some rest -> s = l ++ rest.
Proof.
  rewrite stripPrefix_startsWith. destruct (startsWith s l) eqn:E; [|discriminate].
  intros H. injection H as <-. destruct (startsWith_inv _ _ E) as [rest ->].
  rewrite drop_app_length. reflexivity.
Qed.

(** The part of the URL pattern after the optional [s]. *)
Lemma url_tail (full s2 : str) (prev : option N) (caps caps' : list str)
    (len : nat) (finish : str -> list str -> list str) :
  walk (Seq (Lit (js "://")) (Plus NotSpace)) prev s2 caps
    (fun _ s' caps'' => Some ((length full - length s')%nat, finish s' caps''))
  = Some (len, caps') ->
  exists rest s' : str,
    s2 = js "://" ++ rest
    /\ len = (length full - length s')%nat
    /\ (length s' < length rest)%nat.
Proof.
  cbn [walk]. destruct (stripPrefix (js "://") s2) as [rest|] eqn:E; [|discriminate].
  apply stripPrefix_inv in E. destruct rest as [|c rest]; [discriminate|].
  destruct (cls_ok NotSpace c); [|discriminate].
  intros H. apply star_result in H as (prev' & s' & Hk & Hlen).
  injection Hk as <- _. exists (c :: rest), s'. cbn [length]. repeat split; [exact E | lia].
Qed.

Lemma exec_at_urlRegex_scheme (prev : option N) (s : str) (len : nat)
    (caps : list str) :
  exec_at urlRegex prev s = Some (len, caps) -> hasScheme (take len s) = true.
Proof.
  unfold exec_at, urlRegex. cbn [walk].
  destruct (stripPrefix (js "http") s) as [s1|] eqn:E; [|discriminate].
  apply stripPrefix_inv in E. subst s.
  assert (Hplain :
    forall prev',
      walk (Seq (Lit (js "://")) (Plus NotSpace)) prev' s1 [[]]
        (fun _ s' caps'' =>
           Some ((length (js "http" ++ s1) - length s')%nat,
                 <[0%nat := take (length (js "http" ++ s1) - length s')
                              (js "http" ++ s1)]> caps''))
      = Some (len, caps) ->
      hasScheme (take len (js "http" ++ s1)) = true).
  { intros prev' H.
    apply (url_tail (js "http" ++ s1) s1 prev' [[]] caps len
             (fun s' caps'' =>
                <[0%nat := take (length (js "http" ++ s1) - length s')
                             (js "http" ++ s1)]> caps'')) in H.
    destruct H as (rest & s' & -> & -> & Hlen).
    unfold hasScheme. apply orb_true_iff. left.
    apply startsWith_take; [reflexivity|].
    rewrite !length_app. cbn [length js map list_ascii_of_string]. cbn. lia. }
  cbn [walk] in Hplain.
  destruct s1 as [|c s2]; [intros H; exact (Hplain None H)|].
  destruct (cls_ok (Only 115) c) eqn:Ec; [|intros H; exact (Hplain None H)].
  cbn [cls_ok] in Ec. apply N.eqb_eq in Ec. subst c.
  match goal with
  | |- match ?x with Some a => Some a | None => _ end = _ -> _ =>
      destruct x as [[len' caps']|] eqn:Es
  end; [|intros H; exact (Hplain None H)].
  intros H. injection H as -> ->.
  apply (url_tail (js "http" ++ 115 :: s2) s2 (Some 115) [[]] caps len
           (fun s' caps'' =>
              <[0%nat := take (length (js "http" ++ 115 :: s2) - length s')
                           (js "http" ++ 115 :: s2)]> caps'')) in Es.
  destruct Es as (rest & s' & -> & -> & Hlen).
  unfold hasScheme. apply orb_true_iff. right.
  apply startsWith_take; [reflexivity|].
  rewrite !length_app. cbn [length js map list_ascii_of_string]. cbn. lia.
Qed.

Lemma matchAll_from_exec (r : regex) (s : str) (skip : nat) (prev : option N)
    (x : str) :
  In x (matchAll_from r skip prev s) ->
  exists prev' s' len caps, exec_at r prev' s' = Some (len, caps) /\ x = take len s'.
Proof.
  revert skip prev. induction s as [|c s IH]; intros skip prev H.
  - destruct skip; cbn [matchAll_from] in H; [|destruct H].
    destruct (exec_at r prev []) as [[len caps]|] eqn:E; [|destruct H].
    destruct H as [<-|[]]. exists prev, [], len, caps. auto.
  - destruct skip; cbn [matchAll_from] in H; [|eapply IH; exact H].
    destruct (exec_at r prev (c :: s)) as [[len caps]|] eqn:E;
      [|eapply IH; exact H].
    destruct H as [<-|H]; [|eapply IH; exact H].
    exists prev, (c :: s), len, caps. auto.
Qed.

Lemma firstUrlLine_scheme (lines : list str) (u : str) :
  firstUrlLine lines = Some u -> hasScheme u = true.
Proof.
  induction lines as [|line lines IH]; [discriminate|].
  cbn [firstUrlLine].
  destruct (startsWith (trim line) (js "http://")
            || startsWith (trim line) (js "https://")) eqn:E; [|exact IH].
  intros H. injection H as <-. exact E.
Qed.

Lemma parseUploadOutput_scheme (output u : str) :
  parseUploadOutput output = Some u -> hasScheme u = true.
Proof.
  unfold parseUploadOutput.
  destruct (negb (nonEmpty output) || negb (nonEmpty (trim output))); [discriminate|].
  destruct (firstUrlLine (split (trim output) 10)) as [line|] eqn:E.
  - intros H. injection H as <-. exact (firstUrlLine_scheme _ _ E).
  - destruct (matchAll urlRegex output) as [|first rest] eqn:Em; [discriminate|].
    intros H. injection H as <-.
    destruct (matchAll_from_exec urlRegex output 0 None first)
      as (prev' & s' & len & caps & Hexec & ->).
    { unfold matchAll in Em. rewrite Em. left. reflexivity. }
    exact (exec_at_urlRegex_scheme _ _ _ _ Hexec).
Qed.

(** What every result of [uploadFile] satisfies. *)
Lemma uploadFile_post (host : Host) (filePath : str) (st : UPicUploader) :
  always (uploadFile host filePath) st
    (fun result _ _ =>
       originalPath result = filePath
       /\ (success result = true ->
           exists u, url result = Some u /\ hasScheme u = true)).
Proof.
  unfold uploadFile.
  destruct (negb (isDesktop host));
    [apply always_ret; split; [reflexivity | discriminate]|].
  apply always_bind.
  assert (Htry : always (uploadFile_try host filePath) st
    (fun r _ _ =>
       match r with
       | inr result =>
           originalPath result = filePath
           /\ (success result = true ->
               exists u, url result = Some u /\ hasScheme u = true)
       | inl _ => True
       end)).
  { unfold uploadFile_try. apply always_bind_any. intros availableUpicPath st1 t1.
    destruct availableUpicPath as [[|c p]|].
    - apply always_bind_any. intros a st2 t2. apply always_ret.
      split; [reflexivity | discriminate].
    - apply always_bind_any. intros [] st2 t2.
      apply always_bind_any. intros st3 st4 t4.
      apply always_bind, always_perform. intros outcome. cbv beta.
      destruct outcome as [stdout stderr|e]; [|apply always_ret; exact I].
      destruct (parseUploadOutput stdout) as [[|d u]|] eqn:Eparse; cbn [truthy negb].
      + apply always_ret. split; [reflexivity | discriminate].
      + apply always_bind_any. intros [] st5 t5. apply always_ret.
        split; [reflexivity|]. intros _. exists (d :: u).
        split; [reflexivity | exact (parseUploadOutput_scheme _ _ Eparse)].
      + apply always_ret. split; [reflexivity | discriminate].
    - apply always_bind_any. intros a st2 t2. apply always_ret.
      split; [reflexivity | discriminate]. }
  eapply always_weaken; [exact Htry|]. cbv beta.
  intros [e|result] st1 t1 H.
  - unfold uploadFile_catch. apply always_bind_any. intros [] st2 t2.
    apply always_ret. split; [reflexivity | discriminate].
  - apply always_ret. exact H.
Qed.

(** X19.  Whatever the tool prints, a URL that [parseUploadOutput]
    returns begins with [http://] or [https://], and so does the URL of
    every successful result of [uploadFile]. *)
Theorem uploaded_url_has_a_scheme (W : Type)
    (handle : forall X : Type, call X -> W -> X * W) (host : Host)
    (w : W) (st : UPicUploader) (filePath output : str) :
  match parseUploadOutput output with
  | Some u => hasScheme u = true
  | None => True
  end
  /\ (let result := answer (run handle (uploadFile host filePath st) w) in
      if success result then exists u, url result = Some u /\ hasScheme u = true
      else True).
Proof.
  split.
  - destruct (parseUploadOutput output) as [u|] eqn:E; [|exact I].
    exact (parseUploadOutput_scheme _ _ E).
  - intros result. subst result.
    destruct (uploadFile_post host filePath st W handle w) as [_ H].
    destruct (success (answer (run handle (uploadFile host filePath st) w)));
      [apply H; reflexivity | exact I].
Qed.

(** X20.  [uploadFiles] returns one result per path, in the order of the
    paths, each naming its own path; a failed upload does not end the
    batch. *)
Theorem uploadFiles_one_result_per_path (W : Type)
    (handle : forall X : Type, call X -> W -> X * W) (host : Host)
    (w : W) (st : UPicUploader) (filePaths : list str) :
  map originalPath (answer (run handle (UploaderRest.uploadFiles host filePaths st) w))
  = filePaths.
Proof.
  assert (H : always (UploaderRest.uploadFiles host filePaths) st
                (fun results _ _ => map originalPath results = filePaths)).
  { revert st. induction filePaths as [|filePath rest IH]; intros st;
      cbn [UploaderRest.uploadFiles].
    - apply always_ret. reflexivity.
    - apply always_bind.
      eapply always_weaken; [apply uploadFile_post|]. cbv beta.
      intros result st1 t1 [Hpath _].
      apply always_bind.
      eapply always_weaken; [apply IH|]. cbv beta.
      intros results st2 t2 Hrest.
      apply always_ret. cbn [map]. rewrite Hpath, Hrest. reflexivity. }
  apply (H W handle w).
Qed.

(** ** The cleaner against the longer window *)

(** X21.  An available entry between ten and twenty minutes old is
    still returned by [getCachedAvailability], but [cleanExpiredCache]
    run at the same reading of the clock drops it, and the next lookup
    finds nothing. *)
Theorem cleaning_cuts_the_positive_window (W : Type)
    (handle : forall X : Type, call X -> W -> X * W)
    (w : W) (st : UPicUploader) (path : str) (entry : cached) :
  let now := fst (handle _ DateNow w) in
  availabilityCache st !! path = Some entry ->
  available entry = true ->
  (cacheTimeout < now - timestamp entry <= 2 * cacheTimeout)%Z ->
  answer (run handle (getCachedAvailability path st) w) = Some true
  /\ availabilityCache (cleanExpiredCache now st) !! path = None
  /\ run handle (getCachedAvailability path (cleanExpiredCache now st)) w
     = ((None, cleanExpiredCache now st), w, []).
Proof.
  intros now Hentry Havail Hage. subst now.
  assert (Hgone : availabilityCache (cleanExpiredCache (fst (handle Z DateNow w)) st)
                    !! path = None).
  { apply (cleanExpiredCache_drops_old _ _ _ entry Hentry). lia. }
  split; [|split; [exact Hgone|]].
  - unfold answer, getCachedAvailability. rewrite Hentry. cbn [run].
    destruct (handle Z DateNow w) as [now w1]. cbn [fst] in *.
    rewrite Havail.
    destruct (Z.gtb_spec (now - timestamp entry) (cacheTimeout * 2)) as [Hgt|_];
      [lia|reflexivity].
  - unfold getCachedAvailability at 1. rewrite Hgone. reflexivity.
Qed.

Lemma cleaning_cuts_the_positive_window_witness :
  let path := js "/usr/local/bin/upic" in
  let st :=
    {| settings := Example.defaultSettings;
       detectedUpicPath := None;
       lastCheckTime := 0;
       availabilityCache := {[ path := {| available := true; timestamp := 0 |} ]} |} in
  let handle := Example.handle (Example.bare 900000) in
  answer (run handle (getCachedAvailability path st) []) = Some true
  /\ availabilityCache (cleanExpiredCache 900000 st) !! path = None
  /\ run handle (getCachedAvailability path (cleanExpiredCache 900000 st)) []
     = ((None, cleanExpiredCache 900000 st), [], []).
Proof.
  intros path st handle.
  apply (cleaning_cuts_the_positive_window _ handle [] st path
           {| available := true; timestamp := 0 |}).
  - apply lookup_singleton_eq.
  - reflexivity.
  - vm_compute. split; [reflexivity | discriminate].
Defined.

(** ** isImageFile *)

Lemma split_without_sep (s : str) (sep : N) :
  ~ In sep s -> split s sep = [s].
Proof.
  induction s as [|c s IH]; intros H; [reflexivity|].
  cbn [split]. destruct (N.eqb_spec c sep) as [->|Hc].
  - exfalso. apply H. left. reflexivity.
  - rewrite IH; [reflexivity|]. intros Hin. apply H. right. exact Hin.
Qed.

Lemma split_at_sep (a b : str) (sep : N) :
  split (a ++ sep :: b) sep = split a sep ++ split b sep.
Proof.
  induction a as [|c a IH].
  - cbn [app split]. rewrite N.eqb_refl. reflexivity.
  - cbn [app split]. destruct (c =? sep).
    + rewrite IH. reflexivity.
    + rewrite IH. destruct (split_nonempty a sep) as (l & ls & ->). reflexivity.
Qed.

(** X22.  [isImageFile] judges a path by what follows its last dot,
    lower-cased; a path without any dot is taken whole as its own
    extension, so a file named like a format passes. *)
Theorem isImageFile_reads_after_the_last_dot (host : Host)
    (supportedFormats : list str) (stem ext : str) :
  ~ In 46 ext ->
  let verdict :=
    nonEmpty (toLowerCase host ext)
    && bool_decide (toLowerCase host ext ∈ supportedFormats) in
  UploaderRest.isImageFile host supportedFormats (stem ++ 46 :: ext) = verdict
  /\ UploaderRest.isImageFile host supportedFormats ext = verdict.
Proof.
  intros Hext verdict. subst verdict. unfold UploaderRest.isImageFile.
  rewrite split_at_sep, (split_without_sep ext 46 Hext), last_snoc.
  cbn [last]. split; destruct (nonEmpty (toLowerCase host ext)); reflexivity.
Qed.

Lemma isImageFile_reads_after_the_last_dot_witness :
  UploaderRest.isImageFile Example.host [js "png"; js "jpg"] (js "shots/a.b.PNG") = true
  /\ UploaderRest.isImageFile Example.host [js "png"; js "jpg"] (js "PNG") = true.
Proof.
  apply (isImageFile_reads_after_the_last_dot Example.host [js "png"; js "jpg"]
           (js "shots/a.b") (js "PNG")).
  vm_compute. intros H. repeat (destruct H as [H|H]; [discriminate H|]). exact H.
Defined.

(** ** Staging *)

Section StagingMore.
Context {W : Type} (handle : forall X : Type, call X -> W -> X * W).
Variable host : Host.

(** X23.  On the desktop [createTempFile] first awaits
    [file.arrayBuffer()].  When that rejects, the rejection leaves the
    function and nothing else is called.  Otherwise it writes exactly
    once, the bytes it was handed, and returns the path it wrote to; when
    the write throws, the throw leaves the function. *)
Theorem createTempFile_writes_the_bytes_once (file : File) (w : W) :
  isDesktop host = true ->
  let '(result, _, trace) := run handle (Staging.createTempFile host file) w in
  match fst (handle _ (ArrayBuffer file) w) with
  | inl e => result = inl e /\ trace = [Obs (ArrayBuffer file) (inl e)]
  | inr bytes =>
      exists target outcome,
        List.filter isWrite trace = [Obs (WriteFile target bytes) outcome]
        /\ result = match outcome with Some e => inl e | None => inr target end
  end.
Proof.
  intros Hdesktop. unfold Staging.createTempFile. rewrite Hdesktop. cbn [negb].
  cbn [bind perform run].
  destruct (handle _ (ArrayBuffer file) w) as [[e|bytes] w0]; cbn [fst].
  - cbn [run]. split; reflexivity.
  - cbn [bind perform run].
    destruct (handle _ (FsAccess (pathJoin host (tmpdir host) (file_name file))) w0)
      as [present w1].
    destruct present; cbn [bind run].
    + destruct (handle _ DateNow w1) as [now w2]. cbn [bind run].
      destruct (handle _ (WriteFile _ bytes) w2) as [outcome w3].
      destruct outcome; cbn [run]; eexists _, _; split; reflexivity.
    + destruct (handle _ (WriteFile _ bytes) w1) as [outcome w2].
      destruct outcome; cbn [run]; eexists _, _; split; reflexivity.
Qed.

(** X24.  When [file.arrayBuffer()] resolves, and the name is taken in
    the temp directory and has an extension, the file is written under a
    new name: the time stamp of the clock goes in front of the last dot,
    and the new name differs from the taken one. *)
Theorem createTempFile_stamps_before_the_extension (file : File)
    (stem ext : str) (w w0 : W) (bytes : list Byte.byte) :
  isDesktop host = true ->
  handle _ (ArrayBuffer file) w = (inr bytes, w0) ->
  file_name file = stem ++ 46 :: ext ->
  ~ In 46 ext ->
  fst (handle _ (FsAccess (pathJoin host (tmpdir host) (file_name file))) w0) = true ->
  let '(result, _, trace) := run handle (Staging.createTempFile host file) w in
  exists now outcome,
    let name := stem ++ js "_" ++ showZ now ++ 46 :: ext in
    trace
    = [Obs (ArrayBuffer file) (inr bytes);
       Obs (FsAccess (pathJoin host (tmpdir host) (file_name file))) true;
       Obs DateNow now;
       Obs (WriteFile (pathJoin host (tmpdir host) name) bytes) outcome]
    /\ (outcome = None -> result = inr (pathJoin host (tmpdir host) name))
    /\ name <> file_name file.
Proof.
  intros Hdesktop Hbuffer Hname Hext Htaken.
  destruct (createTempFile_taken_name handle host file stem ext w w0 bytes
              Hdesktop Hbuffer Hname Hext Htaken) as (now & outcome & w' & E).
  cbv zeta in E. rewrite E. exists now, outcome. cbv zeta.
  split; [reflexivity|]. split.
  - intros ->. reflexivity.
  - rewrite Hname. intros Heq. apply app_inv_head in Heq. discriminate Heq.
Qed.
End StagingMore.

Lemma createTempFile_writes_the_bytes_once_witness :
  let file := mkFile (js "a.png") 2 0 [Byte.x89; Byte.x50] in
  let handle := Example.handle (Example.bare 5) in
  let '(result, _, trace) := run handle (Staging.createTempFile Example.host file) [] in
  match fst (handle _ (ArrayBuffer file) []) with
  | inl e => result = inl e /\ trace = [Obs (ArrayBuffer file) (inl e)]
  | inr bytes =>
      exists target outcome,
        List.filter isWrite trace = [Obs (WriteFile target bytes) outcome]
        /\ result = match outcome with Some e => inl e | None => inr target end
  end.
Proof.
  intros file handle.
  apply (createTempFile_writes_the_bytes_once handle Example.host file []).
  reflexivity.
Defined.

Lemma createTempFile_stamps_before_the_extension_witness :
  let file := mkFile (js "a.png") 2 0 [Byte.x89; Byte.x50] in
  let handle := Example.handle (Example.withTmpFiles 1700000000000 [js "a.png"]) in
  let '(result, _, trace) := run handle (Staging.createTempFile Example.host file) [] in
  exists now outcome,
    let name := js "a" ++ js "_" ++ showZ now ++ 46 :: js "png" in
    trace
    = [Obs (ArrayBuffer file) (inr (file_bytes file));
       Obs (FsAccess (pathJoin Example.host (tmpdir Example.host) (file_name file))) true;
       Obs DateNow now;
       Obs (WriteFile (pathJoin Example.host (tmpdir Example.host) name)
              (file_bytes file)) outcome]
    /\ (outcome = None ->
        result = inr (pathJoin Example.host (tmpdir Example.host) name))
    /\ name <> file_name file.
Proof.
  intros file handle.
  apply (createTempFile_stamps_before_the_extension handle Example.host file
           (js "a") (js "png") [] [] (file_bytes file)).
  - reflexivity.
  - reflexivity.
  - reflexivity.
  - vm_compute. intros H. repeat (destruct H as [H|H]; [discriminate H|]). exact H.
  - vm_compute. reflexivity.
Defined.

(** ** De-duplication: what a call does to the set *)

(** X25.  A call of [processImageFile] for a file that is not being
    processed marks it, and its settling, however it ends, leaves
    [processingFiles] exactly as the call found it; and no call and no
    settling adds or removes the fingerprint of another file. *)
Theorem processingFiles_restored_and_framed (file : File) (pf : gset str)
    (isDesktop : bool) (how : ending) :
  (fileId file ∉ pf ->
   processImageFile_call true file pf = (Begun, {[fileId file]} ∪ pf)
   /\ processImageFile_settle how file (snd (processImageFile_call true file pf)) = pf)
  /\ (forall other, other <> fileId file ->
        (other ∈ snd (processImageFile_call isDesktop file pf) <-> other ∈ pf)
        /\ (other ∈ processImageFile_settle how file pf <-> other ∈ pf)).
Proof.
  split.
  - intros Hnew. unfold processImageFile_call. rewrite (tryHead_new _ _ Hnew).
    split; [reflexivity|]. cbn [snd].
    assert (Hall : finallyBlock file ({[fileId file]} ∪ pf) = pf).
    { unfold finallyBlock. apply set_eq. intros x.
      rewrite elem_of_difference, elem_of_union, !elem_of_singleton.
      split.
      - intros [[->|Hx] Hne]; [congruence | exact Hx].
      - intros Hx. split; [right; exact Hx|]. intros ->. contradiction. }
    destruct how; exact Hall.
  - intros other Hother. split.
    + unfold processImageFile_call, tryHead.
      destruct isDesktop; cbn [negb].
      * destruct (decide (fileId file ∈ pf)); cbn [snd]; unfold finallyBlock.
        -- rewrite elem_of_difference, elem_of_singleton. tauto.
        -- rewrite elem_of_union, elem_of_singleton. tauto.
      * cbn [snd]. unfold finallyBlock.
        rewrite elem_of_difference, elem_of_singleton. tauto.
    + destruct how; unfold processImageFile_settle, finallyBlock;
        rewrite elem_of_difference, elem_of_singleton; tauto.
Qed.

Lemma processingFiles_restored_and_framed_witness :
  let file := mkFile (js "a.png") 1 2 [] in
  processImageFile_call true file ∅ = (Begun, {[fileId file]} ∪ ∅)
  /\ processImageFile_settle Uploaded file (snd (processImageFile_call true file ∅)) = ∅.
Proof.
  intros file.
  apply (proj1 (processingFiles_restored_and_framed file ∅ true Uploaded)).
  apply not_elem_of_empty.
Defined.

(** ** SettingsManager.validateSettings *)

Section ValidateSettings.
Import Settings.

Lemma prop_assign_same (o : settingsObject) (key : string) (v : jsval) :
  prop (assign o key v) key = v.
Proof. unfold prop, assign. rewrite lookup_insert_eq. reflexivity. Qed.

Lemma prop_assign_other (o : settingsObject) (key key' : string) (v : jsval) :
  js key <> js key' -> prop (assign o key v) key' = prop o key'.
Proof. intros H. unfold prop, assign. rewrite lookup_insert_ne by exact H. reflexivity. Qed.

Lemma lookup_assign_other (o : settingsObject) (key : string) (v : jsval) (k : str) :
  k <> js key -> assign o key v !! k = o !! k.
Proof. intros H. unfold assign. apply lookup_insert_ne. congruence. Qed.

Ltac keys_differ :=
  let H := fresh in intros H; vm_compute in H; discriminate H.

(** Each check writes its own property and no other. *)
Lemma validateUpicPath_frame (o : settingsObject) (k : str) :
  k <> js "upicPath" -> validateUpicPath o !! k = o !! k.
Proof.
  intros H. unfold validateUpicPath.
  destruct (_ || _); [apply lookup_assign_other; exact H | reflexivity].
Qed.

Lemma validateUploadTimeout_frame (o : settingsObject) (k : str) :
  k <> js "uploadTimeout" -> validateUploadTimeout o !! k = o !! k.
Proof.
  intros H. unfold validateUploadTimeout.
  destruct (_ || _); [apply lookup_assign_other; exact H | reflexivity].
Qed.

Lemma validateSupportedFormats_frame (o : settingsObject) (k : str) :
  k <> js "supportedFormats" -> validateSupportedFormats o !! k = o !! k.
Proof.
  intros H. unfold validateSupportedFormats.
  destruct (prop o "supportedFormats");
    try (apply lookup_assign_other; exact H).
  destruct (length items =? 0)%nat; [apply lookup_assign_other; exact H|].
  destruct (negb _); [apply lookup_assign_other; exact H | reflexivity].
Qed.

Lemma validateBoolean_frame (key : string) (o : settingsObject) (k : str) :
  k <> js key -> validateBoolean key o !! k = o !! k.
Proof.
  intros H. unfold validateBoolean.
  destruct (negb _); [apply lookup_assign_other; exact H | reflexivity].
Qed.

Lemma prop_frame (f : settingsObject -> settingsObject) (o : settingsObject)
    (key : string) :
  f o !! js key = o !! js key -> prop (f o) key = prop o key.
Proof. intros H. unfold prop. rewrite H. reflexivity. Qed.

(** Each check leaves its own property in order. *)
Lemma validateUpicPath_good (o : settingsObject) :
  exists path, prop (validateUpicPath o) "upicPath" = VString path /\ path <> [].
Proof.
  unfold validateUpicPath.
  destruct (falsy (prop o "upicPath") || negb (isType (prop o "upicPath") "string"))
    eqn:E.
  - rewrite prop_assign_same. exists defaultUpicPath. split; [|discriminate].
    vm_compute. reflexivity.
  - apply orb_false_iff in E as [E1 E2].
    destruct (prop o "upicPath") as [| |b|n|s|items|fields]; try discriminate E2.
    exists s. split; [reflexivity|]. destruct s; [discriminate E1 | discriminate].
Qed.

Lemma validateUploadTimeout_good (o : settingsObject) :
  exists n,
    prop (validateUploadTimeout o) "uploadTimeout" = VNumber n
    /\ falsy (VNumber n) = false /\ leZero n = false.
Proof.
  unfold validateUploadTimeout.
  destruct (falsy (prop o "uploadTimeout")
            || negb (isType (prop o "uploadTimeout") "number")
            || match prop o "uploadTimeout" with
               | VNumber n => leZero n
               | _ => false
               end) eqn:E.
  - rewrite prop_assign_same. exists (Finite 30 0).
    split; [vm_compute; reflexivity|]. split; reflexivity.
  - apply orb_false_iff in E as [E E3]. apply orb_false_iff in E as [E1 E2].
    destruct (prop o "uploadTimeout") as [| |b|n|s|items|fields]; try discriminate E2.
    exists n. auto.
Qed.

Lemma defaultFormats_valid :
  Forall (fun format => isValidFormat format = true) defaultFormats.
Proof. repeat constructor. Qed.

Lemma validateSupportedFormats_good (o : settingsObject) :
  exists formats,
    prop (validateSupportedFormats o) "supportedFormats" = VArray formats
    /\ formats <> []
    /\ Forall (fun format => isValidFormat format = true) formats.
Proof.
  assert (Hdefault :
    forall o',
      exists formats,
        prop (assign o' "supportedFormats" (VArray defaultFormats)) "supportedFormats"
        = VArray formats
        /\ formats <> []
        /\ Forall (fun format => isValidFormat format = true) formats).
  { intros o'. rewrite prop_assign_same. exists defaultFormats.
    split; [reflexivity|]. split; [discriminate | apply defaultFormats_valid]. }
  unfold validateSupportedFormats.
  destruct (prop o "supportedFormats") as [| |b|n|s|items|fields] eqn:Ep;
    try apply Hdefault.
  destruct (length items =? 0)%nat eqn:E0; [apply Hdefault|].
  destruct (negb (length (List.filter isValidFormat items) =? length items)%nat) eqn:E1.
  - rewrite prop_assign_same.
    destruct (0 <? length (List.filter isValidFormat items))%nat eqn:E2.
    + exists (List.filter isValidFormat items). split; [reflexivity|]. split.
      * apply Nat.ltb_lt in E2. intros H. rewrite H in E2. cbn in E2. lia.
      * apply List.Forall_forall. intros x Hx. apply filter_In in Hx. apply Hx.
    + exists defaultFormats.
      split; [reflexivity|]. split; [discriminate | apply defaultFormats_valid].
  - apply negb_false_iff, Nat.eqb_eq in E1.
    exists items. split; [exact Ep|]. split.
    + apply Nat.eqb_neq in E0. intros ->. apply E0. reflexivity.
    + clear Ep E0. induction items as [|x items IH]; [constructor|].
      cbn [List.filter length] in E1. destruct (isValidFormat x) eqn:Ex.
      * constructor; [exact Ex|]. apply IH. cbn [length] in E1. lia.
      * exfalso. pose proof (filter_length_le isValidFormat items). lia.
Qed.

Lemma validateBoolean_good (key : string) (o : settingsObject) :
  (exists b, prop DEFAULT_SETTINGS key = VBool b) ->
  exists b, prop (validateBoolean key o) key = VBool b.
Proof.
  intros [b0 Hdefault]. unfold validateBoolean.
  destruct (negb (isType (prop o key) "boolean")) eqn:E.
  - rewrite prop_assign_same. eauto.
  - apply negb_false_iff in E.
    destruct (prop o key) as [| |b|n|s|items|fields]; try discriminate E. eauto.
Qed.

Lemma filter_all_valid (formats : list jsval) :
  Forall (fun format => isValidFormat format = true) formats ->
  List.filter isValidFormat formats = formats.
Proof.
  induction 1 as [|x formats Hx _ IH]; [reflexivity|].
  cbn [List.filter]. rewrite Hx, IH. reflexivity.
Qed.

(** What [validateSettings] returns is usable. *)
Lemma validated_is_usable (settings : settingsObject) :
  wellFormed (validateSettings settings).
Proof.
  unfold wellFormed, validateSettings.
  split; [|split; [|split; [|split; [|split]]]].
  - destruct (validateUpicPath_good settings) as (path & H & Hne).
    exists path. split; [|exact Hne]. rewrite <- H. unfold prop.
    rewrite !validateBoolean_frame, validateSupportedFormats_frame,
      validateUploadTimeout_frame by keys_differ.
    reflexivity.
  - destruct (validateUploadTimeout_good (validateUpicPath settings))
      as (n & H & H1 & H2).
    exists n. split; [|auto]. rewrite <- H. unfold prop.
    rewrite !validateBoolean_frame, validateSupportedFormats_frame by keys_differ.
    reflexivity.
  - destruct (validateSupportedFormats_good
                (validateUploadTimeout (validateUpicPath settings)))
      as (formats & H & H1 & H2).
    exists formats. split; [|auto]. rewrite <- H. unfold prop.
    rewrite !validateBoolean_frame by keys_differ.
    reflexivity.
  - destruct (validateBoolean_good "autoUpload"
                (validateSupportedFormats
                   (validateUploadTimeout (validateUpicPath settings))))
      as (b & H); [vm_compute; eauto|].
    exists b. rewrite <- H. unfold prop.
    rewrite !(validateBoolean_frame _ _ (js "autoUpload")) by keys_differ.
    reflexivity.
  - destruct (validateBoolean_good "deleteLocalFile"
                (validateBoolean "autoUpload"
                   (validateSupportedFormats
                      (validateUploadTimeout (validateUpicPath settings)))))
      as (b & H); [vm_compute; eauto|].
    exists b. rewrite <- H. unfold prop.
    rewrite (validateBoolean_frame "showNotifications") by keys_differ.
    reflexivity.
  - apply validateBoolean_good. vm_compute. eauto.
Qed.

(** X26.  Whatever was loaded, [validateSettings] leaves settings the
    plugin can use: a non-empty string as tool path, a number above zero
    as timeout, a non-empty array of non-blank strings as formats, and
    booleans in the three switches.  Properties under other names are not
    touched. *)
Theorem validateSettings_yields_usable_settings (settings : settingsObject) :
  wellFormed (validateSettings settings)
  /\ forall k : str,
       k ∉ [js "upicPath"; js "uploadTimeout"; js "supportedFormats";
            js "autoUpload"; js "deleteLocalFile"; js "showNotifications"] ->
       validateSettings settings !! k = settings !! k.
Proof.
  split; [apply validated_is_usable|].
  intros k Hk. unfold validateSettings.
  assert (Hne : forall key,
             In key ["upicPath"; "uploadTimeout"; "supportedFormats";
                     "autoUpload"; "deleteLocalFile"; "showNotifications"]%string ->
             k <> js key).
  { intros key Hin ->. apply Hk. apply list_elem_of_In.
    cbn [In] in Hin |- *.
    repeat (destruct Hin as [<-|Hin]; [tauto|]). destruct Hin. }
  rewrite !validateBoolean_frame, validateSupportedFormats_frame,
    validateUploadTimeout_frame, validateUpicPath_frame
    by (apply Hne; cbn [In]; tauto).
  reflexivity.
Qed.

Lemma validate_leaves_usable (settings : settingsObject) :
  wellFormed settings -> validateSettings settings = settings.
Proof.
  intros ((path & Hp & Hpne) & (n & Hn & Hn1 & Hn2) & (formats & Hf & Hf1 & Hf2)
          & (b1 & Hb1) & (b2 & Hb2) & (b3 & Hb3)).
  unfold validateSettings.
  assert (H1 : validateUpicPath settings = settings).
  { unfold validateUpicPath. rewrite Hp. destruct path; [congruence|]. reflexivity. }
  rewrite H1.
  assert (H2 : validateUploadTimeout settings = settings).
  { unfold validateUploadTimeout. rewrite Hn, Hn1, Hn2. reflexivity. }
  rewrite H2.
  assert (H3 : validateSupportedFormats settings = settings).
  { unfold validateSupportedFormats. rewrite Hf.
    rewrite (filter_all_valid _ Hf2), Nat.eqb_refl.
    destruct formats; [congruence|]. reflexivity. }
  rewrite H3.
  assert (H4 : forall key b, prop settings key = VBool b ->
                 validateBoolean key settings = settings).
  { intros key b H. unfold validateBoolean. rewrite H. reflexivity. }
  rewrite (H4 _ _ Hb1), (H4 _ _ Hb2), (H4 _ _ Hb3). reflexivity.
Qed.

(** X27.  [validateSettings] changes nothing in settings that are
    already usable, and validating twice is validating once. *)
Theorem validateSettings_is_idempotent (settings : settingsObject) :
  (wellFormed settings -> validateSettings settings = settings)
  /\ validateSettings (validateSettings settings) = validateSettings settings.
Proof.
  split; [apply validate_leaves_usable|].
  apply validate_leaves_usable, validated_is_usable.
Qed.
End ValidateSettings.

Lemma validateSettings_is_idempotent_witness :
  Settings.validateSettings Settings.DEFAULT_SETTINGS = Settings.DEFAULT_SETTINGS.
Proof.
  apply (proj1 (validateSettings_is_idempotent Settings.DEFAULT_SETTINGS)).
  unfold Settings.wellFormed.
  split; [|split; [|split; [|split; [|split]]]].
  - exists Settings.defaultUpicPath. split; [vm_compute; reflexivity | discriminate].
  - exists (Settings.Finite 30 0). split; [vm_compute; reflexivity|]. split; reflexivity.
  - exists Settings.defaultFormats.
    split; [vm_compute; reflexivity|]. split; [discriminate|]. repeat constructor.
  - exists true. vm_compute. reflexivity.
  - exists false. vm_compute. reflexivity.
  - exists true. vm_compute. reflexivity.
Defined.

(** ** uploadSelectedImage *)

Lemma stripPrefix_app (p s : str) : stripPrefix p (p ++ s) = Some s.
Proof.
  rewrite stripPrefix_startsWith, startsWith_app, drop_app_length. reflexivity.
Qed.

(** A greedy class walk over [body] that stops at [c] hands over there,
    when the continuation accepts. *)
Lemma star_longest {A : Type} (k : cls) (prev : option N) (body : str) (c : N)
    (rest : str) (caps : list str) (kont : cont) (a : A) :
  Forall (fun x => cls_ok k x = true) body ->
  cls_ok k c = false ->
  (forall prev', kont prev' (c :: rest) caps = Some a) ->
  star k prev (body ++ c :: rest) caps kont = Some a.
Proof.
  intros Hbody Hc Hk. revert prev.
  induction Hbody as [|x body Hx _ IH]; intros prev.
  - cbn [app star]. rewrite Hc. apply Hk.
  - cbn [app star]. rewrite Hx, IH. reflexivity.
Qed.

Lemma noneOf_ok (c : N) (body : str) :
  ~ In c body -> Forall (fun x => cls_ok (NoneOf [c]) x = true) body.
Proof.
  intros H. apply List.Forall_forall. intros x Hx. cbn [cls_ok existsb].
  rewrite orb_false_r. apply negb_true_iff, N.eqb_neq. intros ->. contradiction.
Qed.

Lemma noneOf_stop (c : N) : cls_ok (NoneOf [c]) c = false.
Proof. cbn [cls_ok existsb]. rewrite N.eqb_refl. reflexivity. Qed.

Lemma take_front (a b : str) : take (length (a ++ b) - length b) (a ++ b) = a.
Proof.
  rewrite length_app. replace (length a + length b - length b)%nat with (length a) by lia.
  apply take_app_length.
Qed.

(** The pattern of the command on a selection that begins with a link. *)
Lemma exec_at_imageRegex (prev : option N) (alt target rest : str) :
  ~ In 93 alt -> ~ In 41 target -> target <> [] ->
  exec_at Commands.imageRegex prev (imageLink alt target ++ rest)
  = Some (length (imageLink alt target), [alt; target]).
Proof.
  intros Halt Htarget Hne.
  destruct target as [|t0 target]; [congruence|].
  assert (Ht0 : cls_ok (NoneOf [41]) t0 = true).
  { apply (proj1 (List.Forall_forall _ _) (noneOf_ok 41 _ Htarget)). left. reflexivity. }
  assert (Htail : ~ In 41 target) by (intros H; apply Htarget; right; exact H).
  set (s2 := (t0 :: target) ++ 41 :: rest).
  set (s1 := alt ++ 93 :: 40 :: s2).
  assert (Hs0 : imageLink alt (t0 :: target) ++ rest = js "![" ++ s1).
  { unfold imageLink, s1, s2. rewrite <- !app_assoc. reflexivity. }
  rewrite Hs0. unfold exec_at, Commands.imageRegex. cbn [walk].
  rewrite stripPrefix_app. cbn [last js map list_ascii_of_string length app].
  unfold s1 at 1.
  erewrite star_longest; [reflexivity | apply noneOf_ok; exact Halt | apply noneOf_stop |].
  intros prev'. cbv beta.
  change (93 :: 40 :: s2) with (js "](" ++ s2). rewrite stripPrefix_app.
  unfold s2 at 1. cbn [app]. rewrite Ht0.
  erewrite star_longest; [reflexivity | apply noneOf_ok; exact Htail | apply noneOf_stop |].
  intros prev''. cbv beta.
  change (41 :: rest) with (js ")" ++ rest). rewrite stripPrefix_app.
  assert (H1 : take (length s1 - length (js "](" ++ s2)) s1 = alt)
    by apply (take_front alt (93 :: 40 :: s2)).
  assert (H2 : take (length s2 - length (js ")" ++ rest)) s2 = t0 :: target)
    by apply (take_front (t0 :: target) (41 :: rest)).
  rewrite H1, H2. cbn [length app list_insert insert].
  apply (f_equal (@length N)) in Hs0. rewrite length_app in Hs0.
  cbn [js map list_ascii_of_string length app] in Hs0.
  do 2 f_equal. lia.
Qed.

Lemma matchFirst_imageRegex (alt target rest : str) :
  ~ In 93 alt -> ~ In 41 target -> target <> [] ->
  Commands.matchFirst Commands.imageRegex (imageLink alt target ++ rest)
  = Some (imageLink alt target, [alt; target]).
Proof.
  intros Halt Htarget Hne. unfold Commands.matchFirst.
  destruct (imageLink alt target ++ rest) eqn:E;
    cbn [Commands.match_from]; rewrite <- E;
    rewrite (exec_at_imageRegex None alt target rest Halt Htarget Hne);
    rewrite take_app_length; reflexivity.
Qed.

(** X28.  [uploadSelectedImage] leaves a link that is already remote
    alone: for a selection that begins with an image link whose target
    starts with [http://] or [https://] it shows one notice, uploads
    nothing, replaces nothing and leaves the uploader as it was.  And
    whatever the selection, the text it puts in its place, if any, is an
    image link to a URL with such a scheme. *)
Theorem uploadSelectedImage_never_uploads_a_remote_link (W : Type)
    (handle : forall X : Type, call X -> W -> X * W) (host : Host)
    (w : W) (st : UPicUploader) (alt target rest selection : str) :
  (~ In 93 alt -> ~ In 41 target -> hasScheme target = true ->
   run handle (Commands.uploadSelectedImage host (imageLink alt target ++ rest) st) w
   = ((None, st), snd (handle _ (NewNotice (js "Image is already uploaded")) w),
      [Obs (NewNotice (js "Image is already uploaded")) tt]))
  /\ match answer (run handle (Commands.uploadSelectedImage host selection st) w) with
     | Some text =>
         exists altText u, text = imageLink altText u /\ hasScheme u = true
     | None => True
     end.
Proof.
  split.
  - intros Halt Htarget Hscheme.
    assert (Hne : target <> []) by (intros ->; discriminate Hscheme).
    unfold Commands.uploadSelectedImage.
    assert (Hsel : nonEmpty (imageLink alt target ++ rest) = true) by reflexivity.
    rewrite Hsel. cbn [negb].
    rewrite (matchFirst_imageRegex alt target rest Halt Htarget Hne).
    cbn [Commands.group lookup list_lookup]. unfold hasScheme in Hscheme.
    rewrite Hscheme. rewrite run_mbind, run_lift_perform.
    destruct (handle _ (NewNotice (js "Image is already uploaded")) w) as [[] w1].
    reflexivity.
  - assert (H : always (Commands.uploadSelectedImage host selection) st
        (fun r _ _ =>
           match r with
           | Some text =>
               exists altText u, text = imageLink altText u /\ hasScheme u = true
           | None => True
           end)).
    { unfold Commands.uploadSelectedImage.
      destruct (negb (nonEmpty selection)).
      { apply always_bind_any. intros. apply always_ret. exact I. }
      destruct (Commands.matchFirst Commands.imageRegex selection) as [[full caps]|].
      2: { apply always_bind_any. intros. apply always_ret. exact I. }
      destruct (startsWith (Commands.group caps 1) (js "http://")
                || startsWith (Commands.group caps 1) (js "https://")).
      { apply always_bind_any. intros. apply always_ret. exact I. }
      apply always_bind.
      eapply always_weaken; [apply uploadFile_post|]. cbv beta.
      intros result st1 t1 [_ Hurl].
      destruct (success result); cbn [andb].
      - destruct (Hurl eq_refl) as (u & Hu & Hs). rewrite Hu.
        destruct u as [|c u]; [discriminate Hs|]. cbn [truthy].
        apply always_bind_any. intros. apply always_ret. eauto.
      - apply always_bind_any. intros. apply always_ret. exact I. }
    apply (H W handle w).
Qed.

Lemma uploadSelectedImage_never_uploads_a_remote_link_witness :
  let selection := js "![shot](https://x.test/a.png) and more" in
  run (Example.handle (Example.bare 0))
    (Commands.uploadSelectedImage Example.host selection
       (newUploader Example.defaultSettings)) []
  = ((None, newUploader Example.defaultSettings), [],
     [Obs (NewNotice (js "Image is already uploaded")) tt]).
Proof.
  intros selection.
  apply (proj1 (uploadSelectedImage_never_uploads_a_remote_link _
                  (Example.handle (Example.bare 0)) Example.host []
                  (newUploader Example.defaultSettings)
                  (js "shot") (js "https://x.test/a.png") (js " and more") []));
    try (vm_compute; reflexivity);
    vm_compute; intros H; repeat (destruct H as [H|H]; [discriminate H|]); exact H.
Defined.
